(** * Size-mapping engine of the nail sizer API

    A shallow embedding of [api/src/routes/recommend.ts] (the rule matcher
    [applyRulesToFinger] and the [POST /v1/recommend] handler) and of the
    per-finger body of [POST /v1/admin/rules/preview] in
    [api/src/routes/admin.ts], together with the properties the design
    document states about them.

    Modelling conventions.
    - The rule matcher is embedded twice.  [Double.applyRulesToFinger]
      computes with IEEE 754 doubles as the runtime does ([spec_float] at
      precision 53, every subtraction and division rounded); the statements
      on the fit thresholds and on boundary distances, which the rounding
      decides, are about it.  [applyRulesToFinger] takes the widths as exact
      rationals [Q] and leaves the rounding out ([Infinity], which the code
      uses only as the initial value of a running minimum, is the [None] of
      an [option Q]); the handler and the statements that rest on
      comparisons alone are written on it.  Integer columns ([mapped_size],
      [priority], ids, set sizes) are [Z].
    - [text] columns are [string]s; the closed TypeScript unions
      [FingerName] and [FitLabel] are inductive types.
    - An exception thrown by the JavaScript runtime is an explicit
      [Throw] result; early [return c.json(...)] is an explicit [Respond].
    - The database is a record of row lists; every query and write the
      handler issues is also appended to a trace. *)

From Stdlib Require Import ZArith QArith Qabs List String Bool Lia.
From Stdlib Require Import Permutation Sorted DecimalString Lqa SpecFloat.
Import ListNotations.

Local Open Scope string_scope.
Local Open Scope list_scope.
Local Open Scope Z_scope.

(* ------------------------------------------------------------------ *)
(** ** Array.prototype.sort *)

(** [Array.prototype.sort] is stable.  The model inserts every element, in
    array order, into the already sorted prefix and decides each step on
    whether [comparefn(new, old) < 0], which is the only question V8 (the
    engine under [@hono/node-server]) asks of a comparator, always with the
    later element as first argument. *)
Section ArraySort.
Context {A : Type}.
Variable comparefn : A -> A -> Z.

Fixpoint sort_insert (x : A) (pre : list A) : list A :=
  match pre with
  | [] => [x]
  | y :: pre' =>
      if comparefn x y <? 0 then x :: y :: pre'
      else y :: sort_insert x pre'
  end.

Definition array_sort (l : list A) : list A :=
  fold_left (fun pre x => sort_insert x pre) l [].
End ArraySort.

(** Vocabulary on sorted arrays: an array in ascending order of an integer
    key, and the earliest element of least key among those passing a test. *)
Section SortVocabulary.
Context {A : Type}.
Variable key : A -> Z.

Definition key_sorted (l : list A) : Prop :=
  StronglySorted (fun a b => key a <= key b) l.

Variable P : A -> bool.

Definition best_step (best : option A) (x : A) : option A :=
  if P x then
    match best with
    | None => Some x
    | Some b => if key x <? key b then Some x else Some b
    end
  else best.

Definition first_best (l : list A) : option A :=
  fold_left best_step l None.
End SortVocabulary.

(* ------------------------------------------------------------------ *)
(** ** Data model ([api/src/db/schema.ts]) *)

Inductive FingerName := thumb | index | middle | ring | pinky.
Inductive FitLabel := snug | standard | loose.

Definition finger_str (n : FingerName) : string :=
  match n with
  | thumb => "thumb" | index => "index" | middle => "middle"
  | ring => "ring" | pinky => "pinky"
  end.

Definition FingerName_eqb (a b : FingerName) : bool :=
  match a, b with
  | thumb, thumb | index, index | middle, middle
  | ring, ring | pinky, pinky => true
  | _, _ => false
  end.

Record SizeRule := mkRule {
  rule_id : Z;
  rule_chartId : string;
  finger : string;          (* "all" | "thumb" | "index" | ... *)
  minWidthMm : Q;
  maxWidthMm : Q;
  mappedSize : Z;
  priority : Z
}.

Record SizeRulesConfig := mkConfig {
  cfg_id : Z;
  cfg_chartId : string;
  betweenSizes : string;    (* "size_up" | "size_down" *)
  toleranceMm : Q
}.

Inductive JsError := TypeError.

Inductive Completion (A : Type) :=
| Normal (a : A)
| Throw (e : JsError).
Arguments Normal {A} a.
Arguments Throw {A} e.

(* ------------------------------------------------------------------ *)
(** ** The rule matcher, [applyRulesToFinger] *)

Definition Qltb (x y : Q) : bool := negb (Qle_bool y x).

Definition Math_min (x y : Q) : Q := if Qle_bool x y then x else y.
Definition Math_abs (x : Q) : Q := Qabs x.

(** [r.finger === 'all' || r.finger === fingerName] *)
Definition is_relevant (fingerName : FingerName) (r : SizeRule) : bool :=
  String.eqb (finger r) "all" || String.eqb (finger r) (finger_str fingerName).

(** The comparator of [relevant.sort(...)] in recommend.ts. *)
Definition compareRules (fingerName : FingerName) (a b : SizeRule) : Z :=
  if negb (priority b =? priority a) then priority b - priority a
  else if String.eqb (finger a) (finger_str fingerName)
          && String.eqb (finger b) "all" then -1
  else if String.eqb (finger a) "all"
          && String.eqb (finger b) (finger_str fingerName) then 1
  else 0.

Definition sorted_relevant (fingerName : FingerName) (rules : list SizeRule)
  : list SizeRule :=
  array_sort (compareRules fingerName) (filter (is_relevant fingerName) rules).

(** [widthMm >= rule.minWidthMm && widthMm <= rule.maxWidthMm] *)
Definition in_range (widthMm : Q) (rule : SizeRule) : bool :=
  Qle_bool (minWidthMm rule) widthMm && Qle_bool widthMm (maxWidthMm rule).

Definition exact_fit (widthMm : Q) (rule : SizeRule) : FitLabel :=
  let range := (maxWidthMm rule - minWidthMm rule)%Q in
  let position :=
    if Qltb 0 range then ((widthMm - minWidthMm rule) / range)%Q
    else (1 # 2)%Q in
  if Qltb position (33 # 100) then snug
  else if Qltb (67 # 100) position then loose
  else standard.

(** First loop: the first rule of [relevant] whose range contains the width. *)
Fixpoint exact_match (widthMm : Q) (relevant : list SizeRule)
  : option (Z * FitLabel) :=
  match relevant with
  | [] => None
  | rule :: rest =>
      if in_range widthMm rule
      then Some (mappedSize rule, exact_fit widthMm rule)
      else exact_match widthMm rest
  end.

Definition boundary_diff (widthMm : Q) (rule : SizeRule) : Q :=
  Math_min (Math_abs (widthMm - minWidthMm rule))
           (Math_abs (widthMm - maxWidthMm rule)).

(** [diff < best] where [best] starts as [Infinity]. *)
Definition below (diff : Q) (best : option Q) : bool :=
  match best with
  | None => true
  | Some b => Qltb diff b
  end.

(** Second loop: state is [(nearestRule, nearestDiff)], initially
    [(null, Infinity)]. *)
Definition nearest_step (widthMm tol : Q)
  (st : option SizeRule * option Q) (rule : SizeRule)
  : option SizeRule * option Q :=
  let diff := boundary_diff widthMm rule in
  if Qle_bool diff tol && below diff (snd st)
  then (Some rule, Some diff) else st.

Definition nearest_within_tolerance (widthMm tol : Q)
  (relevant : list SizeRule) : option SizeRule :=
  fst (fold_left (nearest_step widthMm tol) relevant (None, None)).

(** Third loop: state is [(closestRule, closestDiff)], initially
    [(relevant[0], Infinity)]; [relevant[0]] is [undefined] on an empty
    array. *)
Definition closest_step (widthMm : Q)
  (st : option SizeRule * option Q) (rule : SizeRule)
  : option SizeRule * option Q :=
  let diff := boundary_diff widthMm rule in
  if below diff (snd st) then (Some rule, Some diff) else st.

Definition closest_rule (widthMm : Q) (relevant : list SizeRule)
  : option SizeRule :=
  fst (fold_left (closest_step widthMm) relevant (hd_error relevant, None)).

Definition applyRulesToFinger (widthMm : Q) (fingerName : FingerName)
  (rules : list SizeRule) (config : SizeRulesConfig)
  : Completion (Z * FitLabel) :=
  let relevant := sorted_relevant fingerName rules in
  match exact_match widthMm relevant with
  | Some res => Normal res
  | None =>
      match nearest_within_tolerance widthMm (toleranceMm config) relevant with
      | Some nearestRule =>
          let fit := if String.eqb (betweenSizes config) "size_down"
                     then snug else loose in
          Normal (mappedSize nearestRule, fit)
      | None =>
          match closest_rule widthMm relevant with
          | Some closestRule => Normal (mappedSize closestRule, standard)
          | None => Throw TypeError   (* undefined.mappedSize *)
          end
      end
  end.

(* ------------------------------------------------------------------ *)
(** ** The rule matcher in double precision *)

(** JavaScript numbers are IEEE 754 binary64 values, and the matcher
    subtracts, divides and compares them as such.  [Double] embeds
    [applyRulesToFinger] with that arithmetic: [spec_float] at precision 53
    and maximal exponent 1024, every operation rounded to nearest, ties to
    even, with signed zeros, infinities and NaN.  The claims about the fit
    thresholds and about boundary distances are stated on this embedding;
    the embedding over [Q] above is the same program with the rounding left
    out. *)
Module Double.

Definition prec : Z := 53.
Definition emax : Z := 1024.
Definition double : Type := spec_float.

Definition Infinity : double := S754_infinity false.

(** The double of an integer, and the double that the decimal literal
    [n / 10^k] denotes (the quotient of two integers that are doubles
    themselves is rounded once). *)
Definition of_Z (n : Z) : double := binary_normalize prec emax n 0 false.
Definition decimal (n : Z) (k : N) : double :=
  SFdiv prec emax (of_Z n) (of_Z (10 ^ Z.of_N k)).

(** [x - y], [x / y], [x < y], [x <= y], [x >= y] and [x > y] on numbers;
    a comparison with NaN is false. *)
Definition sub (x y : double) : double := SFsub prec emax x y.
Definition div (x y : double) : double := SFdiv prec emax x y.
Definition ltb (x y : double) : bool := SFltb x y.
Definition leb (x y : double) : bool := SFleb x y.
Definition geb (x y : double) : bool :=
  match SFcompare x y with
  | Some (Eq | Gt) => true
  | _ => false
  end.
Definition gtb (x y : double) : bool :=
  match SFcompare x y with
  | Some Gt => true
  | _ => false
  end.

Definition Math_abs (x : double) : double := SFabs x.

(** [Math.min] of two numbers: NaN when either is NaN, and [-0] is below
    [+0]. *)
Definition Math_min (x y : double) : double :=
  match SFcompare x y with
  | None => S754_nan
  | Some Lt => x
  | Some Gt => y
  | Some Eq =>
      match x, y with
      | S754_zero false, S754_zero true => y
      | _, _ => x
      end
  end.

(** The literals [0], [0.5], [0.33] and [0.67]. *)
Definition zero : double := S754_zero false.
Definition c050 : double := Eval vm_compute in decimal 5 1.
Definition c033 : double := Eval vm_compute in decimal 33 2.
Definition c067 : double := Eval vm_compute in decimal 67 2.

Record SizeRule := mkRule {
  rule_id : Z;
  rule_chartId : string;
  finger : string;          (* "all" | "thumb" | "index" | ... *)
  minWidthMm : double;
  maxWidthMm : double;
  mappedSize : Z;
  priority : Z
}.

Record SizeRulesConfig := mkConfig {
  cfg_id : Z;
  cfg_chartId : string;
  betweenSizes : string;    (* "size_up" | "size_down" *)
  toleranceMm : double
}.

Definition is_relevant (fingerName : FingerName) (r : SizeRule) : bool :=
  String.eqb (finger r) "all" || String.eqb (finger r) (finger_str fingerName).

(** The comparator of [relevant.sort(...)] in recommend.ts. *)
Definition compareRules (fingerName : FingerName) (a b : SizeRule) : Z :=
  if negb (priority b =? priority a) then priority b - priority a
  else if String.eqb (finger a) (finger_str fingerName)
          && String.eqb (finger b) "all" then -1
  else if String.eqb (finger a) "all"
          && String.eqb (finger b) (finger_str fingerName) then 1
  else 0.

Definition sorted_relevant (fingerName : FingerName) (rules : list SizeRule)
  : list SizeRule :=
  array_sort (compareRules fingerName) (filter (is_relevant fingerName) rules).

(** [widthMm >= rule.minWidthMm && widthMm <= rule.maxWidthMm] *)
Definition in_range (widthMm : double) (rule : SizeRule) : bool :=
  geb widthMm (minWidthMm rule) && leb widthMm (maxWidthMm rule).

Definition exact_fit (widthMm : double) (rule : SizeRule) : FitLabel :=
  let range := sub (maxWidthMm rule) (minWidthMm rule) in
  let position :=
    if gtb range zero then div (sub widthMm (minWidthMm rule)) range
    else c050 in
  if ltb position c033 then snug
  else if gtb position c067 then loose
  else standard.

(** First loop: the first rule of [relevant] whose range contains the width. *)
Fixpoint exact_match (widthMm : double) (relevant : list SizeRule)
  : option (Z * FitLabel) :=
  match relevant with
  | [] => None
  | rule :: rest =>
      if in_range widthMm rule
      then Some (mappedSize rule, exact_fit widthMm rule)
      else exact_match widthMm rest
  end.

Definition boundary_diff (widthMm : double) (rule : SizeRule) : double :=
  Math_min (Math_abs (sub widthMm (minWidthMm rule)))
           (Math_abs (sub widthMm (maxWidthMm rule))).

(** Second loop: state is [(nearestRule, nearestDiff)], initially
    [(null, Infinity)]. *)
Definition nearest_step (widthMm tol : double)
  (st : option SizeRule * double) (rule : SizeRule)
  : option SizeRule * double :=
  let diff := boundary_diff widthMm rule in
  if leb diff tol && ltb diff (snd st)
  then (Some rule, diff) else st.

Definition nearest_within_tolerance (widthMm tol : double)
  (relevant : list SizeRule) : option SizeRule :=
  fst (fold_left (nearest_step widthMm tol) relevant (None, Infinity)).

(** Third loop: state is [(closestRule, closestDiff)], initially
    [(relevant[0], Infinity)]; [relevant[0]] is [undefined] on an empty
    array. *)
Definition closest_step (widthMm : double)
  (st : option SizeRule * double) (rule : SizeRule)
  : option SizeRule * double :=
  let diff := boundary_diff widthMm rule in
  if ltb diff (snd st) then (Some rule, diff) else st.

Definition closest_rule (widthMm : double) (relevant : list SizeRule)
  : option SizeRule :=
  fst (fold_left (closest_step widthMm) relevant
         (hd_error relevant, Infinity)).

Definition applyRulesToFinger (widthMm : double) (fingerName : FingerName)
  (rules : list SizeRule) (config : SizeRulesConfig)
  : Completion (Z * FitLabel) :=
  let relevant := sorted_relevant fingerName rules in
  match exact_match widthMm relevant with
  | Some res => Normal res
  | None =>
      match nearest_within_tolerance widthMm (toleranceMm config) relevant with
      | Some nearestRule =>
          let fit := if String.eqb (betweenSizes config) "size_down"
                     then snug else loose in
          Normal (mappedSize nearestRule, fit)
      | None =>
          match closest_rule widthMm relevant with
          | Some closestRule => Normal (mappedSize closestRule, standard)
          | None => Throw TypeError   (* undefined.mappedSize *)
          end
      end
  end.

(** *** Vocabulary of the statements about doubles *)

(** [x < y] and [x <= y] as propositions; both are false of NaN. *)
Definition lt (x y : double) : Prop := SFcompare x y = Some Lt.
Definition le (x y : double) : Prop :=
  SFcompare x y = Some Lt \/ SFcompare x y = Some Eq.

(** The rule is one of the finger: its [finger] is the finger's name or
    [all]. *)
Definition applies (fingerName : FingerName) (r : SizeRule) : Prop :=
  finger r = "all" \/ finger r = finger_str fingerName.

(** The inclusive range of the rule contains the width. *)
Definition contains (r : SizeRule) (widthMm : double) : Prop :=
  le (minWidthMm r) widthMm /\ le widthMm (maxWidthMm r).

(** [a] ranks strictly before [b] for [fingerName]: higher priority, or the
    same priority with [a] finger-specific and [b] an [all] rule. *)
Definition outranks (fingerName : FingerName) (a b : SizeRule) : Prop :=
  priority b < priority a \/
  (priority a = priority b /\ finger a = finger_str fingerName /\
   finger b = "all").

(** The boundary distance [min(|w - minWidthMm|, |w - maxWidthMm|)]. *)
Definition distance (widthMm : double) (r : SizeRule) : double :=
  Math_min (SFabs (SFsub prec emax widthMm (minWidthMm r)))
           (SFabs (SFsub prec emax widthMm (maxWidthMm r))).

(** Where the width sits in the range of a rule: the quotient of the two
    differences when the width of the range is positive, [0.5] otherwise
    (for a range that contains a width, otherwise means of zero width, or
    of undefined width when both bounds are the same infinity). *)
Definition range_position (widthMm : double) (r : SizeRule) : double :=
  let width := SFsub prec emax (maxWidthMm r) (minWidthMm r) in
  match SFcompare width (S754_zero false) with
  | Some Gt => SFdiv prec emax (SFsub prec emax widthMm (minWidthMm r)) width
  | _ => decimal 5 1
  end.

Definition fit_for_position (p : double) (f : FitLabel) : Prop :=
  (lt p (decimal 33 2) -> f = snug) /\
  (lt (decimal 67 2) p -> f = loose) /\
  (~ lt p (decimal 33 2) -> ~ lt (decimal 67 2) p -> f = standard).

(** The integer key by which [compareRules] orders the rules relevant to a
    finger. *)
Definition rule_key (r : SizeRule) : Z :=
  -2 * priority r + (if String.eqb (finger r) "all" then 1 else 0).

(** Scenarios: the rule [{all, 10..12, size 9}], the thumb rule
    [{thumb, 10.5..11.5, size 5, priority 1}], the seed rule
    [{all, 17..30, size 0}], two rules eight millimetres either side of
    13.8, and the default configuration. *)
Definition rule_all_10_12 : SizeRule :=
  mkRule 1 "default" "all" (of_Z 10) (of_Z 12) 9 0.
Definition rule_thumb_105_115 : SizeRule :=
  mkRule 2 "default" "thumb" (decimal 105 1) (decimal 115 1) 5 1.
Definition rule_all_17_30 : SizeRule :=
  mkRule 3 "default" "all" (of_Z 17) (of_Z 30) 0 0.
Definition rule_all_5_58 : SizeRule :=
  mkRule 4 "default" "all" (of_Z 5) (decimal 58 1) 7 0.
Definition rule_all_218_30 : SizeRule :=
  mkRule 5 "default" "all" (decimal 218 1) (of_Z 30) 2 0.
Definition default_config : SizeRulesConfig :=
  mkConfig 0 "default" "size_down" (decimal 3 1).

End Double.

(* ------------------------------------------------------------------ *)
(** ** The admin preview, [POST /v1/admin/rules/preview] (per-finger body) *)

(** The comparator of [relevant.sort(...)] in admin.ts: the branch that
    returns [1] is not there, so an [all] rule compares equal to a
    finger-specific rule of the same priority while the reverse comparison
    is negative.  ECMAScript leaves the order open for such a comparator;
    [array_sort] follows V8, which only tests whether the result is
    negative. *)
Definition comparePreview (fingerName : FingerName) (a b : SizeRule) : Z :=
  if negb (priority b =? priority a) then priority b - priority a
  else if String.eqb (finger a) (finger_str fingerName)
          && String.eqb (finger b) "all" then -1
  else 0.

Fixpoint preview_loop (widthMm : Q) (relevant : list SizeRule) (size : Z) : Z :=
  match relevant with
  | [] => size
  | rule :: rest =>
      if in_range widthMm rule then mappedSize rule
      else preview_loop widthMm rest size
  end.

Definition preview_size (widthMm : Q) (fingerName : FingerName)
  (rules : list SizeRule) : Z :=
  let relevant :=
    array_sort (comparePreview fingerName)
               (filter (is_relevant fingerName) rules) in
  let size := match hd_error relevant with
              | Some r => mappedSize r
              | None => 5              (* relevant[0]?.mappedSize ?? 5 *)
              end in
  preview_loop widthMm relevant size.

(* ------------------------------------------------------------------ *)
(** ** Tables and rows *)

Record FingerData := mkFingerData {
  fd_width_mm : Q;
  fd_length_mm : Q;
  curve_adj_width_mm : Q;
  fd_confidence : Q
}.

(** [fingers] is the JSON object of the measurement; a key that is absent
    (or holds a falsy value) is [None]. *)
Record Measurement := mkMeasurement {
  msr_id : string;
  fingers : FingerName -> option FingerData
}.

Record NailSize := mkNailSize {
  ns_chartId : string;
  sizeNumber : Z;
  label : option string
}.

Record SizeSet := mkSizeSet {
  set_id : Z;
  set_chartId : string;
  set_name : string;
  thumbSize : Z;
  indexSize : Z;
  middleSize : Z;
  ringSize : Z;
  pinkySize : Z
}.

Record Recommendation := mkRecommendation {
  measurementId : string;
  rec_chartId : string;
  rec_sizeProfile : string;
  sizes : list (FingerName * (Z * string * FitLabel));
  matchingSetId : option Z
}.

Record Admin := mkAdmin {
  admin_email : string;
  lastLoginAt : option Z
}.

Record Db := mkDb {
  measurements : list Measurement;
  nailSizes : list NailSize;
  sizeRules : list SizeRule;
  sizeRulesConfig : list SizeRulesConfig;
  sizeSets : list SizeSet;
  recommendations : list Recommendation;
  admins : list Admin
}.

Inductive Table :=
| Tmeasurements | TnailSizes | TsizeRules | TsizeRulesConfig
| TsizeSets | Trecommendations | Tadmins.

Inductive DbOp :=
| Select (t : Table)
| Insert (t : Table).

(* ------------------------------------------------------------------ *)
(** ** Responses and the handler monad *)

Record FingerResult := mkFingerResult {
  size : Z;
  size_label : string;
  width_mm : Q;
  fit : FitLabel
}.

Record MatchingSet := mkMatchingSet {
  ms_set_name : string;
  ms_set_id : string;
  ms_exact_match : bool;
  ms_diff : Z;
  ms_id : Z
}.

Inductive Response :=
| JsonError (status : Z) (error message : string)
| JsonOk (measurement_id size_profile : string)
         (per_finger : list (FingerName * FingerResult))
         (matching_sets : list (string * string * bool * Z)).

Inductive Outcome (A : Type) :=
| Continue (a : A)
| Respond (r : Response)
| Threw (e : JsError).
Arguments Continue {A} a.
Arguments Respond {A} r.
Arguments Threw {A} e.

(** A handler step reads and writes the database and extends the trace. *)
Definition Handler (A : Type) : Type :=
  Db -> list DbOp -> Outcome A * Db * list DbOp.

Definition ret {A} (a : A) : Handler A := fun d tr => (Continue a, d, tr).

Definition bind {A B} (m : Handler A) (k : A -> Handler B) : Handler B :=
  fun d tr =>
    match m d tr with
    | (Continue a, d', tr') => k a d' tr'
    | (Respond r, d', tr') => (Respond r, d', tr')
    | (Threw e, d', tr') => (Threw e, d', tr')
    end.

Notation "x <- m ;; k" := (bind m (fun x => k))
  (at level 61, m at next level, right associativity).
Notation "m ;;; k" := (bind m (fun _ => k))
  (at level 61, right associativity).

Definition respond {A} (r : Response) : Handler A :=
  fun d tr => (Respond r, d, tr).

Definition liftC {A} (c : Completion A) : Handler A :=
  fun d tr =>
    match c with
    | Normal a => (Continue a, d, tr)
    | Throw e => (Threw e, d, tr)
    end.

Definition db_select {A} (t : Table) (query : Db -> A) : Handler A :=
  fun d tr => (Continue (query d), d, tr ++ [Select t]).

Definition with_recommendations (d : Db) (t : list Recommendation) : Db :=
  mkDb (measurements d) (nailSizes d) (sizeRules d) (sizeRulesConfig d)
       (sizeSets d) t (admins d).

(** [db.insert(recommendations).values(row)] *)
Definition insert_recommendation (row : Recommendation) : Handler unit :=
  fun d tr =>
    (Continue tt, with_recommendations d (recommendations d ++ [row]),
     tr ++ [Insert Trecommendations]).

Definition bindC {A B} (c : Completion A) (k : A -> Completion B)
  : Completion B :=
  match c with
  | Normal a => k a
  | Throw e => Throw e
  end.

Fixpoint mapC {A B} (f : A -> Completion B) (l : list A)
  : Completion (list B) :=
  match l with
  | [] => Normal []
  | x :: rest =>
      bindC (f x) (fun y => bindC (mapC f rest) (fun ys => Normal (y :: ys)))
  end.

Fixpoint filterC {A} (f : A -> Completion bool) (l : list A)
  : Completion (list A) :=
  match l with
  | [] => Normal []
  | x :: rest =>
      bindC (f x) (fun keep =>
      bindC (filterC f rest) (fun ys =>
      Normal (if keep then x :: ys else ys)))
  end.

(* ------------------------------------------------------------------ *)
(** ** [POST /v1/recommend] *)

(** What [c.req.json()] makes of the request body: it throws (the body is
    no JSON text), it returns [null], or it returns another JSON value, of
    which the handler reads [measurement_id] (declared a string;
    [undefined] on a value that has no such key). *)
Inductive ReqBody :=
| NotJson
| JsonNull
| Json (measurement_id : option string).

(** [String(n)] on an integer. *)
Definition String_of_Z (n : Z) : string := NilZero.string_of_int (Z.to_int n).

Definition is_default_chart (chartId : string) : bool :=
  String.eqb chartId "default".

Definition select_measurement (id : string) (d : Db) : list Measurement :=
  filter (fun m => String.eqb (msr_id m) id) (measurements d).

(** [.where(eq(sizeRules.chartId, 'default')).orderBy(desc(sizeRules.priority))];
    SQL leaves the order of equal priorities open, the model keeps the stored
    order. *)
Definition select_rules (d : Db) : list SizeRule :=
  array_sort (fun a b => priority b - priority a)
    (filter (fun r => is_default_chart (rule_chartId r)) (sizeRules d)).

Definition select_config (d : Db) : list SizeRulesConfig :=
  filter (fun c => is_default_chart (cfg_chartId c)) (sizeRulesConfig d).

Definition select_nailSizes (d : Db) : list NailSize :=
  filter (fun s => is_default_chart (ns_chartId s)) (nailSizes d).

Definition select_sets (d : Db) : list SizeSet :=
  filter (fun s => is_default_chart (set_chartId s)) (sizeSets d).

Definition sizeLabel (sizeRows : list NailSize) (n : Z) : string :=
  match find (fun s => sizeNumber s =? n) sizeRows with
  | Some s => match label s with
              | Some l => l
              | None => String_of_Z n
              end
  | None => String_of_Z n
  end.

Definition fingerNames : list FingerName := [thumb; index; middle; ring; pinky].

(** [perFinger] is a JavaScript object: keys in insertion order. *)
Definition PerFinger := list (FingerName * FingerResult).

Fixpoint perFinger_set (pf : PerFinger) (n : FingerName) (v : FingerResult)
  : PerFinger :=
  match pf with
  | [] => [(n, v)]
  | (m, w) :: rest =>
      if FingerName_eqb m n then (m, v) :: rest
      else (m, w) :: perFinger_set rest n v
  end.

(** [perFinger[n]] followed by a property access: a missing key throws. *)
Definition perFinger_get (pf : PerFinger) (n : FingerName)
  : Completion FingerResult :=
  match find (fun e => FingerName_eqb (fst e) n) pf with
  | Some e => Normal (snd e)
  | None => Throw TypeError
  end.

(** Step 5, the [for (const name of fingerNames)] loop. *)
Fixpoint finger_loop (names : list FingerName)
  (fingers_ : FingerName -> option FingerData)
  (rules : list SizeRule) (effectiveConfig : SizeRulesConfig)
  (sizeRows : list NailSize) (perFinger : PerFinger) : Handler PerFinger :=
  match names with
  | [] => ret perFinger
  | name :: rest =>
      match fingers_ name with
      | None =>
          respond (JsonError 400 "validation_error"
                     ("Measurement missing data for finger: " ++ finger_str name)%string)
      | Some finger_ =>
          res <- liftC (applyRulesToFinger (curve_adj_width_mm finger_)
                          name rules effectiveConfig) ;;
          let '(size_, fit_) := res in
          finger_loop rest fingers_ rules effectiveConfig sizeRows
            (perFinger_set perFinger name
               (mkFingerResult size_ (sizeLabel sizeRows size_)
                  (curve_adj_width_mm finger_) fit_))
      end
  end.

Definition setMap (set : SizeSet) (n : FingerName) : Z :=
  match n with
  | thumb => thumbSize set
  | index => indexSize set
  | middle => middleSize set
  | ring => ringSize set
  | pinky => pinkySize set
  end.

(** Step 7: [sets.map(...).filter((s) => s.diff <= 2).sort((a, b) => a.diff - b.diff)]. *)
Definition matchingSets (perFinger : PerFinger) (sets : list SizeSet)
  : Completion (list MatchingSet) :=
  bindC
    (mapC (fun set =>
       bindC (filterC (fun n =>
                bindC (perFinger_get perFinger n) (fun r =>
                Normal (negb (size r =? setMap set n)))) fingerNames)
         (fun differing =>
            let diff := Z.of_nat (List.length differing) in
            Normal (mkMatchingSet (set_name set)
                      ("set_" ++ String_of_Z (set_id set))%string
                      (diff =? 0) diff (set_id set))))
       sets)
    (fun mapped =>
       Normal (array_sort (fun a b => ms_diff a - ms_diff b)
                 (filter (fun s => ms_diff s <=? 2) mapped))).

(** [matchingSets[0]?._id ?? null] *)
Definition bestMatchSetId (ms : list MatchingSet) : option Z :=
  match ms with
  | [] => None
  | s :: _ => Some (ms_id s)
  end.

Definition sizeProfile (perFinger : PerFinger) : Completion string :=
  bindC (mapC (fun n => bindC (perFinger_get perFinger n)
                          (fun r => Normal (size r))) fingerNames)
        (fun l => Normal (String.concat "-" (map String_of_Z l))).

Definition sizesJson (perFinger : PerFinger)
  : Completion (list (FingerName * (Z * string * FitLabel))) :=
  mapC (fun n => bindC (perFinger_get perFinger n)
                   (fun r => Normal (n, (size r, size_label r, fit r))))
       fingerNames.

Definition default_effectiveConfig : SizeRulesConfig :=
  mkConfig 0 "default" "size_down" (3 # 10).

Definition recommend_post (body : ReqBody) : Handler Response :=
  id <- match body with
        | NotJson =>
            respond (JsonError 400 "validation_error" "Request body must be JSON")
        | JsonNull => liftC (Throw TypeError)     (* null.measurement_id *)
        | Json None | Json (Some EmptyString) =>
            respond (JsonError 400 "validation_error" "measurement_id is required")
        | Json (Some id) => ret id
        end ;;
  (* 1. Fetch measurement *)
  rows <- db_select Tmeasurements (select_measurement id) ;;
  measurement <- match rows with
                 | [] => respond (JsonError 404 "not_found" "Measurement not found")
                 | m :: _ => ret m
                 end ;;
  (* 2. Check rules exist *)
  rules <- db_select TsizeRules select_rules ;;
  (if (List.length rules =? 0)%nat
   then respond (JsonError 400 "no_rules"
          "Size mapping rules have not been configured. Contact admin.")
   else ret tt) ;;;
  (* 3. Fetch config (use defaults if not found) *)
  config <- db_select TsizeRulesConfig select_config ;;
  let effectiveConfig := match config with
                         | c :: _ => c
                         | [] => default_effectiveConfig
                         end in
  (* 4. Fetch nail size labels *)
  sizeRows <- db_select TnailSizes select_nailSizes ;;
  (* 5. Apply rules to each finger *)
  perFinger <- finger_loop fingerNames (fingers measurement) rules
                 effectiveConfig sizeRows [] ;;
  (* 6. Build size profile string *)
  profile <- liftC (sizeProfile perFinger) ;;
  (* 7. Find matching sets *)
  sets <- db_select TsizeSets select_sets ;;
  ms <- liftC (matchingSets perFinger sets) ;;
  (* 8. Store recommendation *)
  sizes_ <- liftC (sizesJson perFinger) ;;
  insert_recommendation
    (mkRecommendation id "default" profile sizes_ (bestMatchSetId ms)) ;;;
  (* 9. Return *)
  ret (JsonOk id profile perFinger
         (map (fun s => (ms_set_name s, ms_set_id s, ms_exact_match s, ms_diff s))
              ms)).

(** Running the handler on a database; the trace starts empty.  The result
    is the response sent, by an early [return] or at the end, or the
    exception that escaped the handler (which [app.onError] in index.ts turns
    into a 500 [internal_error]). *)
Definition run_recommend (body : ReqBody) (d : Db)
  : Completion Response * Db * list DbOp :=
  match recommend_post body d [] with
  | (Continue r, d', tr) => (Normal r, d', tr)
  | (Respond r, d', tr) => (Normal r, d', tr)
  | (Threw e, d', tr) => (Throw e, d', tr)
  end.

(* ------------------------------------------------------------------ *)
(** ** Every write the API issues

    One constructor per route (or script) that writes, with the table its
    [db.insert] / [db.update] / [db.delete] call names.  Routes other than
    [POST /v1/recommend] are over-approximated: they may leave any content
    in the one table they write.  The admin web application keeps a SQLite
    database of its own, which has no [recommendations] table. *)

Definition with_measurements (d : Db) (t : list Measurement) : Db :=
  mkDb t (nailSizes d) (sizeRules d) (sizeRulesConfig d) (sizeSets d)
       (recommendations d) (admins d).
Definition with_nailSizes (d : Db) (t : list NailSize) : Db :=
  mkDb (measurements d) t (sizeRules d) (sizeRulesConfig d) (sizeSets d)
       (recommendations d) (admins d).
Definition with_sizeRules (d : Db) (t : list SizeRule) : Db :=
  mkDb (measurements d) (nailSizes d) t (sizeRulesConfig d) (sizeSets d)
       (recommendations d) (admins d).
Definition with_sizeRulesConfig (d : Db) (t : list SizeRulesConfig) : Db :=
  mkDb (measurements d) (nailSizes d) (sizeRules d) t (sizeSets d)
       (recommendations d) (admins d).
Definition with_sizeSets (d : Db) (t : list SizeSet) : Db :=
  mkDb (measurements d) (nailSizes d) (sizeRules d) (sizeRulesConfig d) t
       (recommendations d) (admins d).
Definition with_admins (d : Db) (t : list Admin) : Db :=
  mkDb (measurements d) (nailSizes d) (sizeRules d) (sizeRulesConfig d)
       (sizeSets d) (recommendations d) t.

Inductive api_write : Db -> Db -> Prop :=
(* measure.ts: POST /v1/measure, db.insert(measurements) *)
| write_measure d row :
    api_write d (with_measurements d (measurements d ++ [row]))
(* recommend.ts: POST /v1/recommend *)
| write_recommend d body :
    api_write d (snd (fst (run_recommend body d)))
(* admin.ts: POST /auth/login, db.update(admins) *)
| write_admin_login d t : api_write d (with_admins d t)
(* admin.ts: POST, PUT, DELETE /sizes and POST /sizes/import on nailSizes *)
| write_admin_sizes d t : api_write d (with_nailSizes d t)
(* admin.ts: POST, PUT, DELETE /rules on sizeRules *)
| write_admin_rules d t : api_write d (with_sizeRules d t)
(* admin.ts: PUT /rules/config, upsert on sizeRulesConfig *)
| write_admin_rules_config d t : api_write d (with_sizeRulesConfig d t)
(* admin.ts: POST, PUT, DELETE /sets on sizeSets *)
| write_admin_sets d t : api_write d (with_sizeSets d t)
(* db/seed.ts: inserts into admins, nailSizes, sizeRules, sizeRulesConfig *)
| write_seed d a n r c :
    api_write d
      (with_sizeRulesConfig (with_sizeRules (with_nailSizes (with_admins d a) n) r) c).

(** Any history of writes. *)
Inductive api_writes : Db -> Db -> Prop :=
| writes_nil d : api_writes d d
| writes_step d1 d2 d3 :
    api_writes d1 d2 -> api_write d2 d3 -> api_writes d1 d3.

(* ------------------------------------------------------------------ *)
(** ** Vocabulary of the statements *)

(** [a] ranks strictly before [b] for [fingerName]: higher priority, or the
    same priority with [a] finger-specific and [b] an [all] rule. *)
Definition outranks (fingerName : FingerName) (a b : SizeRule) : Prop :=
  priority b < priority a \/
  (priority a = priority b /\ finger a = finger_str fingerName /\
   finger b = "all").

(** The integer key by which [compareRules] orders the rules relevant to a
    finger. *)
Definition rule_key (r : SizeRule) : Z :=
  -2 * priority r + (if String.eqb (finger r) "all" then 1 else 0).

(** The error responses of the recommend route, the trace of a successful
    run, and the configuration the handler matches with. *)
Definition no_rules_response : Response :=
  JsonError 400 "no_rules"
    "Size mapping rules have not been configured. Contact admin.".
Definition not_found_response : Response :=
  JsonError 404 "not_found" "Measurement not found".
Definition missing_finger_response (n : FingerName) : Response :=
  JsonError 400 "validation_error"
    ("Measurement missing data for finger: " ++ finger_str n)%string.

Definition recommend_trace : list DbOp :=
  [Select Tmeasurements; Select TsizeRules; Select TsizeRulesConfig;
   Select TnailSizes; Select TsizeSets; Insert Trecommendations].

(** The handler answered with a recommendation. *)
Definition is_ok (out : Completion Response) : Prop :=
  exists id profile pf ms, out = Normal (JsonOk id profile pf ms).

Definition effective_config (d : Db) : SizeRulesConfig :=
  match select_config d with
  | [] => default_effectiveConfig
  | c :: _ => c
  end.

Definition four_reads : list DbOp :=
  [Select Tmeasurements; Select TsizeRules; Select TsizeRulesConfig;
   Select TnailSizes].

(** The [perFinger] object after a complete run of the finger loop. *)
Definition perFinger_of (t i m r p : FingerResult) : PerFinger :=
  [(thumb, t); (index, i); (middle, m); (ring, r); (pinky, p)].

(** The recommended size of each finger in such an object. *)
Definition recommended_of (t i m r p : FingerResult) (n : FingerName) : Z :=
  match n with
  | thumb => size t | index => size i | middle => size m
  | ring => size r | pinky => size p
  end.

(** Number of the five positions at which a set differs from the
    recommended sizes. *)
Definition hamming (recommended : FingerName -> Z) (set : SizeSet) : Z :=
  (if recommended thumb =? thumbSize set then 0 else 1) +
  (if recommended index =? indexSize set then 0 else 1) +
  (if recommended middle =? middleSize set then 0 else 1) +
  (if recommended ring =? ringSize set then 0 else 1) +
  (if recommended pinky =? pinkySize set then 0 else 1).

Definition ranked_entry (recommended : FingerName -> Z) (set : SizeSet)
  : MatchingSet :=
  mkMatchingSet (set_name set) ("set_" ++ String_of_Z (set_id set))%string
    (hamming recommended set =? 0) (hamming recommended set) (set_id set).

(** Scenarios of the design document. *)
Definition rule_all_10_12 : SizeRule :=
  mkRule 1 "default" "all" (10 # 1) (12 # 1) 9 0.
Definition rule_thumb_105_115 : SizeRule :=
  mkRule 2 "default" "thumb" (105 # 10) (115 # 10) 5 1.
Definition default_config : SizeRulesConfig :=
  mkConfig 0 "default" "size_down" (3 # 10).


(** A rule whose range is inverted, as [PUT /v1/admin/rules/:id] (which
    checks nothing) leaves it after raising [min_width_mm] above
    [max_width_mm]; and a configuration with tolerance zero. *)
Definition inverted_rule : SizeRule :=
  mkRule 3 "default" "all" (12 # 1) (10 # 1) 9 0.
Definition zero_tolerance_config : SizeRulesConfig :=
  mkConfig 1 "default" "size_down" 0.

(** Databases for the scenarios of the recommend route. *)
Definition finger_11 : FingerData :=
  mkFingerData (11 # 1) (12 # 1) (11 # 1) (9 # 10).

Definition full_measurement : Measurement :=
  mkMeasurement "msr_1" (fun _ => Some finger_11).

(** The measurement object has no [index] key. *)
Definition measurement_without_index : Measurement :=
  mkMeasurement "msr_2"
    (fun n => match n with index => None | _ => Some finger_11 end).

Definition thumb_only_rule : SizeRule :=
  mkRule 4 "default" "thumb" (10 # 1) (12 # 1) 9 0.
Definition index_only_rule : SizeRule :=
  mkRule 5 "default" "index" (10 # 1) (12 # 1) 9 0.

Definition db_empty : Db := mkDb [] [] [] [] [] [] [].
Definition db_no_rules : Db := mkDb [full_measurement] [] [] [] [] [] [].
Definition db_thumb_only : Db :=
  mkDb [full_measurement] [] [thumb_only_rule] [] [] [] [].
Definition db_index_only : Db :=
  mkDb [measurement_without_index] [] [index_only_rule] [] [] [] [].
Definition db_all_rule : Db :=
  mkDb [full_measurement; measurement_without_index] []
       [rule_all_10_12] [] [mkSizeSet 7 "default" "Nines" 9 9 9 9 9] [] [].

(* ------------------------------------------------------------------ *)
(** ** Further vocabulary *)

(** The order of the fit labels from tight to wide. *)
Definition fit_rank (f : FitLabel) : Z :=
  match f with
  | snug => 0
  | standard => 1
  | loose => 2
  end.

(** The size of a matcher result, when there is one. *)
Definition result_size (c : Completion (Z * FitLabel)) : option Z :=
  match c with
  | Normal res => Some (fst res)
  | Throw _ => None
  end.


(** A configuration with a negative tolerance, which
    [PUT /v1/admin/rules/config] accepts. *)
Definition negative_tolerance_config : SizeRulesConfig :=
  mkConfig 2 "default" "size_up" (-1 # 10).


(* ------------------------------------------------------------------ *)
(** ** [POST /v1/admin/rules/preview], the whole route (admin.ts) *)

(** The parsed body: the JSON value [null], or a value of which
    [measurements] may be absent, and each of its keys may be absent or
    null. *)
Inductive PreviewBody :=
| PreviewNotJson
| PreviewNull
| PreviewJson (measurements_ : option (FingerName -> option Q)).

Inductive PreviewResponse :=
| PreviewError (status : Z) (error message : string)
| PreviewOk (recommended : list (FingerName * (Z * string)))
            (size_profile : string)
| PreviewThrows (e : JsError).

(** [body.measurements?.[f]] *)
Definition preview_measurement (ms : option (FingerName -> option Q))
  (f : FingerName) : option Q :=
  match ms with
  | Some m => m f
  | None => None
  end.

(** The route reads three tables and writes none; the result carries the
    trace of its queries. *)
Definition preview_post (body : PreviewBody) (d : Db)
  : PreviewResponse * list DbOp :=
  match body with
  | PreviewNotJson =>
      (PreviewError 400 "validation_error" "Request body must be JSON", [])
  | PreviewNull => (PreviewThrows TypeError, [])     (* null.measurements *)
  | PreviewJson ms =>
      let missing :=
        filter (fun f => match preview_measurement ms f with
                         | None => true
                         | Some _ => false
                         end) fingerNames in
      if (0 <? List.length missing)%nat then
        (PreviewError 400 "validation_error"
           ("Missing measurements for: "
            ++ String.concat ", " (map finger_str missing))%string, [])
      else
        let rules := select_rules d in
        let sizeRows := select_nailSizes d in
        let recommended :=
          map (fun finger_ =>
                 (* not null here: every key passed the check above *)
                 let widthMm := match preview_measurement ms finger_ with
                                | Some w => w
                                | None => 0%Q
                                end in
                 let size_ := preview_size widthMm finger_ rules in
                 (finger_, (size_, sizeLabel sizeRows size_)))
              fingerNames in
        (PreviewOk recommended
           (String.concat "-"
              (map (fun e => String_of_Z (fst (snd e))) recommended)),
         [Select TsizeRules; Select TsizeRulesConfig; Select TnailSizes])
  end.


(* ------------------------------------------------------------------ *)
(** ** JavaScript operators the routes below use *)

(** [l.includes(s)] *)
Definition includes (l : list string) (s : string) : bool :=
  existsb (String.eqb s) l.

(** The double quote character, for messages that quote a value. *)
Definition dquote : string :=
  String (Ascii.Ascii false true false false false true false false)
    EmptyString.

(** [a ?? b] *)
Definition nullish {A} (a : option A) (b : A) : A :=
  match a with
  | Some x => x
  | None => b
  end.

(* ------------------------------------------------------------------ *)
(** ** The rate limiter (middleware/rate-limit.ts) *)

Record RateLimitEntry := mkEntry {
  count : Z;
  resetAt : Z       (* milliseconds, as [Date.now()] *)
}.

(** The [Map] from bucket key to entry. *)
Definition Store := string -> option RateLimitEntry.

Definition store_set (store : Store) (key : string) (e : RateLimitEntry)
  : Store :=
  fun k => if String.eqb k key then Some e else store k.

Inductive LimiterResult :=
| Next (limit remaining : Z)    (* headers set, [next()] called *)
| TooMany (retryAfter : Z).     (* 429 with [Retry-After] *)

(** [Math.ceil(ms / 1000)] on an integer [ms]. *)
Definition ceil_seconds (ms : Z) : Z := - ((- ms) / 1000).

(** One request through [createRateLimiter(maxRequests, windowMs)], for the
    bucket [key] at time [now]. *)
Definition rateLimiter (maxRequests windowMs : Z) (key : string) (now : Z)
  (store : Store) : LimiterResult * Store :=
  let fresh :=
    (Next maxRequests (maxRequests - 1),
     store_set store key (mkEntry 1 (now + windowMs))) in
  match store key with
  | None => fresh
  | Some entry =>
      if now >? resetAt entry then fresh
      else if count entry >=? maxRequests then
        (TooMany (ceil_seconds (resetAt entry - now)), store)
      else
        (Next maxRequests (maxRequests - (count entry + 1)),
         store_set store key (mkEntry (count entry + 1) (resetAt entry)))
  end.

(** The periodic sweep: [if (now > entry.resetAt) store.delete(key)]. *)
Definition evict (now : Z) (store : Store) : Store :=
  fun k =>
    match store k with
    | Some e => if now >? resetAt e then None else Some e
    | None => None
    end.

(** Requests of one bucket, one after the other. *)
Fixpoint run_limiter (maxRequests windowMs : Z) (key : string)
  (times : list Z) (store : Store) : list LimiterResult * Store :=
  match times with
  | [] => ([], store)
  | now :: rest =>
      let '(res, store') := rateLimiter maxRequests windowMs key now store in
      let '(more, store'') := run_limiter maxRequests windowMs key rest store' in
      (res :: more, store'')
  end.

Definition passed (res : LimiterResult) : bool :=
  match res with
  | Next _ _ => true
  | TooMany _ => false
  end.

(** How many of the requests passed. *)
Definition passes (results : list LimiterResult) : Z :=
  Z.of_nat (List.length (filter passed results)).

(* ------------------------------------------------------------------ *)
(** ** Measurement ids (lib/id.ts) *)

(** [`msr_${generate()}`], [random] being the twelve characters nanoid
    draws. *)
Definition generateMeasurementId (random : string) : string :=
  ("msr_" ++ random)%string.


(* ------------------------------------------------------------------ *)
(** ** The global error handler (index.ts) *)

Definition internal_error_response : Response :=
  JsonError 500 "internal_error" "An unexpected error occurred".

(** [app.onError]: an exception that is not a [CVServiceError] is answered
    500; the recommend route throws no [CVServiceError]. *)
Definition app_recommend (body : ReqBody) (d : Db) : Response :=
  match fst (fst (run_recommend body d)) with
  | Normal r => r
  | Throw _ => internal_error_response
  end.

(** The finger loop reaches finger [n], which is measured, and no rule of
    the chart applies to it. *)
Definition unmatched_finger (m : Measurement) (rules : list SizeRule)
  (n : FingerName) : Prop :=
  exists before after,
    fingerNames = before ++ n :: after /\
    (forall x, In x before ->
       fingers m x <> None /\
       exists r, In r rules /\ is_relevant x r = true) /\
    fingers m n <> None /\
    (forall r, In r rules -> is_relevant n r = false).


(* ------------------------------------------------------------------ *)
(** ** [POST /v1/measure] (routes/measure.ts) and the CV client
       (lib/cv-client.ts) *)

(** What [formData.get] returns. *)
Inductive FormValue :=
| FormNull
| FormString (s : string)
| FormFile (size_ : Z) (type_ : string).

Record MeasureForm := mkMeasureForm {
  form_image : FormValue;
  form_hand : FormValue
}.

Record CVMeasureResponse := mkCVMeasure {
  cv_hand : string;
  cv_scale_px_per_mm : Q;
  cv_fingers : FingerName -> option FingerData;
  cv_overall_confidence : Q;
  cv_warnings : list string
}.

(** The HTTP exchange with the CV service as [cvMeasure] sees it: [fetch]
    rejects, or answers with a status and a body; the body of an error
    answer may not be JSON, it may be the JSON value [null], and its
    [error] and [message] may be absent. *)
Inductive CVExchange :=
| FetchFailed
| CVOk (result : CVMeasureResponse)
| CVOkNotJson
| CVNotOk (status : Z) (body : option (option string * option string))
| CVNotOkNull (status : Z).

(** [cvMeasure] returns the result, throws a [CVServiceError], or lets
    another error through: that of [res.json()] on a 2xx answer, or the
    [TypeError] of reading [body.error] when the body of an error answer is
    [null]. *)
Inductive CVOutcome :=
| CVResult (result : CVMeasureResponse)
| CVServiceError (status : Z) (code message : string)
| CVOtherError.

(** [cvMeasure] with [handleCVResponse]. *)
Definition cvMeasure (x : CVExchange) : CVOutcome :=
  match x with
  | FetchFailed => CVServiceError 503 "cv_unavailable" "CV service is unavailable"
  | CVOk result => CVResult result
  | CVOkNotJson => CVOtherError
  | CVNotOkNull _ => CVOtherError
  | CVNotOk status body =>
      let fields := nullish body (None, None) in
      CVServiceError status
        (nullish (fst fields) "cv_error")
        (nullish (snd fields)
           ("CV service returned " ++ String_of_Z status)%string)
  end.

Inductive MeasureResponse :=
| MeasureError (status : Z) (error message : string)
| MeasureOk (id hand : string) (scale_px_per_mm : Q)
            (fingers_ : FingerName -> option FingerData)
            (overall_confidence : Q) (warnings : list string)
| MeasureThrows.

(** [String(hand)] on a form value. *)
Definition String_of_form (v : FormValue) : string :=
  match v with
  | FormNull => "null"
  | FormString s => s
  | FormFile _ _ => "[object File]"
  end.

(** Truthiness of a form value. *)
Definition form_truthy (v : FormValue) : bool :=
  match v with
  | FormNull | FormString EmptyString => false
  | _ => true
  end.

(** [POST /v1/measure]: [form] is [None] when the body is not multipart
    form data, [id] is what [generateMeasurementId()] returns; the row keeps
    the columns the other routes read, and the answer leaves out
    [debug_image_url] (always null) and [created_at] (the clock).  The
    insert of an id that is already stored violates the primary key and
    throws. *)
Definition measure_post (form : option MeasureForm) (cv : CVExchange)
  (id : string) (d : Db) : MeasureResponse * Db :=
  match form with
  | None =>
      (MeasureError 400 "validation_error" "Invalid multipart form data", d)
  | Some f =>
      match form_image f with
      | FormNull | FormString _ =>
          (MeasureError 400 "validation_error" "image field is required", d)
      | FormFile size_ type_ =>
          if size_ >? 10 * 1024 * 1024 then
            (MeasureError 400 "validation_error" "Image must be under 10MB", d)
          else if negb (includes ["image/jpeg"; "image/png"] type_) then
            (MeasureError 400 "validation_error" "Image must be JPEG or PNG", d)
          else if form_truthy (form_hand f)
                  && negb (includes ["left"; "right"]
                             (String_of_form (form_hand f))) then
            (MeasureError 400 "validation_error"
               ("hand must be " ++ dquote ++ "left" ++ dquote ++ " or "
                ++ dquote ++ "right" ++ dquote)%string, d)
          else
            match cvMeasure cv with
            | CVServiceError status code message =>
                (MeasureError status code message, d)
            | CVOtherError => (MeasureThrows, d)      (* throw err *)
            | CVResult result =>
                match select_measurement id d with
                | _ :: _ => (MeasureThrows, d)
                | [] =>
                    (MeasureOk id (cv_hand result) (cv_scale_px_per_mm result)
                       (cv_fingers result) (cv_overall_confidence result)
                       (cv_warnings result),
                     with_measurements d
                       (measurements d
                        ++ [mkMeasurement id (cv_fingers result)]))
                end
            end
      end
  end.

(** The measure route answered 200. *)
Definition is_measured (r : MeasureResponse) : Prop :=
  exists id hand scale fs conf warn, r = MeasureOk id hand scale fs conf warn.


(** An upload that passes the validation of the measure route, and a CV
    answer that reports all five fingers. *)
Definition png_upload : MeasureForm :=
  mkMeasureForm (FormFile 2048 "image/png") (FormString "left").
Definition cv_five_fingers : CVMeasureResponse :=
  mkCVMeasure "left" (10 # 1) (fun _ => Some finger_11) (9 # 10) [].

(* ================================================================== *)
(** * Properties *)

Example scenario_A :
  applyRulesToFinger (11 # 1) index [rule_all_10_12] default_config
  = Normal (9, standard).
Proof. reflexivity. Qed.

Example scenario_B :
  applyRulesToFinger (11 # 1) thumb [rule_all_10_12; rule_thumb_105_115]
    default_config = Normal (5, standard).
Proof. reflexivity. Qed.

Example scenario_C :
  applyRulesToFinger (122 # 10) ring [rule_all_10_12] default_config
  = Normal (9, snug).
Proof. reflexivity. Qed.

(** Priority dominance and the tie-break do not depend on the order of the
    chart rules. *)
Example priority_dominance :
  applyRulesToFinger (11 # 1) thumb [rule_thumb_105_115; rule_all_10_12]
    default_config = Normal (5, standard).
Proof. reflexivity. Qed.

Example tie_break_specific_first :
  applyRulesToFinger (11 # 1) thumb
    [rule_all_10_12; mkRule 6 "default" "thumb" (10 # 1) (14 # 1) 4 0]
    default_config = Normal (4, snug) /\
  applyRulesToFinger (11 # 1) thumb
    [mkRule 6 "default" "thumb" (10 # 1) (14 # 1) 4 0; rule_all_10_12]
    default_config = Normal (4, snug).
Proof. split; reflexivity. Qed.

(** Scenario D, with a measurement that exists. *)
Example scenario_D :
  run_recommend (Json (Some "msr_1")) db_no_rules
  = (Normal no_rules_response, db_no_rules,
     [Select Tmeasurements; Select TsizeRules]).
Proof. reflexivity. Qed.

Example scenario_E :
  matchingSets
    (perFinger_of (mkFingerResult 3 "3" (17 # 1) snug)
       (mkFingerResult 5 "5" (15 # 1) standard)
       (mkFingerResult 4 "4" (16 # 1) standard)
       (mkFingerResult 6 "6" (14 # 1) snug)
       (mkFingerResult 8 "8" (12 # 1) standard))
    [mkSizeSet 2 "default" "Small Set" 3 5 4 6 9;
     mkSizeSet 1 "default" "Medium Set" 3 5 4 6 8;
     mkSizeSet 3 "default" "Large Set" 0 1 2 3 4]
  = Normal [mkMatchingSet "Medium Set" "set_1" true 0 1;
            mkMatchingSet "Small Set" "set_2" false 1 2].
Proof. reflexivity. Qed.

Example successful_run :
  run_recommend (Json (Some "msr_1")) db_all_rule
  = (Normal
       (JsonOk "msr_1" "9-9-9-9-9"
          (perFinger_of (mkFingerResult 9 "9" (11 # 1) standard)
             (mkFingerResult 9 "9" (11 # 1) standard)
             (mkFingerResult 9 "9" (11 # 1) standard)
             (mkFingerResult 9 "9" (11 # 1) standard)
             (mkFingerResult 9 "9" (11 # 1) standard))
          [("Nines", "set_7", true, 0)]),
     with_recommendations db_all_rule
       [mkRecommendation "msr_1" "default" "9-9-9-9-9"
          [(thumb, (9, "9", standard)); (index, (9, "9", standard));
           (middle, (9, "9", standard)); (ring, (9, "9", standard));
           (pinky, (9, "9", standard))]
          (Some 7)],
     recommend_trace).
Proof. reflexivity. Qed.

(** The JSON value [null] as body: reading [measurement_id] of it throws
    before any query is made. *)
Example null_body_throws :
  run_recommend JsonNull db_all_rule = (Throw TypeError, db_all_rule, []).
Proof. reflexivity. Qed.

Example missing_index_reported :
  run_recommend (Json (Some "msr_2")) db_all_rule
  = (Normal (missing_finger_response index), db_all_rule, four_reads).
Proof. reflexivity. Qed.

(* ------------------------------------------------------------------ *)
(** ** Facts about [array_sort] *)

Section ArraySortFacts.
Context {A : Type}.
Variables (cmp : A -> A -> Z) (key : A -> Z) (R : A -> Prop).

(** The comparator orders the elements in [R] by an integer key. *)
Hypothesis cmp_key :
  forall x y, R x -> R y -> (cmp x y <? 0) = (key x <? key y).

Lemma array_sort_snoc (l : list A) (x : A) :
  array_sort cmp (l ++ [x]) = sort_insert cmp x (array_sort cmp l).
Proof. unfold array_sort. now rewrite fold_left_app. Qed.

Lemma sort_insert_Forall (P : A -> Prop) x pre :
  P x -> Forall P pre -> Forall P (sort_insert cmp x pre).
Proof.
  intros Hx Hpre. induction Hpre as [|y pre' Hy Hpre' IH]; simpl.
  - now constructor.
  - destruct (cmp x y <? 0); repeat constructor; assumption.
Qed.

Lemma array_sort_Forall (P : A -> Prop) l :
  Forall P l -> Forall P (array_sort cmp l).
Proof.
  induction l as [|x l IH] using rev_ind; intros H.
  - constructor.
  - rewrite array_sort_snoc. apply Forall_app in H as [Hl Hx].
    apply sort_insert_Forall; [now inversion Hx | auto].
Qed.

Lemma sort_insert_perm x pre : Permutation (sort_insert cmp x pre) (x :: pre).
Proof.
  induction pre as [|y pre' IH]; simpl; [reflexivity|].
  destruct (cmp x y <? 0); [reflexivity|].
  rewrite IH. apply perm_swap.
Qed.

Lemma array_sort_perm l : Permutation (array_sort cmp l) l.
Proof.
  induction l as [|x l IH] using rev_ind; [reflexivity|].
  rewrite array_sort_snoc, sort_insert_perm, IH.
  apply Permutation_cons_append.
Qed.

Lemma sort_insert_sorted x pre :
  R x -> Forall R pre -> key_sorted key pre -> key_sorted key (sort_insert cmp x pre).
Proof.
  intros Rx HR Hs. induction Hs as [|y pre' Hs IH Hy]; simpl.
  - repeat constructor.
  - inversion HR as [|? ? Ry HR']; subst.
    rewrite (cmp_key x y Rx Ry).
    destruct (Z.ltb_spec (key x) (key y)) as [Hlt|Hge].
    + constructor; [now constructor|].
      constructor; [lia|].
      eapply Forall_impl; [|exact Hy]. simpl. intros; lia.
    + constructor; [now apply IH|].
      apply sort_insert_Forall; [lia | assumption].
Qed.

Lemma array_sort_sorted l : Forall R l -> key_sorted key (array_sort cmp l).
Proof.
  induction l as [|x l IH] using rev_ind; intros H.
  - constructor.
  - rewrite array_sort_snoc. apply Forall_app in H as [Hl Hx].
    apply sort_insert_sorted;
      [now inversion Hx | now apply array_sort_Forall | auto].
Qed.

(** Stability: elements of one key keep their relative order. *)
Lemma sort_insert_same_key d x pre :
  R x -> Forall R pre -> key_sorted key pre ->
  filter (fun a => key a =? d) (sort_insert cmp x pre)
  = filter (fun a => key a =? d) pre ++ (if key x =? d then [x] else []).
Proof.
  intros Rx HR Hs. induction Hs as [|y pre' Hs IH Hy]; simpl.
  - reflexivity.
  - inversion HR as [|? ? Ry HR']; subst.
    rewrite (cmp_key x y Rx Ry).
    destruct (Z.ltb_spec (key x) (key y)) as [Hlt|Hge].
    + simpl. destruct (Z.eqb_spec (key x) d) as [Hd|Hd].
      * assert (Hnil : filter (fun a => key a =? d) pre' = []).
        { clear - Hy Hlt Hd. induction Hy as [|z l Hz Hy IH]; simpl; auto.
          destruct (Z.eqb_spec (key z) d); [lia | auto]. }
        destruct (Z.eqb_spec (key y) d); [lia|].
        now rewrite Hnil.
      * now rewrite app_nil_r.
    + simpl. destruct (key y =? d); simpl; now rewrite IH.
Qed.

Lemma array_sort_stable d l :
  Forall R l ->
  filter (fun a => key a =? d) (array_sort cmp l)
  = filter (fun a => key a =? d) l.
Proof.
  induction l as [|x l IH] using rev_ind; intros H; [reflexivity|].
  apply Forall_app in H as [Hl Hx]. inversion Hx; subst.
  rewrite array_sort_snoc, sort_insert_same_key, IH, filter_app;
    auto using array_sort_Forall, array_sort_sorted.
Qed.

(** The first element of the sorted array that satisfies a test. *)
Section FirstBest.
Variable P : A -> bool.

Lemma find_sort_insert x pre :
  R x -> Forall R pre -> key_sorted key pre ->
  find P (sort_insert cmp x pre) = best_step key P (find P pre) x.
Proof.
  intros Rx HR Hs. unfold best_step.
  induction Hs as [|y pre' Hs IH Hy]; simpl.
  - now destruct (P x).
  - inversion HR as [|? ? Ry HR']; subst.
    rewrite (cmp_key x y Rx Ry).
    destruct (Z.ltb_spec (key x) (key y)) as [Hlt|Hge]; simpl.
    + destruct (P x); [|reflexivity].
      destruct (P y).
      * now rewrite (proj2 (Z.ltb_lt _ _) Hlt).
      * destruct (find P pre') as [b|] eqn:Hb; [|reflexivity].
        apply find_some in Hb as [Hin _].
        rewrite Forall_forall in Hy. specialize (Hy b Hin).
        now rewrite (proj2 (Z.ltb_lt (key x) (key b))) by lia.
    + destruct (P y).
      * destruct (P x); [|reflexivity].
        now rewrite (proj2 (Z.ltb_ge (key x) (key y))) by lia.
      * now apply IH.
Qed.

Lemma find_array_sort l :
  Forall R l -> find P (array_sort cmp l) = first_best key P l.
Proof.
  induction l as [|x l IH] using rev_ind; intros H; [reflexivity|].
  apply Forall_app in H as [Hl Hx]. inversion Hx; subst.
  rewrite array_sort_snoc, find_sort_insert, IH;
    auto using array_sort_Forall, array_sort_sorted.
  unfold first_best. now rewrite fold_left_app.
Qed.
End FirstBest.
End ArraySortFacts.

Section FirstBestFacts.
Context {A : Type}.
Variables (key : A -> Z) (P : A -> bool).

Lemma best_step_skip l best :
  (forall x, In x l -> P x = false) ->
  fold_left (best_step key P) l best = best.
Proof.
  revert best. induction l as [|y l IH]; intros best H; simpl; auto.
  unfold best_step at 2. rewrite (H y) by now left.
  apply IH. intros; apply H; now right.
Qed.

(** [first_best] returns the earliest element of least key among those
    that pass the test. *)
Lemma first_best_split l :
  (exists x, In x l /\ P x = true) ->
  exists pre r post,
    l = pre ++ r :: post /\ P r = true /\
    (forall x, In x pre -> P x = true -> key r < key x) /\
    (forall x, In x post -> P x = true -> key r <= key x) /\
    first_best key P l = Some r.
Proof.
  induction l as [|y l IH] using rev_ind; intros [x [Hin HP]].
  - contradiction.
  - unfold first_best in *. rewrite fold_left_app. simpl.
    destruct (existsb P l) eqn:Hex.
    + apply existsb_exists in Hex.
      destruct (IH Hex) as (pre & r & post & -> & Pr & Hpre & Hpost & Hbest).
      rewrite Hbest. unfold best_step.
      destruct (P y) eqn:Py.
      * destruct (Z.ltb_spec (key y) (key r)) as [Hlt|Hge].
        -- exists (pre ++ r :: post), y, []. repeat split; auto.
           ++ intros z Hz Pz. apply in_app_or in Hz as [Hz|[<-|Hz]].
              ** specialize (Hpre z Hz Pz). lia.
              ** assumption.
              ** specialize (Hpost z Hz Pz). lia.
           ++ intros z [].
        -- exists pre, r, (post ++ [y]). repeat split; auto.
           ++ now rewrite <- app_assoc.
           ++ intros z Hz Pz. apply in_app_or in Hz as [Hz|[<-|[]]]; auto.
      * exists pre, r, (post ++ [y]). repeat split; auto.
        -- now rewrite <- app_assoc.
        -- intros z Hz Pz. apply in_app_or in Hz as [Hz|[<-|[]]]; auto.
           congruence.
    + assert (Hnone : forall z, In z l -> P z = false).
      { intros z Hz. destruct (P z) eqn:Pz; auto.
        assert (existsb P l = true) by (apply existsb_exists; eauto).
        congruence. }
      rewrite (best_step_skip l None Hnone).
      apply in_app_or in Hin as [Hin|[<-|[]]].
      * rewrite (Hnone x Hin) in HP. discriminate.
      * unfold best_step. rewrite HP.
        exists l, y, []. repeat split; auto.
        -- intros z Hz Pz. rewrite (Hnone z Hz) in Pz. discriminate.
        -- intros z [].
Qed.

Lemma first_best_filter (F : A -> bool) l best :
  fold_left (best_step key P) (filter F l) best
  = fold_left (best_step key (fun x => F x && P x)) l best.
Proof.
  revert best. induction l as [|y l IH]; intros best; simpl; auto.
  destruct (F y) eqn:Fy; simpl.
  - rewrite IH. f_equal. unfold best_step. now rewrite Fy.
  - rewrite IH. f_equal. unfold best_step. now rewrite Fy.
Qed.
End FirstBestFacts.

Section ArraySortExt.
Context {A : Type}.
Variables (cmp cmp' : A -> A -> Z) (R : A -> Prop).

(** Two comparators that are negative on the same pairs sort alike. *)
Hypothesis same_sign :
  forall x y, R x -> R y -> (cmp x y <? 0) = (cmp' x y <? 0).

Lemma sort_insert_ext x pre :
  R x -> Forall R pre -> sort_insert cmp x pre = sort_insert cmp' x pre.
Proof.
  intros Rx HR. induction HR as [|y pre' Ry HR IH]; simpl; auto.
  now rewrite (same_sign x y Rx Ry), IH.
Qed.

Lemma array_sort_ext l :
  Forall R l -> array_sort cmp l = array_sort cmp' l.
Proof.
  induction l as [|x l IH] using rev_ind; intros H; [reflexivity|].
  apply Forall_app in H as [Hl Hx]. inversion Hx; subst.
  rewrite !array_sort_snoc, <- IH by assumption.
  apply sort_insert_ext; auto using array_sort_Forall.
Qed.
End ArraySortExt.

(* ------------------------------------------------------------------ *)
(** ** Comparisons on widths *)

Lemma Qltb_lt (x y : Q) : Qltb x y = true <-> (x < y)%Q.
Proof.
  unfold Qltb. rewrite negb_true_iff. split; intros H.
  - apply Qnot_le_lt. intros Hle. apply Qle_bool_iff in Hle. congruence.
  - destruct (Qle_bool y x) eqn:E; auto.
    apply Qle_bool_iff in E. exfalso. exact (Qlt_not_le _ _ H E).
Qed.

Lemma Qltb_ge (x y : Q) : Qltb x y = false <-> (y <= x)%Q.
Proof.
  unfold Qltb. rewrite negb_false_iff. apply Qle_bool_iff.
Qed.

Lemma Qle_bool_gt (x y : Q) : Qle_bool x y = false <-> (y < x)%Q.
Proof.
  rewrite <- Qltb_lt. unfold Qltb. now rewrite negb_true_iff.
Qed.

Lemma in_range_iff (w : Q) (r : SizeRule) :
  in_range w r = true <-> (minWidthMm r <= w)%Q /\ (w <= maxWidthMm r)%Q.
Proof.
  unfold in_range. now rewrite andb_true_iff, !Qle_bool_iff.
Qed.

Lemma Math_min_cases (x y : Q) : Math_min x y = x \/ Math_min x y = y.
Proof. unfold Math_min. destruct (Qle_bool x y); auto. Qed.

Lemma boundary_diff_nonneg (w : Q) (r : SizeRule) : (0 <= boundary_diff w r)%Q.
Proof.
  unfold boundary_diff, Math_abs.
  destruct (Math_min_cases (Qabs (w - minWidthMm r)) (Qabs (w - maxWidthMm r)))
    as [-> | ->]; apply Qabs_nonneg.
Qed.

(* ------------------------------------------------------------------ *)
(** ** The order of [relevant] *)

Lemma finger_str_not_all (f : FingerName) :
  String.eqb (finger_str f) "all" = false.
Proof. now destruct f. Qed.

Lemma is_relevant_cases (f : FingerName) (r : SizeRule) :
  is_relevant f r = true ->
  (finger r = "all" /\ String.eqb (finger r) (finger_str f) = false) \/
  (finger r = finger_str f /\ String.eqb (finger r) "all" = false).
Proof.
  unfold is_relevant. intros H. apply orb_true_iff in H as [H|H];
    apply String.eqb_eq in H; rewrite H.
  - left. split; auto. destruct f; reflexivity.
  - right. split; auto. apply finger_str_not_all.
Qed.

Lemma all_not_finger_str (f : FingerName) :
  String.eqb "all" (finger_str f) = false.
Proof. now destruct f. Qed.

(** Rewrites the [finger] of a relevant rule into its two possible values. *)
Ltac rule_cases f r H :=
  let E1 := fresh "E" in let E2 := fresh "E" in
  destruct (is_relevant_cases f r H) as [[E1 E2]|[E1 E2]];
  rewrite ?E1;
  rewrite ?String.eqb_refl, ?finger_str_not_all, ?all_not_finger_str.

Ltac ltb_lia :=
  repeat match goal with
         | |- context [?a <? ?b] => destruct (Z.ltb_spec a b)
         end;
  try reflexivity; try lia.

Lemma compareRules_key (f : FingerName) (x y : SizeRule) :
  is_relevant f x = true -> is_relevant f y = true ->
  (compareRules f x y <? 0) = (rule_key x <? rule_key y).
Proof.
  intros Hx Hy. unfold compareRules, rule_key.
  rule_cases f x Hx; rule_cases f y Hy;
    destruct (Z.eqb_spec (priority y) (priority x)) as [Hp|Hp];
    cbn [negb andb]; ltb_lia.
Qed.

Lemma comparePreview_sign (f : FingerName) (x y : SizeRule) :
  is_relevant f x = true -> is_relevant f y = true ->
  (compareRules f x y <? 0) = (comparePreview f x y <? 0).
Proof.
  intros Hx Hy. unfold compareRules, comparePreview.
  destruct (negb (priority y =? priority x)); [reflexivity|].
  destruct (String.eqb (finger x) (finger_str f) && String.eqb (finger y) "all");
    [reflexivity|].
  now destruct (String.eqb (finger x) "all" && String.eqb (finger y) (finger_str f)).
Qed.

Lemma outranks_key (f : FingerName) (a b : SizeRule) :
  is_relevant f a = true -> is_relevant f b = true ->
  (outranks f a b <-> rule_key a < rule_key b).
Proof.
  intros Ha Hb. unfold outranks, rule_key.
  rule_cases f a Ha; rule_cases f b Hb; split.
  all: try (intros [H|(H1 & H2 & H3)]; try lia;
            try (destruct f; discriminate)).
  all: intros H;
    destruct (Z.eq_dec (priority a) (priority b)) as [Hp|Hp];
    try lia; try (left; lia).
  right. auto.
Qed.

Lemma relevant_Forall (f : FingerName) (rules : list SizeRule) :
  Forall (fun r => is_relevant f r = true) (filter (is_relevant f) rules).
Proof. apply Forall_forall. intros r H. now apply filter_In in H. Qed.

Lemma sorted_relevant_In (f : FingerName) (rules : list SizeRule) (r : SizeRule) :
  In r (sorted_relevant f rules) <-> In r rules /\ is_relevant f r = true.
Proof.
  unfold sorted_relevant. rewrite <- filter_In. split; intros H.
  - eapply Permutation_in; [apply array_sort_perm | exact H].
  - eapply Permutation_in; [symmetry; apply array_sort_perm | exact H].
Qed.

Lemma exact_match_find (w : Q) (l : list SizeRule) :
  exact_match w l
  = option_map (fun r => (mappedSize r, exact_fit w r)) (find (in_range w) l).
Proof.
  induction l as [|r l IH]; simpl; auto. now destruct (in_range w r).
Qed.

(** The first rule of [relevant] that satisfies a test is the best rule of
    the unsorted chart rules. *)
Lemma find_sorted_relevant (P : SizeRule -> bool) f rules :
  find P (sorted_relevant f rules)
  = first_best rule_key (fun x => is_relevant f x && P x) rules.
Proof.
  unfold sorted_relevant.
  rewrite (find_array_sort (compareRules f) rule_key
             (fun r => is_relevant f r = true) (compareRules_key f) P)
    by apply relevant_Forall.
  unfold first_best. apply first_best_filter.
Qed.

(* ------------------------------------------------------------------ *)
(** ** The two nearest-boundary loops *)

Section NearestLoops.
Variables (w tol : Q).
Local Abbreviation d := (boundary_diff w).

Lemma nearest_skip l st :
  (forall x, In x l -> (tol < d x)%Q) ->
  fold_left (nearest_step w tol) l st = st.
Proof.
  revert st. induction l as [|y l IH]; intros st H; simpl; auto.
  unfold nearest_step at 2.
  rewrite (proj2 (Qle_bool_gt _ _) (H y (or_introl eq_refl))). simpl.
  apply IH. intros; apply H; now right.
Qed.

(** The second loop selects the earliest rule of least distance, provided
    that distance is within the tolerance. *)
Lemma nearest_split l :
  (exists x, In x l /\ (d x <= tol)%Q) ->
  exists pre r post,
    l = pre ++ r :: post /\ (d r <= tol)%Q /\
    (forall x, In x pre -> (d r < d x)%Q) /\
    (forall x, In x post -> (d r <= d x)%Q) /\
    fold_left (nearest_step w tol) l (None, None) = (Some r, Some (d r)).
Proof.
  induction l as [|y l IH] using rev_ind; intros [x [Hin Hx]].
  - contradiction.
  - rewrite fold_left_app. simpl.
    destruct (existsb (fun x => Qle_bool (d x) tol) l) eqn:Hex.
    + apply existsb_exists in Hex as [x' [Hin' Hx']].
      apply Qle_bool_iff in Hx'.
      destruct (IH (ex_intro _ x' (conj Hin' Hx')))
        as (pre & r & post & -> & Hr & Hpre & Hpost & Hfold).
      rewrite Hfold. unfold nearest_step. simpl.
      destruct (Qle_bool (d y) tol && Qltb (d y) (d r)) eqn:Hc.
      * apply andb_true_iff in Hc as [Hc1 Hc2].
        apply Qle_bool_iff in Hc1. apply Qltb_lt in Hc2.
        exists (pre ++ r :: post), y, []. repeat split; auto.
        -- intros z Hz. apply in_app_or in Hz as [Hz|[<-|Hz]]; auto.
           ++ specialize (Hpre z Hz). lra.
           ++ specialize (Hpost z Hz). lra.
        -- intros z [].
      * exists pre, r, (post ++ [y]). repeat split; auto.
        -- now rewrite <- app_assoc.
        -- intros z Hz. apply in_app_or in Hz as [Hz|[<-|[]]]; auto.
           apply andb_false_iff in Hc as [Hc|Hc].
           ++ apply Qle_bool_gt in Hc. lra.
           ++ now apply Qltb_ge in Hc.
    + assert (Hfar : forall z, In z l -> (tol < d z)%Q).
      { intros z Hz. apply Qle_bool_gt.
        destruct (Qle_bool (d z) tol) eqn:E; auto.
        assert (existsb (fun x => Qle_bool (d x) tol) l = true)
          by (apply existsb_exists; eauto).
        congruence. }
      rewrite (nearest_skip l _ Hfar).
      apply in_app_or in Hin as [Hin|[<-|[]]].
      * specialize (Hfar x Hin). lra.
      * unfold nearest_step. simpl.
        rewrite (proj2 (Qle_bool_iff _ _) Hx). simpl.
        exists l, y, []. repeat split; auto.
        -- intros z Hz. specialize (Hfar z Hz). lra.
        -- intros z [].
Qed.

(** The third loop selects the earliest rule of least distance, whatever
    [closestRule] started as. *)
Lemma closest_split l init :
  l <> [] ->
  exists pre r post,
    l = pre ++ r :: post /\
    (forall x, In x pre -> (d r < d x)%Q) /\
    (forall x, In x post -> (d r <= d x)%Q) /\
    fold_left (closest_step w) l (init, None) = (Some r, Some (d r)).
Proof.
  induction l as [|y l IH] using rev_ind; intros Hne.
  - contradiction.
  - rewrite fold_left_app. simpl. destruct l as [|z l'].
    + simpl. exists [], y, []. repeat split; auto; intros ? [].
    + destruct IH as (pre & r & post & Hl & Hpre & Hpost & Hfold);
        [discriminate|].
      rewrite Hfold, Hl. unfold closest_step. simpl.
      destruct (Qltb (d y) (d r)) eqn:Hc.
      * apply Qltb_lt in Hc.
        exists (pre ++ r :: post), y, []. repeat split; auto.
        -- intros x Hx. apply in_app_or in Hx as [Hx|[<-|Hx]]; auto.
           ++ specialize (Hpre x Hx). lra.
           ++ specialize (Hpost x Hx). lra.
        -- intros x [].
      * apply Qltb_ge in Hc.
        exists pre, r, (post ++ [y]). repeat split; auto.
        -- now rewrite <- app_assoc.
        -- intros x Hx. apply in_app_or in Hx as [Hx|[<-|[]]]; auto.
Qed.
End NearestLoops.

Lemma exact_match_none (w : Q) (l : list SizeRule) :
  (forall x, In x l -> in_range w x = false) <-> exact_match w l = None.
Proof.
  induction l as [|r l IH]; simpl.
  - split; auto. intros _ x [].
  - split.
    + intros H. rewrite (H r) by now left. apply IH. intros; apply H; now right.
    + destruct (in_range w r) eqn:E; [discriminate|].
      intros H x [<-|Hx]; auto. now apply IH.
Qed.

Lemma sorted_relevant_nonempty (f : FingerName) (rules : list SizeRule) :
  (exists r, In r rules /\ is_relevant f r = true) ->
  sorted_relevant f rules <> [].
Proof.
  intros (r & Hin & Hrel) E.
  assert (H : In r (sorted_relevant f rules)) by now apply sorted_relevant_In.
  now rewrite E in H.
Qed.

(** The matcher returns a result whenever some rule applies to the finger. *)
Lemma applyRulesToFinger_total (w : Q) (f : FingerName)
  (rules : list SizeRule) (cfg : SizeRulesConfig) :
  (exists r, In r rules /\ is_relevant f r = true) ->
  exists res, applyRulesToFinger w f rules cfg = Normal res.
Proof.
  intros H. apply sorted_relevant_nonempty in H.
  unfold applyRulesToFinger.
  destruct (exact_match w (sorted_relevant f rules)); [eauto|].
  destruct (nearest_within_tolerance w (toleranceMm cfg) (sorted_relevant f rules));
    [eauto|].
  destruct (closest_split w (sorted_relevant f rules)
              (hd_error (sorted_relevant f rules)) H)
    as (pre & r & post & _ & _ & _ & Hfold).
  unfold closest_rule. rewrite Hfold. simpl. eauto.
Qed.

Lemma Qabs_zero (q : Q) : (Qabs q == 0)%Q -> (q == 0)%Q.
Proof. apply Qabs_case; intros; lra. Qed.

Lemma zero_diff_on_boundary (w : Q) (r : SizeRule) :
  (boundary_diff w r == 0)%Q -> (w == minWidthMm r)%Q \/ (w == maxWidthMm r)%Q.
Proof.
  unfold boundary_diff, Math_abs.
  destruct (Math_min_cases (Qabs (w - minWidthMm r)) (Qabs (w - maxWidthMm r)))
    as [-> | ->]; intros H; apply Qabs_zero in H; [left | right]; lra.
Qed.

(** C10 (as amended): for rules whose range is not inverted
    ([minWidthMm <= maxWidthMm]), a boundary distance of zero puts the width
    inside the inclusive range, so the first loop already returns; with
    [config.toleranceMm = 0] the second loop then selects no rule, and every
    match that is not exact is resolved by the last loop with fit
    [standard]. *)
Theorem zero_distance_is_exact (w : Q) (f : FingerName)
  (rules : list SizeRule) (cfg : SizeRulesConfig) :
  (forall x, In x rules -> is_relevant f x = true ->
             (minWidthMm x <= maxWidthMm x)%Q) ->
  (forall x, In x rules -> is_relevant f x = true ->
             (boundary_diff w x == 0)%Q ->
             in_range w x = true /\
             exists res, exact_match w (sorted_relevant f rules) = Some res /\
                         applyRulesToFinger w f rules cfg = Normal res) /\
  ((toleranceMm cfg == 0)%Q ->
   exact_match w (sorted_relevant f rules) = None ->
   nearest_within_tolerance w (toleranceMm cfg) (sorted_relevant f rules) = None /\
   ((exists r0, In r0 rules /\ is_relevant f r0 = true) ->
    exists r, In r rules /\ is_relevant f r = true /\
              applyRulesToFinger w f rules cfg = Normal (mappedSize r, standard))).
Proof.
  intros Hwf.
  assert (Hin : forall x, In x rules -> is_relevant f x = true ->
                          (boundary_diff w x == 0)%Q -> in_range w x = true).
  { intros x Hx Hrel H0. specialize (Hwf x Hx Hrel).
    apply in_range_iff.
    destruct (zero_diff_on_boundary w x H0); split; lra. }
  split.
  - intros x Hx Hrel H0. split; [auto|].
    destruct (exact_match w (sorted_relevant f rules)) as [res|] eqn:E.
    + exists res. split; auto. unfold applyRulesToFinger. now rewrite E.
    + exfalso. apply exact_match_none with (x := x) in E;
        [|now apply sorted_relevant_In].
      rewrite (Hin x Hx Hrel H0) in E. discriminate.
  - intros Htol Hnone.
    assert (Hfar : forall x, In x (sorted_relevant f rules) ->
                             (toleranceMm cfg < boundary_diff w x)%Q).
    { intros x Hx.
      pose proof (proj2 (exact_match_none w _) Hnone x Hx) as Hout.
      apply sorted_relevant_In in Hx as [Hx Hrel].
      pose proof (boundary_diff_nonneg w x) as Hge.
      destruct (Qeq_dec (boundary_diff w x) 0) as [H0|H0].
      - rewrite (Hin x Hx Hrel H0) in Hout. discriminate.
      - rewrite Htol. apply Qle_lteq in Hge as [Hlt|Heq]; auto.
        exfalso. apply H0. now symmetry. }
    assert (Hnear : nearest_within_tolerance w (toleranceMm cfg)
                      (sorted_relevant f rules) = None).
    { unfold nearest_within_tolerance. now rewrite nearest_skip. }
    split; [exact Hnear|].
    intros Hne.
    destruct (closest_split w (sorted_relevant f rules)
                (hd_error (sorted_relevant f rules))
                (sorted_relevant_nonempty f rules Hne))
      as (pre & r & post & Hsplit & _ & _ & Hfold).
    exists r.
    assert (Hr : In r (sorted_relevant f rules))
      by (rewrite Hsplit; apply in_or_app; right; now left).
    apply sorted_relevant_In in Hr as [Hr1 Hr2].
    repeat split; auto.
    unfold applyRulesToFinger. rewrite Hnone, Hnear.
    unfold closest_rule. now rewrite Hfold.
Qed.

Lemma zero_distance_is_exact_witness :
  (forall x, In x [rule_all_10_12] -> is_relevant thumb x = true ->
             (boundary_diff (12 # 1) x == 0)%Q ->
             in_range (12 # 1) x = true /\
             exists res,
               exact_match (12 # 1) (sorted_relevant thumb [rule_all_10_12])
               = Some res /\
               applyRulesToFinger (12 # 1) thumb [rule_all_10_12]
                 zero_tolerance_config = Normal res) /\
  ((toleranceMm zero_tolerance_config == 0)%Q ->
   exact_match (12 # 1) (sorted_relevant thumb [rule_all_10_12]) = None ->
   nearest_within_tolerance (12 # 1) (toleranceMm zero_tolerance_config)
     (sorted_relevant thumb [rule_all_10_12]) = None /\
   ((exists r0, In r0 [rule_all_10_12] /\ is_relevant thumb r0 = true) ->
    exists r, In r [rule_all_10_12] /\ is_relevant thumb r = true /\
              applyRulesToFinger (12 # 1) thumb [rule_all_10_12]
                zero_tolerance_config = Normal (mappedSize r, standard))).
Proof.
  apply (zero_distance_is_exact (12 # 1) thumb [rule_all_10_12]
           zero_tolerance_config).
  intros x [<-|[]] _. vm_compute. discriminate.
Defined.

(** C10 (as stated) fails on a rule with an inverted range: width 12 is at
    distance zero from the boundary [minWidthMm = 12] of [inverted_rule],
    the range 12..10 does not contain it, and with tolerance zero the second
    loop selects the rule and the matcher answers with the policy fit. *)
Lemma zero_distance_outside_inverted_range :
  In inverted_rule (sorted_relevant thumb [inverted_rule]) /\
  (boundary_diff (12 # 1) inverted_rule == 0)%Q /\
  in_range (12 # 1) inverted_rule = false /\
  (toleranceMm zero_tolerance_config == 0)%Q /\
  exact_match (12 # 1) (sorted_relevant thumb [inverted_rule]) = None /\
  nearest_within_tolerance (12 # 1) (toleranceMm zero_tolerance_config)
    (sorted_relevant thumb [inverted_rule]) = Some inverted_rule /\
  applyRulesToFinger (12 # 1) thumb [inverted_rule] zero_tolerance_config
  = Normal (9, snug).
Proof.
  repeat split; try reflexivity. now left.
Qed.

(* ------------------------------------------------------------------ *)
(** ** The matcher in double precision: the order of doubles *)

Lemma SFcompare_antisym (x y : Double.double) :
  SFcompare y x = option_map CompOpp (SFcompare x y).
Proof.
  destruct x as [sx|sx| |sx mx ex], y as [sy|sy| |sy my ey]; simpl;
    try destruct sx; try destruct sy; try reflexivity;
    rewrite (Z.compare_antisym ex ey);
    destruct (ex ?= ey); simpl; try reflexivity;
    change (Pos.compare_cont Eq my mx) with (Pos.compare my mx);
    change (Pos.compare_cont Eq mx my) with (Pos.compare mx my);
    rewrite (Pos.compare_antisym mx my);
    now destruct (mx ?= my)%positive.
Qed.

Lemma SFcompare_trans (x y z : Double.double) :
  Double.le x y -> Double.le y z ->
  Double.le x z /\
  (Double.lt x y \/ Double.lt y z -> Double.lt x z).
Proof.
  unfold Double.le, Double.lt.
  destruct x as [sx|sx| |sx mx ex], y as [sy|sy| |sy my ey],
    z as [sz|sz| |sz mz ez]; simpl;
    try destruct sx; try destruct sy; try destruct sz;
    try (intuition congruence).
  all: change (Pos.compare_cont Eq) with Pos.compare.
  all: destruct (Z.compare_spec ex ey); destruct (Z.compare_spec ey ez);
    destruct (Z.compare_spec ex ez); try lia; try (intuition congruence).
  all: destruct (Pos.compare_spec mx my); destruct (Pos.compare_spec my mz);
    destruct (Pos.compare_spec mx mz); simpl; try lia;
    try (intuition congruence).
Qed.

Lemma SFcompare_refl (x : Double.double) :
  x <> S754_nan -> SFcompare x x = Some Eq.
Proof.
  destruct x as [s|s| |s m e]; simpl; try destruct s; try reflexivity;
    try congruence; intros _; rewrite Z.compare_refl;
    change (Pos.compare_cont Eq m m) with (Pos.compare m m);
    now rewrite Pos.compare_refl.
Qed.

Lemma SFcompare_None (x y : Double.double) :
  SFcompare x y = None <-> x = S754_nan \/ y = S754_nan.
Proof.
  destruct x as [sx|sx| |sx mx ex], y as [sy|sy| |sy my ey]; simpl;
    split; intros H; try discriminate; auto;
    destruct H as [H|H]; discriminate.
Qed.

Lemma dbl_ltb_lt (x y : Double.double) :
  Double.ltb x y = true <-> Double.lt x y.
Proof.
  unfold Double.ltb, SFltb, Double.lt.
  destruct (SFcompare x y) as [[]|]; split; congruence.
Qed.

Lemma dbl_leb_le (x y : Double.double) :
  Double.leb x y = true <-> Double.le x y.
Proof.
  unfold Double.leb, SFleb, Double.le.
  destruct (SFcompare x y) as [[]|]; split; intuition congruence.
Qed.

Lemma dbl_geb_le (x y : Double.double) :
  Double.geb x y = true <-> Double.le y x.
Proof.
  unfold Double.geb, Double.le. rewrite (SFcompare_antisym x y).
  destruct (SFcompare x y) as [[]|]; simpl; split; intuition congruence.
Qed.

Lemma dbl_gtb_lt (x y : Double.double) :
  Double.gtb x y = true <-> Double.lt y x.
Proof.
  unfold Double.gtb, Double.lt. rewrite (SFcompare_antisym x y).
  destruct (SFcompare x y) as [[]|]; simpl; split; congruence.
Qed.

Lemma dbl_le_trans (x y z : Double.double) :
  Double.le x y -> Double.le y z -> Double.le x z.
Proof. intros H1 H2. now apply (SFcompare_trans x y z). Qed.

Lemma dbl_lt_le (x y : Double.double) : Double.lt x y -> Double.le x y.
Proof. intros H. now left. Qed.

Lemma dbl_lt_le_trans (x y z : Double.double) :
  Double.lt x y -> Double.le y z -> Double.lt x z.
Proof.
  intros H1 H2. apply (SFcompare_trans x y z); auto using dbl_lt_le.
Qed.

Lemma dbl_le_lt_trans (x y z : Double.double) :
  Double.le x y -> Double.lt y z -> Double.lt x z.
Proof.
  intros H1 H2. apply (SFcompare_trans x y z); auto using dbl_lt_le.
Qed.

Lemma dbl_lt_not_le (x y : Double.double) :
  Double.lt x y -> ~ Double.le y x.
Proof.
  unfold Double.lt, Double.le. rewrite (SFcompare_antisym x y).
  intros ->. simpl. intuition congruence.
Qed.

(** A number is a double other than NaN; on numbers the order is total. *)
Lemma dbl_le_number (x y : Double.double) :
  Double.le x y -> Double.le x x /\ Double.le y y.
Proof.
  intros H.
  assert (Hn : SFcompare x y <> None) by (destruct H as [H|H]; congruence).
  rewrite SFcompare_None in Hn.
  unfold Double.le. rewrite !SFcompare_refl; auto; intros ->; auto.
Qed.

Lemma dbl_not_lt_le (x y : Double.double) :
  Double.le x x -> Double.le y y -> ~ Double.lt x y -> Double.le y x.
Proof.
  unfold Double.lt, Double.le. intros Hx Hy.
  rewrite (SFcompare_antisym x y).
  destruct (SFcompare x y) as [[]|] eqn:E; simpl; auto.
  - intros H. now contradict H.
  - apply SFcompare_None in E as [-> | ->]; destruct Hx, Hy; discriminate.
Qed.

Lemma dbl_le_Infinity (x : Double.double) :
  Double.le x x -> Double.le x Double.Infinity.
Proof.
  unfold Double.le, Double.Infinity.
  destruct x as [s|s| |s m e]; simpl; try destruct s; auto;
    intros [H|H]; discriminate.
Qed.

(* ------------------------------------------------------------------ *)
(** ** The matcher in double precision: predicates and the order of
       [relevant] *)

Lemma dbl_in_range_iff (w : Double.double) (r : Double.SizeRule) :
  Double.in_range w r = true <-> Double.contains r w.
Proof.
  unfold Double.in_range, Double.contains.
  now rewrite andb_true_iff, dbl_geb_le, dbl_leb_le.
Qed.

Lemma dbl_is_relevant_iff (f : FingerName) (r : Double.SizeRule) :
  Double.is_relevant f r = true <-> Double.applies f r.
Proof.
  unfold Double.is_relevant, Double.applies.
  now rewrite orb_true_iff, !String.eqb_eq.
Qed.

Lemma dbl_distance_eq (w : Double.double) (r : Double.SizeRule) :
  Double.distance w r = Double.boundary_diff w r.
Proof. reflexivity. Qed.

Lemma dbl_is_relevant_cases (f : FingerName) (r : Double.SizeRule) :
  Double.is_relevant f r = true ->
  (Double.finger r = "all"
   /\ String.eqb (Double.finger r) (finger_str f) = false) \/
  (Double.finger r = finger_str f
   /\ String.eqb (Double.finger r) "all" = false).
Proof.
  unfold Double.is_relevant. intros H. apply orb_true_iff in H as [H|H];
    apply String.eqb_eq in H; rewrite H.
  - left. split; auto. destruct f; reflexivity.
  - right. split; auto. apply finger_str_not_all.
Qed.

Ltac dbl_rule_cases f r H :=
  let E1 := fresh "E" in let E2 := fresh "E" in
  destruct (dbl_is_relevant_cases f r H) as [[E1 E2]|[E1 E2]];
  rewrite ?E1;
  rewrite ?String.eqb_refl, ?finger_str_not_all, ?all_not_finger_str.

Lemma dbl_compareRules_key (f : FingerName) (x y : Double.SizeRule) :
  Double.is_relevant f x = true -> Double.is_relevant f y = true ->
  (Double.compareRules f x y <? 0) = (Double.rule_key x <? Double.rule_key y).
Proof.
  intros Hx Hy. unfold Double.compareRules, Double.rule_key.
  dbl_rule_cases f x Hx; dbl_rule_cases f y Hy;
    destruct (Z.eqb_spec (Double.priority y) (Double.priority x)) as [Hp|Hp];
    cbn [negb andb]; ltb_lia.
Qed.

Lemma dbl_outranks_key (f : FingerName) (a b : Double.SizeRule) :
  Double.is_relevant f a = true -> Double.is_relevant f b = true ->
  (Double.outranks f a b <-> Double.rule_key a < Double.rule_key b).
Proof.
  intros Ha Hb. unfold Double.outranks, Double.rule_key.
  dbl_rule_cases f a Ha; dbl_rule_cases f b Hb; split.
  all: try (intros [H|(H1 & H2 & H3)]; try lia;
            try (destruct f; discriminate)).
  all: intros H;
    destruct (Z.eq_dec (Double.priority a) (Double.priority b)) as [Hp|Hp];
    try lia; try (left; lia).
  right. auto.
Qed.

Lemma dbl_sorted_relevant_In (f : FingerName) (rules : list Double.SizeRule)
  (r : Double.SizeRule) :
  In r (Double.sorted_relevant f rules)
  <-> In r rules /\ Double.is_relevant f r = true.
Proof.
  unfold Double.sorted_relevant. rewrite <- filter_In. split; intros H.
  - eapply Permutation_in; [apply array_sort_perm | exact H].
  - eapply Permutation_in; [symmetry; apply array_sort_perm | exact H].
Qed.

Lemma dbl_exact_match_find (w : Double.double) (l : list Double.SizeRule) :
  Double.exact_match w l
  = option_map (fun r => (Double.mappedSize r, Double.exact_fit w r))
      (find (Double.in_range w) l).
Proof.
  induction l as [|r l IH]; simpl; auto. now destruct (Double.in_range w r).
Qed.

(** The first rule of [relevant] that satisfies a test is the best rule of
    the unsorted chart rules. *)
Lemma dbl_find_sorted_relevant (P : Double.SizeRule -> bool) f rules :
  find P (Double.sorted_relevant f rules)
  = first_best Double.rule_key (fun x => Double.is_relevant f x && P x) rules.
Proof.
  unfold Double.sorted_relevant.
  rewrite (find_array_sort (Double.compareRules f) Double.rule_key
             (fun r => Double.is_relevant f r = true)
             (dbl_compareRules_key f) P).
  - unfold first_best. apply first_best_filter.
  - apply Forall_forall. intros r H. now apply filter_In in H.
Qed.

(** The earliest rule of [relevant] that passes a test, seen from the chart:
    it outranks every passing rule listed before it and is outranked by
    none listed after it. *)
Lemma dbl_first_in_order (P : Double.SizeRule -> bool) f rules pre r post :
  Double.sorted_relevant f rules = pre ++ r :: post ->
  (forall x, In x pre -> P x = false) -> P r = true ->
  exists before after,
    rules = before ++ r :: after /\ Double.is_relevant f r = true /\
    (forall x, In x before -> Double.is_relevant f x = true -> P x = true ->
               Double.outranks f r x) /\
    (forall x, In x after -> Double.is_relevant f x = true -> P x = true ->
               ~ Double.outranks f x r).
Proof.
  intros Hsorted Hpre Hr.
  assert (Hin : In r (Double.sorted_relevant f rules))
    by (rewrite Hsorted; apply in_elt).
  apply dbl_sorted_relevant_In in Hin as [Hin Hrel].
  assert (Hfind : find P (Double.sorted_relevant f rules) = Some r).
  { rewrite Hsorted. clear Hsorted.
    induction pre as [|y pre IH]; simpl.
    - now rewrite Hr.
    - rewrite (Hpre y) by now left. apply IH. intros; apply Hpre; now right. }
  rewrite dbl_find_sorted_relevant in Hfind.
  destruct (first_best_split Double.rule_key
              (fun x => Double.is_relevant f x && P x) rules)
    as (before & r' & after & Hsplit & _ & Hbefore & Hafter & Hbest).
  { exists r. split; auto. now rewrite Hrel, Hr. }
  rewrite Hbest in Hfind. inversion Hfind; subst r'.
  exists before, after. repeat split; auto.
  - intros x Hx Hx1 Hx2. apply dbl_outranks_key; auto.
    apply Hbefore; auto. now rewrite Hx1, Hx2.
  - intros x Hx Hx1 Hx2 Hout. apply dbl_outranks_key in Hout; auto.
    assert (Double.rule_key r <= Double.rule_key x)
      by (apply Hafter; auto; now rewrite Hx1, Hx2).
    lia.
Qed.

Lemma dbl_exact_fit_position (w : Double.double) (r : Double.SizeRule) :
  Double.fit_for_position (Double.range_position w r) (Double.exact_fit w r).
Proof.
  assert (E33 : Double.decimal 33 2 = Double.c033) by (vm_compute; reflexivity).
  assert (E67 : Double.decimal 67 2 = Double.c067) by (vm_compute; reflexivity).
  assert (E50 : Double.decimal 5 1 = Double.c050) by (vm_compute; reflexivity).
  unfold Double.fit_for_position, Double.exact_fit, Double.range_position.
  rewrite E33, E67, E50.
  set (p := match SFcompare _ _ with Some Gt => _ | _ => _ end).
  assert (Ep : (if Double.gtb (Double.sub (Double.maxWidthMm r)
                                 (Double.minWidthMm r)) Double.zero
                then Double.div (Double.sub w (Double.minWidthMm r))
                       (Double.sub (Double.maxWidthMm r) (Double.minWidthMm r))
                else Double.c050) = p).
  { unfold p, Double.gtb, Double.sub, Double.div, Double.zero.
    now destruct (SFcompare _ _) as [[]|]. }
  rewrite Ep. clear Ep. clearbody p.
  destruct (Double.ltb p Double.c033) eqn:H1.
  - apply dbl_ltb_lt in H1. repeat split; auto.
    + intros H2. exfalso.
      assert (H : Double.lt Double.c067 Double.c033)
        by (eapply dbl_lt_le_trans; [exact H2 | now apply dbl_lt_le]).
      vm_compute in H. discriminate.
    + intros H2. now contradict H2.
  - assert (N1 : ~ Double.lt p Double.c033)
      by (intros H; apply dbl_ltb_lt in H; congruence).
    destruct (Double.gtb p Double.c067) eqn:H2.
    + apply dbl_gtb_lt in H2. repeat split; auto; intros; contradiction.
    + assert (N2 : ~ Double.lt Double.c067 p)
        by (intros H; apply dbl_gtb_lt in H; congruence).
      repeat split; auto; intros; contradiction.
Qed.

Lemma dbl_exact_match_none (w : Double.double) (l : list Double.SizeRule) :
  (forall x, In x l -> Double.in_range w x = false)
  <-> Double.exact_match w l = None.
Proof.
  induction l as [|r l IH]; simpl.
  - split; auto. intros _ x [].
  - split.
    + intros H. rewrite (H r) by now left. apply IH. intros; apply H; now right.
    + destruct (Double.in_range w r) eqn:E; [discriminate|].
      intros H x [<-|Hx]; auto. now apply IH.
Qed.

(* ------------------------------------------------------------------ *)
(** ** The matcher in double precision: the two nearest-boundary loops *)

Section DoubleLoops.
Variables (w tol : Double.double).
Local Abbreviation d := (Double.boundary_diff w).
Local Abbreviation qualifies x :=
  (Double.le (d x) tol /\ Double.lt (d x) Double.Infinity).

(** A rule that is not within the tolerance, or whose distance is not below
    [Infinity], leaves the state of the second loop as it started. *)
Lemma dbl_nearest_none l init :
  (forall x, In x l -> ~ qualifies x) ->
  fold_left (Double.nearest_step w tol) l (init, Double.Infinity)
  = (init, Double.Infinity).
Proof.
  induction l as [|y l IH]; intros H; simpl; auto.
  unfold Double.nearest_step at 2. cbn [snd].
  destruct (Double.leb (d y) tol && Double.ltb (d y) Double.Infinity) eqn:E.
  - apply andb_true_iff in E as [E1 E2].
    apply dbl_leb_le in E1. apply dbl_ltb_lt in E2.
    exfalso. apply (H y); auto. now left.
  - apply IH. intros; apply H; now right.
Qed.

(** The second loop selects the earliest rule of least distance among the
    rules that are within the tolerance. *)
Lemma dbl_nearest_split l init :
  (exists x, In x l /\ qualifies x) ->
  exists pre r post,
    l = pre ++ r :: post /\ qualifies r /\
    (forall x, In x pre -> qualifies x -> Double.lt (d r) (d x)) /\
    (forall x, In x post -> qualifies x -> Double.le (d r) (d x)) /\
    fold_left (Double.nearest_step w tol) l (init, Double.Infinity)
    = (Some r, d r).
Proof.
  induction l as [|y l IH] using rev_ind; intros [x [Hin Hx]].
  - contradiction.
  - rewrite fold_left_app. simpl.
    destruct (existsb (fun x => Double.leb (d x) tol
                                && Double.ltb (d x) Double.Infinity) l)
      eqn:Hex.
    + apply existsb_exists in Hex as [x' [Hin' Hx']].
      apply andb_true_iff in Hx' as [Hx1 Hx2].
      apply dbl_leb_le in Hx1. apply dbl_ltb_lt in Hx2.
      destruct (IH (ex_intro _ x' (conj Hin' (conj Hx1 Hx2))))
        as (pre & r & post & -> & Hr & Hpre & Hpost & Hfold).
      rewrite Hfold. unfold Double.nearest_step. cbn [snd].
      destruct (Double.leb (d y) tol && Double.ltb (d y) (d r)) eqn:Hc.
      * apply andb_true_iff in Hc as [Hc1 Hc2].
        apply dbl_leb_le in Hc1. apply dbl_ltb_lt in Hc2.
        exists (pre ++ r :: post), y, []. repeat split; auto.
        -- eapply dbl_lt_le_trans; [exact Hc2|].
           apply dbl_le_Infinity. now apply (dbl_le_number (d r) tol).
        -- intros z Hz Hq. apply in_app_or in Hz as [Hz|[<-|Hz]]; auto.
           ++ eapply dbl_lt_le_trans; [exact Hc2|].
              apply dbl_lt_le. now apply Hpre.
           ++ eapply dbl_lt_le_trans; [exact Hc2|]. now apply Hpost.
        -- intros z [].
      * exists pre, r, (post ++ [y]). repeat split; try apply Hr; auto.
        -- now rewrite <- app_assoc.
        -- intros z Hz Hq. apply in_app_or in Hz as [Hz|[<-|[]]]; auto.
           destruct Hq as [Hq1 Hq2].
           apply dbl_not_lt_le.
           ++ now apply (dbl_le_number (d y) tol).
           ++ now apply (dbl_le_number (d r) tol).
           ++ intros Hlt. apply dbl_ltb_lt in Hlt. apply dbl_leb_le in Hq1.
              now rewrite Hq1, Hlt in Hc.
    + assert (Hfar : forall z, In z l -> ~ qualifies z).
      { intros z Hz [Hq1 Hq2].
        apply dbl_leb_le in Hq1. apply dbl_ltb_lt in Hq2.
        assert (existsb (fun x => Double.leb (d x) tol
                                  && Double.ltb (d x) Double.Infinity) l
                = true)
          by (apply existsb_exists; exists z; now rewrite Hq1, Hq2).
        congruence. }
      rewrite (dbl_nearest_none l init Hfar).
      apply in_app_or in Hin as [Hin|[<-|[]]].
      * now destruct (Hfar x Hin).
      * unfold Double.nearest_step. cbn [snd]. destruct Hx as [Hx1 Hx2].
        rewrite (proj2 (dbl_leb_le _ _) Hx1), (proj2 (dbl_ltb_lt _ _) Hx2).
        cbn [andb].
        exists l, y, []. repeat split; auto.
        -- intros z Hz Hq. now destruct (Hfar z Hz).
        -- intros z [].
Qed.
End DoubleLoops.

(** The third loop is the second one with [Infinity] as tolerance. *)
Lemma dbl_closest_step_nearest (w : Double.double)
  (st : option Double.SizeRule * Double.double) (r : Double.SizeRule) :
  Double.closest_step w st r = Double.nearest_step w Double.Infinity st r.
Proof.
  unfold Double.closest_step, Double.nearest_step.
  destruct (Double.ltb (Double.boundary_diff w r) (snd st)) eqn:E.
  - apply dbl_ltb_lt in E.
    assert (H : Double.le (Double.boundary_diff w r) Double.Infinity).
    { apply dbl_le_Infinity.
      now apply (dbl_le_number _ (snd st)), dbl_lt_le. }
    now rewrite (proj2 (dbl_leb_le _ _) H).
  - now rewrite andb_false_r.
Qed.

Lemma dbl_closest_fold (w : Double.double) (l : list Double.SizeRule)
  (st : option Double.SizeRule * Double.double) :
  fold_left (Double.closest_step w) l st
  = fold_left (Double.nearest_step w Double.Infinity) l st.
Proof.
  revert st. induction l as [|y l IH]; intros st; simpl; auto.
  now rewrite dbl_closest_step_nearest, IH.
Qed.

Lemma dbl_sorted_relevant_nonempty (f : FingerName)
  (rules : list Double.SizeRule) :
  (exists r, In r rules /\ Double.is_relevant f r = true) ->
  Double.sorted_relevant f rules <> [].
Proof.
  intros (r & Hin & Hrel) E.
  assert (H : In r (Double.sorted_relevant f rules))
    by now apply dbl_sorted_relevant_In.
  now rewrite E in H.
Qed.

(* ------------------------------------------------------------------ *)
(** ** The matcher in double precision: the three branches *)

(** The scenarios of the design document in double arithmetic: width 11 on
    the rule [{all, 10..12}]; the thumb rule of higher priority; width 12.2,
    whose rounded distance 0.1999999999999993 is within the tolerance 0.3. *)
Example scenarios_in_double_precision :
  Double.applyRulesToFinger (Double.of_Z 11) index [Double.rule_all_10_12]
    Double.default_config = Normal (9, standard) /\
  Double.applyRulesToFinger (Double.of_Z 11) thumb
    [Double.rule_all_10_12; Double.rule_thumb_105_115] Double.default_config
  = Normal (5, standard) /\
  Double.applyRulesToFinger (Double.decimal 122 1) ring
    [Double.rule_all_10_12] Double.default_config = Normal (9, snug).
Proof. repeat split; vm_compute; reflexivity. Qed.

(** C1: exact-match precedence and fit.  Whenever some rule applicable to
    the finger contains the width in its inclusive range, the matcher
    returns, from its first loop, the mapped size of the rule [r] that comes
    first in the order "priority descending, finger-specific before [all]
    at equal priority, otherwise chart order": every applicable matching
    rule listed before [r] is outranked by [r], and none listed after it
    outranks [r].  The fit is [snug] when the position of the width in the
    range is below 0.33, [loose] above 0.67 and [standard] otherwise, the
    position being the quotient of the differences as the runtime computes
    it in double precision, and 0.5 on a range of zero width. *)
Theorem exact_match_precedence (w : Double.double) (f : FingerName)
  (rules : list Double.SizeRule) (cfg : Double.SizeRulesConfig) :
  (exists r0, In r0 rules /\ Double.applies f r0 /\ Double.contains r0 w) ->
  exists before r after fit_,
    rules = before ++ r :: after /\
    Double.applies f r /\ Double.contains r w /\
    (forall x, In x before -> Double.applies f x -> Double.contains x w ->
               Double.outranks f r x) /\
    (forall x, In x after -> Double.applies f x -> Double.contains x w ->
               ~ Double.outranks f x r) /\
    Double.exact_match w (Double.sorted_relevant f rules)
    = Some (Double.mappedSize r, fit_) /\
    Double.applyRulesToFinger w f rules cfg
    = Normal (Double.mappedSize r, fit_) /\
    Double.fit_for_position (Double.range_position w r) fit_.
Proof.
  intros (r0 & Hin & Hrel & Hrange).
  apply dbl_is_relevant_iff in Hrel. apply dbl_in_range_iff in Hrange.
  destruct (first_best_split Double.rule_key
              (fun x => Double.is_relevant f x && Double.in_range w x) rules)
    as (before & r & after & Hsplit & Hr & Hbefore & Hafter & Hbest).
  { exists r0. split; auto. now rewrite Hrel, Hrange. }
  apply andb_true_iff in Hr as [Hr1 Hr2].
  assert (Hexact : Double.exact_match w (Double.sorted_relevant f rules)
                   = Some (Double.mappedSize r, Double.exact_fit w r)).
  { now rewrite dbl_exact_match_find, dbl_find_sorted_relevant, Hbest. }
  exists before, r, after, (Double.exact_fit w r).
  split; [exact Hsplit|].
  split; [now apply dbl_is_relevant_iff|].
  split; [now apply dbl_in_range_iff|].
  split; [|split; [|split; [exact Hexact|split]]].
  - intros x Hx Hx1 Hx2.
    apply dbl_is_relevant_iff in Hx1. apply dbl_in_range_iff in Hx2.
    apply dbl_outranks_key; auto.
    apply Hbefore; auto. now rewrite Hx1, Hx2.
  - intros x Hx Hx1 Hx2 Hout.
    apply dbl_is_relevant_iff in Hx1. apply dbl_in_range_iff in Hx2.
    apply dbl_outranks_key in Hout; auto.
    assert (Double.rule_key r <= Double.rule_key x)
      by (apply Hafter; auto; now rewrite Hx1, Hx2).
    lia.
  - unfold Double.applyRulesToFinger. now rewrite Hexact.
  - apply dbl_exact_fit_position.
Qed.

Lemma exact_match_precedence_witness :
  exists before r after fit_,
    [Double.rule_all_10_12; Double.rule_thumb_105_115] = before ++ r :: after /\
    Double.applies thumb r /\ Double.contains r (Double.of_Z 11) /\
    (forall x, In x before -> Double.applies thumb x ->
               Double.contains x (Double.of_Z 11) ->
               Double.outranks thumb r x) /\
    (forall x, In x after -> Double.applies thumb x ->
               Double.contains x (Double.of_Z 11) ->
               ~ Double.outranks thumb x r) /\
    Double.exact_match (Double.of_Z 11)
      (Double.sorted_relevant thumb
         [Double.rule_all_10_12; Double.rule_thumb_105_115])
    = Some (Double.mappedSize r, fit_) /\
    Double.applyRulesToFinger (Double.of_Z 11) thumb
      [Double.rule_all_10_12; Double.rule_thumb_105_115] Double.default_config
    = Normal (Double.mappedSize r, fit_) /\
    Double.fit_for_position (Double.range_position (Double.of_Z 11) r) fit_.
Proof.
  apply (exact_match_precedence (Double.of_Z 11) thumb
           [Double.rule_all_10_12; Double.rule_thumb_105_115]
           Double.default_config).
  exists Double.rule_all_10_12. split; [left; reflexivity|].
  split; [left; reflexivity|].
  split; [left; reflexivity | left; reflexivity].
Defined.

(** On the seed rule [{all, 17..30}] the width 25.71 has the position
    [0.67] exactly as the runtime computes it (the quotient rounds to the
    double of the literal), so the fit is [standard], not [loose]. *)
Example position_rounds_to_threshold :
  Double.range_position (Double.decimal 2571 2) Double.rule_all_17_30
  = Double.decimal 67 2 /\
  Double.applyRulesToFinger (Double.decimal 2571 2) thumb
    [Double.rule_all_17_30] Double.default_config
  = Normal (0, standard).
Proof. split; vm_compute; reflexivity. Qed.

(** C4: tolerance fallback.  When no applicable rule contains the width
    and some applicable rule has a boundary distance
    [min(|w - minWidthMm|, |w - maxWidthMm|)] (computed in double
    precision, and finite) of at most [config.toleranceMm], the matcher
    returns the mapped size of an applicable rule [r] within the tolerance
    whose distance is the smallest of all applicable rules within the
    tolerance; among the rules at that distance [r] is the first in the
    order of the sorted filtered list: it outranks those listed before it
    in the chart and is outranked by none listed after it.  The fit is
    [snug] when the policy is [size_down] and [loose] otherwise. *)
Theorem tolerance_fallback (w : Double.double) (f : FingerName)
  (rules : list Double.SizeRule) (cfg : Double.SizeRulesConfig) :
  (forall x, In x rules -> Double.applies f x -> ~ Double.contains x w) ->
  (exists r0, In r0 rules /\ Double.applies f r0 /\
              Double.le (Double.distance w r0) (Double.toleranceMm cfg) /\
              Double.lt (Double.distance w r0) Double.Infinity) ->
  exists before r after fit_,
    rules = before ++ r :: after /\ Double.applies f r /\
    Double.le (Double.distance w r) (Double.toleranceMm cfg) /\
    (forall x, In x rules -> Double.applies f x ->
               Double.le (Double.distance w x) (Double.toleranceMm cfg) ->
               Double.le (Double.distance w r) (Double.distance w x)) /\
    (forall x, In x before -> Double.applies f x ->
               Double.le (Double.distance w x) (Double.distance w r) ->
               Double.outranks f r x) /\
    (forall x, In x after -> Double.applies f x ->
               Double.le (Double.distance w x) (Double.distance w r) ->
               ~ Double.outranks f x r) /\
    Double.applyRulesToFinger w f rules cfg
    = Normal (Double.mappedSize r, fit_) /\
    (Double.betweenSizes cfg = "size_down" -> fit_ = snug) /\
    (Double.betweenSizes cfg <> "size_down" -> fit_ = loose).
Proof.
  change Double.distance with Double.boundary_diff.
  set (d := Double.boundary_diff w). set (tol := Double.toleranceMm cfg).
  intros Hout (r0 & Hin & Hrel & Hr0 & Hfin).
  apply dbl_is_relevant_iff in Hrel.
  destruct (dbl_nearest_split w tol (Double.sorted_relevant f rules) None)
    as (pre & r & post & Hsorted & [Hr Hrfin] & Hpre & Hpost & Hfold).
  { exists r0. split; auto. now apply dbl_sorted_relevant_In. }
  fold d in Hr, Hrfin, Hpre, Hpost, Hfold.
  assert (Hrr : Double.le (d r) (d r)) by now apply (dbl_le_number (d r) tol).
  assert (Hleast : forall x, In x (Double.sorted_relevant f rules) ->
                             Double.le (d x) tol -> Double.le (d r) (d x)).
  { intros x Hx Hxt.
    assert (Hxx : Double.le (d x) (d x)) by now apply (dbl_le_number (d x) tol).
    assert (Hinf : ~ Double.lt (d x) Double.Infinity -> Double.le (d r) (d x)).
    { intros Hn. apply dbl_le_trans with Double.Infinity.
      - now apply dbl_lt_le.
      - apply dbl_not_lt_le; auto. now right. }
    rewrite Hsorted in Hx. apply in_app_or in Hx as [Hx|[<-|Hx]]; auto.
    - destruct (Double.ltb (d x) Double.Infinity) eqn:E.
      + apply dbl_ltb_lt in E. apply dbl_lt_le. now apply Hpre.
      + apply Hinf. intros H. apply dbl_ltb_lt in H. congruence.
    - destruct (Double.ltb (d x) Double.Infinity) eqn:E.
      + apply dbl_ltb_lt in E. now apply Hpost.
      + apply Hinf. intros H. apply dbl_ltb_lt in H. congruence. }
  destruct (dbl_first_in_order (fun x => Double.leb (d x) (d r)) f rules
              pre r post Hsorted)
    as (before & after & Hsplit & Hrrel & Hbefore & Hafter).
  { intros x Hx. destruct (Double.leb (d x) (d r)) eqn:E; auto.
    apply dbl_leb_le in E. exfalso.
    apply (dbl_lt_not_le (d r) (d x)); auto.
    apply Hpre; auto. split.
    - now apply dbl_le_trans with (d r).
    - now apply dbl_le_lt_trans with (d r). }
  { now apply dbl_leb_le. }
  exists before, r, after,
    (if String.eqb (Double.betweenSizes cfg) "size_down" then snug else loose).
  split; [exact Hsplit|].
  split; [now apply dbl_is_relevant_iff|].
  split; [exact Hr|].
  split; [|split; [|split; [|split; [|split]]]].
  - intros x Hx Hx1 Hx2. apply Hleast; auto.
    apply dbl_sorted_relevant_In. split; auto. now apply dbl_is_relevant_iff.
  - intros x Hx Hx1 Hx2. apply Hbefore; auto.
    + now apply dbl_is_relevant_iff.
    + now apply dbl_leb_le.
  - intros x Hx Hx1 Hx2. apply Hafter; auto.
    + now apply dbl_is_relevant_iff.
    + now apply dbl_leb_le.
  - unfold Double.applyRulesToFinger.
    rewrite (proj1 (dbl_exact_match_none w (Double.sorted_relevant f rules))).
    + unfold Double.nearest_within_tolerance. fold tol. now rewrite Hfold.
    + intros x Hx. apply dbl_sorted_relevant_In in Hx as [Hx1 Hx2].
      destruct (Double.in_range w x) eqn:E; auto.
      apply dbl_in_range_iff in E. apply dbl_is_relevant_iff in Hx2.
      now destruct (Hout x Hx1 Hx2).
  - intros ->. reflexivity.
  - intros Hne. apply String.eqb_neq in Hne. now rewrite Hne.
Qed.

Lemma tolerance_fallback_witness :
  exists before r after fit_,
    [Double.rule_all_10_12] = before ++ r :: after /\ Double.applies ring r /\
    Double.le (Double.distance (Double.decimal 122 1) r)
      (Double.toleranceMm Double.default_config) /\
    (forall x, In x [Double.rule_all_10_12] -> Double.applies ring x ->
               Double.le (Double.distance (Double.decimal 122 1) x)
                 (Double.toleranceMm Double.default_config) ->
               Double.le (Double.distance (Double.decimal 122 1) r)
                 (Double.distance (Double.decimal 122 1) x)) /\
    (forall x, In x before -> Double.applies ring x ->
               Double.le (Double.distance (Double.decimal 122 1) x)
                 (Double.distance (Double.decimal 122 1) r) ->
               Double.outranks ring r x) /\
    (forall x, In x after -> Double.applies ring x ->
               Double.le (Double.distance (Double.decimal 122 1) x)
                 (Double.distance (Double.decimal 122 1) r) ->
               ~ Double.outranks ring x r) /\
    Double.applyRulesToFinger (Double.decimal 122 1) ring
      [Double.rule_all_10_12] Double.default_config
    = Normal (Double.mappedSize r, fit_) /\
    (Double.betweenSizes Double.default_config = "size_down" -> fit_ = snug) /\
    (Double.betweenSizes Double.default_config <> "size_down" -> fit_ = loose).
Proof.
  apply (tolerance_fallback (Double.decimal 122 1) ring
           [Double.rule_all_10_12] Double.default_config).
  - intros x [<-|[]] _ [_ H]. vm_compute in H. destruct H; discriminate.
  - exists Double.rule_all_10_12. split; [left; reflexivity|].
    split; [left; reflexivity|].
    split; [left; reflexivity | reflexivity].
Defined.

(** The width 13.8 is at the distance 8 from the upper bound 5.8 of one rule
    and from the lower bound 21.8 of another as the runtime subtracts (both
    differences round to the double 8), so the rule that comes first is
    taken. *)
Example equal_rounded_distances :
  Double.distance (Double.decimal 138 1) Double.rule_all_5_58 = Double.of_Z 8 /\
  Double.distance (Double.decimal 138 1) Double.rule_all_218_30
  = Double.of_Z 8 /\
  Double.applyRulesToFinger (Double.decimal 138 1) thumb
    [Double.rule_all_5_58; Double.rule_all_218_30] Double.default_config
  = Normal (7, standard).
Proof. repeat split; vm_compute; reflexivity. Qed.

(** C5: last resort.  When some rule applies to the finger, no applicable
    rule contains the width and none is within the tolerance, the matcher
    returns, with fit [standard], the mapped size of an applicable rule [r]
    of globally smallest boundary distance: no applicable rule is closer,
    [r] is at most as far as every applicable rule of finite distance, and
    among the rules as close as [r] it is the first in the order of the
    sorted filtered list (it outranks those listed before it in the chart
    and is outranked by none listed after it).  A result is produced as
    soon as one rule applies to the finger. *)
Theorem last_resort (w : Double.double) (f : FingerName)
  (rules : list Double.SizeRule) (cfg : Double.SizeRulesConfig) :
  (exists r0, In r0 rules /\ Double.applies f r0) ->
  (forall x, In x rules -> Double.applies f x -> ~ Double.contains x w) ->
  (forall x, In x rules -> Double.applies f x ->
             ~ Double.le (Double.distance w x) (Double.toleranceMm cfg)) ->
  exists before r after,
    rules = before ++ r :: after /\ Double.applies f r /\
    (forall x, In x rules -> Double.applies f x ->
               ~ Double.lt (Double.distance w x) (Double.distance w r)) /\
    (forall x, In x rules -> Double.applies f x ->
               Double.lt (Double.distance w x) Double.Infinity ->
               Double.le (Double.distance w r) (Double.distance w x)) /\
    (forall x, In x before -> Double.applies f x ->
               Double.le (Double.distance w x) (Double.distance w r) ->
               Double.outranks f r x) /\
    (forall x, In x after -> Double.applies f x ->
               Double.le (Double.distance w x) (Double.distance w r) ->
               ~ Double.outranks f x r) /\
    Double.applyRulesToFinger w f rules cfg
    = Normal (Double.mappedSize r, standard).
Proof.
  change Double.distance with Double.boundary_diff.
  set (d := Double.boundary_diff w). set (tol := Double.toleranceMm cfg).
  intros (r0 & Hin0 & Hrel0) Hout Hfar.
  apply dbl_is_relevant_iff in Hrel0.
  set (sorted := Double.sorted_relevant f rules).
  assert (Hsrt : forall x, In x sorted <-> In x rules /\ Double.applies f x).
  { intros x. unfold sorted.
    now rewrite dbl_sorted_relevant_In, dbl_is_relevant_iff. }
  assert (Hexact : Double.exact_match w sorted = None).
  { apply dbl_exact_match_none. intros x Hx. apply Hsrt in Hx as [Hx1 Hx2].
    destruct (Double.in_range w x) eqn:E; auto.
    apply dbl_in_range_iff in E. now destruct (Hout x Hx1 Hx2). }
  assert (Hnear : Double.nearest_within_tolerance w tol sorted = None).
  { unfold Double.nearest_within_tolerance.
    rewrite dbl_nearest_none; auto.
    intros x Hx [Hq _]. apply Hsrt in Hx as [Hx1 Hx2].
    now apply (Hfar x Hx1 Hx2). }
  assert (Hresult : forall r, Double.closest_rule w sorted = Some r ->
            Double.applyRulesToFinger w f rules cfg
            = Normal (Double.mappedSize r, standard)).
  { intros r Hc. unfold Double.applyRulesToFinger. fold sorted tol.
    now rewrite Hexact, Hnear, Hc. }
  destruct (existsb (fun x => Double.ltb (d x) Double.Infinity) sorted)
    eqn:Hex.
  - (* some rule is at a finite distance *)
    apply existsb_exists in Hex as (x0 & Hx0 & Hfin0).
    apply dbl_ltb_lt in Hfin0.
    destruct (dbl_nearest_split w Double.Infinity sorted (hd_error sorted))
      as (pre & r & post & Hsorted & [_ Hrfin] & Hpre & Hpost & Hfold).
    { exists x0. split; auto. split; auto.
      apply dbl_le_Infinity. now apply (dbl_le_number _ Double.Infinity),
                               dbl_lt_le. }
    fold d in Hrfin, Hpre, Hpost, Hfold.
    assert (Hq : forall x, Double.lt (d x) Double.Infinity ->
                           Double.le (d x) Double.Infinity
                           /\ Double.lt (d x) Double.Infinity).
    { intros x Hx. split; auto. now apply dbl_lt_le. }
    assert (Hleast : forall x, In x sorted ->
                               Double.lt (d x) Double.Infinity ->
                               Double.le (d r) (d x)).
    { intros x Hx Hxfin. rewrite Hsorted in Hx.
      apply in_app_or in Hx as [Hx|[<-|Hx]].
      - apply dbl_lt_le. apply Hpre; auto.
      - now apply (dbl_le_number (d r) Double.Infinity), dbl_lt_le.
      - apply Hpost; auto. }
    destruct (dbl_first_in_order (fun x => Double.leb (d x) (d r)) f rules
                pre r post Hsorted)
      as (before & after & Hsplit & Hrrel & Hbefore & Hafter).
    { intros x Hx. destruct (Double.leb (d x) (d r)) eqn:E; auto.
      apply dbl_leb_le in E. exfalso.
      apply (dbl_lt_not_le (d r) (d x)); auto.
      apply Hpre; auto. apply Hq. now apply dbl_le_lt_trans with (d r). }
    { apply dbl_leb_le.
      now apply (dbl_le_number (d r) Double.Infinity), dbl_lt_le. }
    exists before, r, after.
    split; [exact Hsplit|].
    split; [now apply dbl_is_relevant_iff|].
    split; [|split; [|split; [|split]]].
    + intros x Hx Hx1 Hlt.
      assert (Hle : Double.le (d r) (d x)).
      { apply Hleast; [apply Hsrt; auto|].
        now apply dbl_lt_le_trans with (d r), dbl_lt_le. }
      now apply (dbl_lt_not_le (d x) (d r)).
    + intros x Hx Hx1 Hx2. apply Hleast; auto. apply Hsrt; auto.
    + intros x Hx Hx1 Hx2. apply Hbefore; auto.
      * now apply dbl_is_relevant_iff.
      * now apply dbl_leb_le.
    + intros x Hx Hx1 Hx2. apply Hafter; auto.
      * now apply dbl_is_relevant_iff.
      * now apply dbl_leb_le.
    + apply Hresult. unfold Double.closest_rule.
      now rewrite dbl_closest_fold, Hfold.
  - (* every distance is [Infinity] or NaN: [relevant[0]] stays *)
    assert (Hnone : forall x, In x sorted -> ~ Double.lt (d x) Double.Infinity).
    { intros x Hx Hlt. apply dbl_ltb_lt in Hlt.
      assert (existsb (fun x => Double.ltb (d x) Double.Infinity) sorted
              = true) by (apply existsb_exists; eauto).
      congruence. }
    destruct sorted as [|r rest] eqn:Hsorted.
    { exfalso. apply (dbl_sorted_relevant_nonempty f rules); eauto. }
    destruct (dbl_first_in_order (fun _ => true) f rules [] r rest Hsorted)
      as (before & after & Hsplit & Hrrel & Hbefore & Hafter);
      [intros x [] | reflexivity |].
    exists before, r, after.
    split; [exact Hsplit|].
    split; [now apply dbl_is_relevant_iff|].
    split; [|split; [|split; [|split]]].
    + intros x Hx Hx1 Hlt. apply (Hnone x); [apply Hsrt; auto|].
      apply dbl_lt_le_trans with (d r); auto.
      apply dbl_le_Infinity. now apply (dbl_le_number (d x) (d r)), dbl_lt_le.
    + intros x Hx Hx1 Hx2. exfalso. apply (Hnone x); auto. apply Hsrt; auto.
    + intros x Hx Hx1 _. apply Hbefore; auto. now apply dbl_is_relevant_iff.
    + intros x Hx Hx1 _. apply Hafter; auto. now apply dbl_is_relevant_iff.
    + apply Hresult. unfold Double.closest_rule.
      rewrite dbl_closest_fold, dbl_nearest_none; [reflexivity|].
      intros x Hx [_ Hq]. now apply (Hnone x).
Qed.

Lemma last_resort_witness :
  exists before r after,
    [Double.rule_all_10_12] = before ++ r :: after /\ Double.applies pinky r /\
    (forall x, In x [Double.rule_all_10_12] -> Double.applies pinky x ->
               ~ Double.lt (Double.distance (Double.of_Z 8) x)
                   (Double.distance (Double.of_Z 8) r)) /\
    (forall x, In x [Double.rule_all_10_12] -> Double.applies pinky x ->
               Double.lt (Double.distance (Double.of_Z 8) x) Double.Infinity ->
               Double.le (Double.distance (Double.of_Z 8) r)
                 (Double.distance (Double.of_Z 8) x)) /\
    (forall x, In x before -> Double.applies pinky x ->
               Double.le (Double.distance (Double.of_Z 8) x)
                 (Double.distance (Double.of_Z 8) r) ->
               Double.outranks pinky r x) /\
    (forall x, In x after -> Double.applies pinky x ->
               Double.le (Double.distance (Double.of_Z 8) x)
                 (Double.distance (Double.of_Z 8) r) ->
               ~ Double.outranks pinky x r) /\
    Double.applyRulesToFinger (Double.of_Z 8) pinky [Double.rule_all_10_12]
      Double.default_config
    = Normal (Double.mappedSize r, standard).
Proof.
  apply (last_resort (Double.of_Z 8) pinky [Double.rule_all_10_12]
           Double.default_config).
  - exists Double.rule_all_10_12. split; [left; reflexivity | left; reflexivity].
  - intros x [<-|[]] _ [H _]. vm_compute in H. destruct H; discriminate.
  - intros x [<-|[]] _ H. vm_compute in H. destruct H; discriminate.
Defined.

(* ------------------------------------------------------------------ *)
(** ** The admin preview against the live matcher *)

Lemma preview_relevant_sorted (f : FingerName) (rules : list SizeRule) :
  array_sort (comparePreview f) (filter (is_relevant f) rules)
  = sorted_relevant f rules.
Proof.
  unfold sorted_relevant. symmetry.
  apply (array_sort_ext (compareRules f) (comparePreview f)
           (fun r => is_relevant f r = true) (comparePreview_sign f)).
  apply relevant_Forall.
Qed.

Lemma preview_loop_find (w : Q) (l : list SizeRule) (size0 : Z) :
  preview_loop w l size0
  = match find (in_range w) l with
    | Some r => mappedSize r
    | None => size0
    end.
Proof.
  induction l as [|r l IH]; simpl; auto. now destruct (in_range w r).
Qed.

(** C6: the preview agrees with the live matcher on exact matches.  For
    every chart, configuration and width inside the inclusive range of some
    rule applicable to the finger, the mapped size the preview computes for
    the finger is the size the live matcher returns. *)
Theorem preview_agrees_on_exact_match (w : Q) (f : FingerName)
  (rules : list SizeRule) (cfg : SizeRulesConfig) :
  (exists r0, In r0 rules /\ is_relevant f r0 = true /\ in_range w r0 = true) ->
  exists fit_,
    applyRulesToFinger w f rules cfg = Normal (preview_size w f rules, fit_).
Proof.
  intros (r0 & Hin & Hrel & Hrange).
  unfold preview_size, applyRulesToFinger.
  rewrite preview_relevant_sorted, preview_loop_find, exact_match_find.
  destruct (find (in_range w) (sorted_relevant f rules)) as [r|] eqn:E; simpl.
  - eauto.
  - exfalso.
    assert (H : In r0 (sorted_relevant f rules)) by now apply sorted_relevant_In.
    pose proof (find_none _ _ E r0 H) as N. simpl in N. congruence.
Qed.

Lemma preview_agrees_on_exact_match_witness :
  exists fit_,
    applyRulesToFinger (11 # 1) thumb [rule_all_10_12; rule_thumb_105_115]
      default_config
    = Normal (preview_size (11 # 1) thumb [rule_all_10_12; rule_thumb_105_115],
              fit_).
Proof.
  apply (preview_agrees_on_exact_match (11 # 1) thumb
           [rule_all_10_12; rule_thumb_105_115] default_config).
  exists rule_thumb_105_115.
  split; [right; left; reflexivity | split; reflexivity].
Defined.

(* ------------------------------------------------------------------ *)
(** ** The set matcher *)

Lemma mapC_normal {A B} (f : A -> Completion B) (g : A -> B) (l : list A) :
  (forall x, f x = Normal (g x)) -> mapC f l = Normal (map g l).
Proof.
  intros H. induction l as [|x l IH]; simpl; auto. now rewrite H, IH.
Qed.

Lemma set_diff_hamming (t i m r p : FingerResult) (set : SizeSet) :
  filterC (fun n =>
     bindC (perFinger_get (perFinger_of t i m r p) n) (fun res =>
     Normal (negb (size res =? setMap set n)))) fingerNames
  = Normal (filter (fun n => negb (recommended_of t i m r p n =? setMap set n))
              fingerNames)
  /\ Z.of_nat (List.length
        (filter (fun n => negb (recommended_of t i m r p n =? setMap set n))
           fingerNames))
     = hamming (recommended_of t i m r p) set.
Proof.
  unfold hamming. cbn.
  destruct (size t =? thumbSize set), (size i =? indexSize set),
    (size m =? middleSize set), (size r =? ringSize set),
    (size p =? pinkySize set); split; reflexivity.
Qed.

Lemma matchingSets_ranked (t i m r p : FingerResult) (sets : list SizeSet) :
  matchingSets (perFinger_of t i m r p) sets
  = Normal (array_sort (fun a b => ms_diff a - ms_diff b)
              (filter (fun s => ms_diff s <=? 2)
                 (map (ranked_entry (recommended_of t i m r p)) sets))).
Proof.
  unfold matchingSets.
  rewrite (mapC_normal _ (ranked_entry (recommended_of t i m r p))); auto.
  intros set. destruct (set_diff_hamming t i m r p set) as [-> Hlen].
  cbn [bindC]. now rewrite Hlen.
Qed.

Lemma diff_cmp_key (x y : MatchingSet) :
  True -> True -> (ms_diff x - ms_diff y <? 0) = (ms_diff x <? ms_diff y).
Proof. intros _ _. ltb_lia. Qed.

(** C7: the set matcher.  For the per-finger result of a completed finger
    loop and any list of size sets, [matching_sets] holds exactly the sets
    at Hamming distance at most 2 from the recommended sizes, in ascending
    order of [diff], sets of equal [diff] in input order; [exact_match] is
    true exactly when [diff] is 0; the best match is the first element of
    the list, or none when it is empty. *)
Theorem set_matcher_ranking (t i m r p : FingerResult) (sets : list SizeSet) :
  exists ms,
    matchingSets (perFinger_of t i m r p) sets = Normal ms /\
    Permutation ms
      (filter (fun e => ms_diff e <=? 2)
         (map (ranked_entry (recommended_of t i m r p)) sets)) /\
    StronglySorted (fun a b => ms_diff a <= ms_diff b) ms /\
    (forall d,
       filter (fun e => ms_diff e =? d) ms
       = filter (fun e => ms_diff e =? d)
           (filter (fun e => ms_diff e <=? 2)
              (map (ranked_entry (recommended_of t i m r p)) sets))) /\
    (forall e, In e ms ->
       ms_diff e <= 2 /\ (ms_exact_match e = true <-> ms_diff e = 0)) /\
    bestMatchSetId ms = option_map ms_id (hd_error ms).
Proof.
  rewrite matchingSets_ranked.
  set (entries := filter (fun e => ms_diff e <=? 2)
                    (map (ranked_entry (recommended_of t i m r p)) sets)).
  assert (HT : Forall (fun _ : MatchingSet => True) entries)
    by (apply Forall_forall; auto).
  eexists. split; [reflexivity|]. repeat split.
  - apply array_sort_perm.
  - apply (array_sort_sorted _ ms_diff (fun _ => True) diff_cmp_key _ HT).
  - intros d.
    apply (array_sort_stable _ ms_diff (fun _ => True) diff_cmp_key d _ HT).
  - eapply Permutation_in in H; [|apply array_sort_perm].
    apply filter_In in H as [_ H]. now apply Z.leb_le.
  - eapply Permutation_in in H; [|apply array_sort_perm].
    apply filter_In in H as [H _]. apply in_map_iff in H as (s & <- & _).
    simpl. apply Z.eqb_eq.
  - eapply Permutation_in in H; [|apply array_sort_perm].
    apply filter_In in H as [H _]. apply in_map_iff in H as (s & <- & _).
    simpl. apply Z.eqb_eq.
  - now destruct (array_sort _ entries).
Qed.

(* ------------------------------------------------------------------ *)
(** ** The recommend route *)

(** C2 (as stated) fails: on a database with no rules and no measurement,
    a request for an unknown measurement id is answered [not_found], after
    the one query on [measurements]; the rules are never read.  This is the
    case [routes.test.ts] expects ("returns 404 when measurement not
    found", every query mocked to return no row). *)
Lemma unknown_measurement_without_rules :
  select_rules db_empty = [] /\
  run_recommend (Json (Some "msr_nonexistent")) db_empty
  = (Normal not_found_response, db_empty, [Select Tmeasurements]).
Proof. split; reflexivity. Qed.

(** C2 (as amended): the measurement is fetched first and the no-rules
    check follows it: when the chart has no size rule, a request with an
    unknown measurement id is answered [not_found] after the measurement
    query alone, and a request with a known id is answered with the distinct
    [no_rules] error right after the rules query, before the configuration,
    the labels and the sets are read; the database is unchanged either
    way. *)
Theorem no_rules_after_measurement (id : string) (d : Db) :
  id <> "" ->
  select_rules d = [] ->
  (select_measurement id d = [] ->
   run_recommend (Json (Some id)) d
   = (Normal not_found_response, d, [Select Tmeasurements])) /\
  (select_measurement id d <> [] ->
   run_recommend (Json (Some id)) d
   = (Normal no_rules_response, d, [Select Tmeasurements; Select TsizeRules])).
Proof.
  intros Hid Hrules.
  unfold run_recommend, recommend_post, bind, db_select, respond, ret.
  destruct id as [|c id']; [congruence|].
  split; intros Hm; simpl.
  - now rewrite Hm.
  - destruct (select_measurement (String c id') d) as [|m rows];
      [congruence|].
    now rewrite Hrules.
Qed.

Lemma no_rules_after_measurement_witness :
  (select_measurement "msr_1" db_no_rules = [] ->
   run_recommend (Json (Some "msr_1")) db_no_rules
   = (Normal not_found_response, db_no_rules, [Select Tmeasurements])) /\
  (select_measurement "msr_1" db_no_rules <> [] ->
   run_recommend (Json (Some "msr_1")) db_no_rules
   = (Normal no_rules_response, db_no_rules,
      [Select Tmeasurements; Select TsizeRules])).
Proof.
  apply (no_rules_after_measurement "msr_1" db_no_rules).
  - discriminate.
  - reflexivity.
Defined.

(** C3: the matcher throws when the chart has rules but none applies to
    the finger: with the one rule [thumb_only_rule], matching [index] at
    width 11 reads [mappedSize] of [undefined], and the request for a
    complete measurement ends in that exception after the four reads, with
    nothing written. *)
Theorem matcher_throws_without_applicable_rule :
  select_rules db_thumb_only <> [] /\
  applyRulesToFinger (11 # 1) index (select_rules db_thumb_only) default_config
  = Throw TypeError /\
  run_recommend (Json (Some "msr_1")) db_thumb_only
  = (Throw TypeError, db_thumb_only,
     [Select Tmeasurements; Select TsizeRules; Select TsizeRulesConfig;
      Select TnailSizes]).
Proof. repeat split; try reflexivity. discriminate. Qed.

(** C8: a missing finger is not reported when an earlier finger has no
    applicable rule: the measurement lacks [index], the chart holds only
    [index_only_rule], and the request ends in the exception thrown while
    matching [thumb] instead of the validation error naming [index]. *)
Theorem missing_finger_masked_by_throw :
  fingers measurement_without_index thumb <> None /\
  fingers measurement_without_index index = None /\
  run_recommend (Json (Some "msr_2")) db_index_only
  = (Throw TypeError, db_index_only,
     [Select Tmeasurements; Select TsizeRules; Select TsizeRulesConfig;
      Select TnailSizes]).
Proof. repeat split; try reflexivity. discriminate. Qed.

(** The finger loop touches neither the database nor the trace. *)
Lemma finger_loop_frame names fingers_ rules cfg rows pf d tr :
  exists out, finger_loop names fingers_ rules cfg rows pf d tr = (out, d, tr).
Proof.
  revert pf. induction names as [|n names IH]; intros pf; simpl.
  - eexists; reflexivity.
  - destruct (fingers_ n) as [fd|]; [|eexists; reflexivity].
    unfold bind, liftC.
    destruct (applyRulesToFinger (curve_adj_width_mm fd) n rules cfg)
      as [[sz ft]|e]; [apply IH | eexists; reflexivity].
Qed.

(** The only response the finger loop sends is the missing-finger error. *)
Lemma finger_loop_respond names fingers_ rules cfg rows pf d tr resp d' tr' :
  finger_loop names fingers_ rules cfg rows pf d tr = (Respond resp, d', tr') ->
  exists n, In n names /\ fingers_ n = None /\
            resp = JsonError 400 "validation_error"
                     ("Measurement missing data for finger: " ++ finger_str n)%string.
Proof.
  revert pf. induction names as [|n names IH]; intros pf; simpl.
  - unfold ret. discriminate.
  - destruct (fingers_ n) as [fd|] eqn:Hn.
    + unfold bind, liftC.
      destruct (applyRulesToFinger (curve_adj_width_mm fd) n rules cfg)
        as [[sz ft]|e]; [|discriminate].
      intros H. destruct (IH _ H) as (n' & Hin & Hnone & Hresp).
      exists n'. auto.
    + unfold respond. intros H. inversion H; subst.
      exists n. auto.
Qed.

Lemma bind_ret {A B} (a : A) (k : A -> Handler B) d tr :
  bind (ret a) k d tr = k a d tr.
Proof. reflexivity. Qed.

Lemma bind_respond {A B} (r : Response) (k : A -> Handler B) d tr :
  bind (respond r) k d tr = (Respond r, d, tr).
Proof. reflexivity. Qed.

Lemma bind_select {A B} (t : Table) (q : Db -> A) (k : A -> Handler B) d tr :
  bind (db_select t q) k d tr = k (q d) d (tr ++ [Select t]).
Proof. reflexivity. Qed.

Lemma bind_liftC {A B} (c : Completion A) (k : A -> Handler B) d tr :
  bind (liftC c) k d tr
  = match c with
    | Normal a => k a d tr
    | Throw e => (Threw e, d, tr)
    end.
Proof. now destruct c. Qed.

Ltac step_handler H :=
  repeat (rewrite ?bind_ret, ?bind_respond, ?bind_select, ?bind_liftC in H;
          cbv beta in H).

(** Every run of the handler either succeeds, having appended one row as
    its last database operation, or fails without any write. *)
Lemma run_recommend_cases (body : ReqBody) (d : Db) :
  (exists id profile pf ms sizes_,
     sizeProfile pf = Normal profile /\
     matchingSets pf (select_sets d) = Normal ms /\
     sizesJson pf = Normal sizes_ /\
     run_recommend body d
     = (Normal (JsonOk id profile pf
                  (map (fun s => (ms_set_name s, ms_set_id s,
                                  ms_exact_match s, ms_diff s)) ms)),
        with_recommendations d
          (recommendations d
           ++ [mkRecommendation id "default" profile sizes_
                 (bestMatchSetId ms)]),
        recommend_trace)) \/
  (exists out tr,
     run_recommend body d = (out, d, tr) /\ ~ is_ok out /\
     forall t, ~ In (Insert t) tr).
Proof.
  assert (Hthrow : forall e, ~ is_ok (Throw e))
    by (intros e (? & ? & ? & ? & H); discriminate).
  assert (Herr : forall s a b, ~ is_ok (Normal (JsonError s a b)))
    by (intros s a b (? & ? & ? & ? & H); discriminate).
  assert (Hleaf : forall out tr,
            ~ is_ok out -> Forall (fun op => exists u, op = Select u) tr ->
            exists out' tr',
              (out, d, tr) = (out', d, tr') /\ ~ is_ok out' /\
              forall t, ~ In (Insert t) tr').
  { intros out tr Hout HF. exists out, tr. repeat split; auto.
    intros t Hin. rewrite Forall_forall in HF.
    destruct (HF _ Hin) as [u Hu]. discriminate. }
  unfold run_recommend.
  remember (recommend_post body d []) as res eqn:Hres.
  unfold recommend_post in Hres.
  destruct body as [| |[[|c id]|]]; step_handler Hres;
    try (subst res; right; apply Hleaf; [apply Herr | constructor]);
    try (subst res; right; apply Hleaf; [apply Hthrow | constructor]).
  destruct (select_measurement (String c id) d) as [|m rows];
    step_handler Hres.
  { subst res. right. apply Hleaf; [apply Herr | repeat econstructor]. }
  destruct (select_rules d) as [|r0 rules0]; cbn [List.length Nat.eqb] in Hres;
    step_handler Hres.
  { subst res. right. apply Hleaf; [apply Herr | repeat econstructor]. }
  set (cfg := match select_config d with
              | [] => default_effectiveConfig
              | c0 :: _ => c0
              end) in Hres.
  unfold bind at 1 in Hres. cbn [app] in Hres.
  destruct (finger_loop_frame fingerNames (fingers m) (r0 :: rules0) cfg
              (select_nailSizes d) [] d
              [Select Tmeasurements; Select TsizeRules;
               Select TsizeRulesConfig; Select TnailSizes])
    as [out Hloop].
  rewrite Hloop in Hres.
  destruct out as [pf|resp|e].
  - step_handler Hres.
    destruct (sizeProfile pf) as [profile|e] eqn:Hp; step_handler Hres.
    + destruct (matchingSets pf (select_sets d)) as [ms|e] eqn:Hm;
        step_handler Hres.
      * destruct (sizesJson pf) as [sizes_|e] eqn:Hs; step_handler Hres.
        -- subst res. left. unfold bind, insert_recommendation, ret.
           cbn [app]. exists (String c id), profile, pf, ms, sizes_.
           repeat split; auto.
        -- subst res. right.
           apply Hleaf; [apply Hthrow | repeat econstructor].
      * subst res. right. apply Hleaf; [apply Hthrow | repeat econstructor].
    + subst res. right. apply Hleaf; [apply Hthrow | repeat econstructor].
  - subst res. right. destruct resp as [s a b|? ? ? ?].
    + apply Hleaf; [apply Herr | repeat econstructor].
    + apply finger_loop_respond in Hloop as (n & _ & _ & Hn). discriminate.
  - subst res. right. apply Hleaf; [apply Hthrow | repeat econstructor].
Qed.

(** One write of the API appends at most one recommendation and leaves the
    rows already there as they are. *)
Lemma api_write_appends (d d' : Db) :
  api_write d d' ->
  exists suffix,
    recommendations d' = recommendations d ++ suffix /\
    (List.length suffix <= 1)%nat.
Proof.
  intros H. destruct H; try (exists []; split; [now rewrite app_nil_r | auto]).
  destruct (run_recommend_cases body d)
    as [(id & profile & pf & ms & sizes_ & _ & _ & _ & ->)
       |(out & tr & -> & _ & _)]; simpl.
  - eexists. split; [reflexivity | auto].
  - exists []. split; [now rewrite app_nil_r | auto].
Qed.

(** C9: recorder immutability and single append.  A successful invocation
    of the handler performs exactly one insert into [recommendations], as
    the last database operation, after the finger loop, the profile and the
    set ranking have produced their results, and the row holds those
    results; an invocation that does not answer with a recommendation
    leaves the database as it was and issues no insert; and no write of the
    API, alone or in any sequence, changes or removes a row that
    [recommendations] already holds. *)
Theorem recommendations_append_only (body : ReqBody) (d d' : Db) :
  ((exists id profile pf ms sizes_,
      sizeProfile pf = Normal profile /\
      matchingSets pf (select_sets d) = Normal ms /\
      sizesJson pf = Normal sizes_ /\
      run_recommend body d
      = (Normal (JsonOk id profile pf
                   (map (fun s => (ms_set_name s, ms_set_id s,
                                   ms_exact_match s, ms_diff s)) ms)),
         with_recommendations d
           (recommendations d
            ++ [mkRecommendation id "default" profile sizes_
                  (bestMatchSetId ms)]),
         [Select Tmeasurements; Select TsizeRules; Select TsizeRulesConfig;
          Select TnailSizes; Select TsizeSets; Insert Trecommendations])) \/
   (exists out tr,
      run_recommend body d = (out, d, tr) /\ ~ is_ok out /\
      forall t, ~ In (Insert t) tr)) /\
  (api_write d d' ->
   exists suffix,
     recommendations d' = recommendations d ++ suffix /\
     (List.length suffix <= 1)%nat) /\
  (api_writes d d' ->
   exists suffix, recommendations d' = recommendations d ++ suffix).
Proof.
  split; [apply run_recommend_cases|]. split; [apply api_write_appends|].
  intros H. induction H as [d|d1 d2 d3 H12 IH H23].
  - exists []. now rewrite app_nil_r.
  - destruct IH as [s1 E1].
    destruct (api_write_appends _ _ H23) as (s2 & E2 & _).
    exists (s1 ++ s2). now rewrite E2, E1, app_assoc.
Qed.

Lemma recommendations_append_only_witness :
  (exists suffix,
     recommendations (snd (fst (run_recommend (Json (Some "msr_1")) db_all_rule)))
     = recommendations db_all_rule ++ suffix /\
     (List.length suffix <= 1)%nat) /\
  (exists suffix,
     recommendations (snd (fst (run_recommend (Json (Some "msr_1")) db_all_rule)))
     = recommendations db_all_rule ++ suffix).
Proof.
  destruct (recommendations_append_only (Json (Some "msr_1")) db_all_rule
              (snd (fst (run_recommend (Json (Some "msr_1")) db_all_rule))))
    as (_ & H1 & H2).
  split.
  - apply H1. apply write_recommend.
  - apply H2. eapply writes_step; [apply writes_nil | apply write_recommend].
Defined.

(* ------------------------------------------------------------------ *)
(** ** The profile composer, where the matcher returns *)

Lemma finger_loop_missing fingers_ rules cfg rows d tr before n after :
  (forall x, In x before ->
     fingers_ x <> None /\ exists r, In r rules /\ is_relevant x r = true) ->
  fingers_ n = None ->
  forall pf,
    finger_loop (before ++ n :: after) fingers_ rules cfg rows pf d tr
    = (Respond (missing_finger_response n), d, tr).
Proof.
  intros Hbefore Hn. induction before as [|x before IH]; intros pf; simpl.
  - now rewrite Hn.
  - destruct (Hbefore x (or_introl eq_refl)) as [Hx Hrel].
    destruct (fingers_ x) as [fd|]; [|congruence].
    destruct (applyRulesToFinger_total (curve_adj_width_mm fd) x rules cfg Hrel)
      as [[sz ft] Hres].
    unfold bind, liftC. rewrite Hres.
    apply IH. intros y Hy. apply Hbefore. now right.
Qed.

(** With a rule for every finger processed before it, the first missing
    finger is the one the validation error names. *)
Lemma composer_missing_finger (id : string) (d : Db) m rows before n after :
  id <> "" ->
  select_measurement id d = m :: rows ->
  select_rules d <> [] ->
  fingerNames = before ++ n :: after ->
  (forall x, In x before ->
     fingers m x <> None /\
     exists r, In r (select_rules d) /\ is_relevant x r = true) ->
  fingers m n = None ->
  run_recommend (Json (Some id)) d
  = (Normal (missing_finger_response n), d, four_reads).
Proof.
  intros Hid Hm Hrules Hnames Hbefore Hn.
  unfold run_recommend.
  remember (recommend_post (Json (Some id)) d []) as res eqn:Hres.
  unfold recommend_post in Hres.
  destruct id as [|c id']; [congruence|]. step_handler Hres.
  rewrite Hm in Hres. step_handler Hres.
  destruct (select_rules d) as [|r0 rules0] eqn:Er; [congruence|].
  cbn [List.length Nat.eqb] in Hres. step_handler Hres.
  unfold bind at 1 in Hres. rewrite Hnames in Hres.
  rewrite (finger_loop_missing (fingers m) (r0 :: rules0) _ _ d _
             before n after Hbefore Hn) in Hres.
  now subst res.
Qed.

(** A finger loop that runs to its end leaves the five entries, thumb to
    pinky, in [perFinger]. *)
Lemma finger_loop_shape fingers_ rules cfg rows d tr pf d' tr' :
  finger_loop fingerNames fingers_ rules cfg rows [] d tr
  = (Continue pf, d', tr') ->
  exists t i m r p, pf = perFinger_of t i m r p.
Proof.
  unfold fingerNames, finger_loop, bind, liftC, respond, ret.
  repeat match goal with
         | |- context [fingers_ ?n] =>
             destruct (fingers_ n); [|discriminate]
         | |- context [applyRulesToFinger ?w ?n rules cfg] =>
             destruct (applyRulesToFinger w n rules cfg) as [[? ?]|?];
             [|discriminate]
         end.
  cbn. intros H. inversion H; subst. do 5 eexists. reflexivity.
Qed.

Lemma sizeProfile_of (t i m r p : FingerResult) :
  sizeProfile (perFinger_of t i m r p)
  = Normal (String_of_Z (size t) ++ "-" ++ String_of_Z (size i) ++ "-"
            ++ String_of_Z (size m) ++ "-" ++ String_of_Z (size r) ++ "-"
            ++ String_of_Z (size p))%string.
Proof. reflexivity. Qed.

Lemma sizesJson_of (t i m r p : FingerResult) :
  sizesJson (perFinger_of t i m r p)
  = Normal [(thumb, (size t, size_label t, fit t));
            (index, (size i, size_label i, fit i));
            (middle, (size m, size_label m, fit m));
            (ring, (size r, size_label r, fit r));
            (pinky, (size p, size_label p, fit p))].
Proof. reflexivity. Qed.

Lemma finger_loop_complete (fingers_ : FingerName -> option FingerData)
  (fd : FingerName -> FingerData) rules cfg rows d tr :
  (forall n, fingers_ n = Some (fd n)) ->
  (forall n, exists r, In r rules /\ is_relevant n r = true) ->
  exists (sz : FingerName -> Z) (ft : FingerName -> FitLabel),
    (forall n, applyRulesToFinger (curve_adj_width_mm (fd n)) n rules cfg
               = Normal (sz n, ft n)) /\
    finger_loop fingerNames fingers_ rules cfg rows [] d tr
    = (Continue
         (perFinger_of
            (mkFingerResult (sz thumb) (sizeLabel rows (sz thumb))
               (curve_adj_width_mm (fd thumb)) (ft thumb))
            (mkFingerResult (sz index) (sizeLabel rows (sz index))
               (curve_adj_width_mm (fd index)) (ft index))
            (mkFingerResult (sz middle) (sizeLabel rows (sz middle))
               (curve_adj_width_mm (fd middle)) (ft middle))
            (mkFingerResult (sz ring) (sizeLabel rows (sz ring))
               (curve_adj_width_mm (fd ring)) (ft ring))
            (mkFingerResult (sz pinky) (sizeLabel rows (sz pinky))
               (curve_adj_width_mm (fd pinky)) (ft pinky))),
       d, tr).
Proof.
  intros Hf Hrel.
  assert (Ht : forall n, exists res,
             applyRulesToFinger (curve_adj_width_mm (fd n)) n rules cfg
             = Normal res)
    by (intros n; now apply applyRulesToFinger_total).
  destruct (Ht thumb) as [[s1 f1] H1], (Ht index) as [[s2 f2] H2],
    (Ht middle) as [[s3 f3] H3], (Ht ring) as [[s4 f4] H4],
    (Ht pinky) as [[s5 f5] H5].
  exists (fun n => match n with
                   | thumb => s1 | index => s2 | middle => s3
                   | ring => s4 | pinky => s5 end),
         (fun n => match n with
                   | thumb => f1 | index => f2 | middle => f3
                   | ring => f4 | pinky => f5 end).
  split; [now intros []|].
  unfold fingerNames, finger_loop, bind, liftC.
  now rewrite !Hf, H1, H2, H3, H4, H5.
Qed.

(** With all five fingers measured and a rule for each, the request
    succeeds and [size_profile] is the five matched sizes, thumb to pinky,
    joined by dashes. *)
Lemma composer_profile (id : string) (d : Db) m rows
  (fd : FingerName -> FingerData) :
  id <> "" ->
  select_measurement id d = m :: rows ->
  (forall n, fingers m n = Some (fd n)) ->
  (forall n, exists r, In r (select_rules d) /\ is_relevant n r = true) ->
  exists (sz : FingerName -> Z) pf ms d',
    (forall n, exists ft,
       applyRulesToFinger (curve_adj_width_mm (fd n)) n (select_rules d)
         (effective_config d) = Normal (sz n, ft)) /\
    run_recommend (Json (Some id)) d
    = (Normal (JsonOk id
                 (String_of_Z (sz thumb) ++ "-" ++ String_of_Z (sz index) ++ "-"
                  ++ String_of_Z (sz middle) ++ "-" ++ String_of_Z (sz ring)
                  ++ "-" ++ String_of_Z (sz pinky))%string
                 pf ms),
       d', recommend_trace).
Proof.
  intros Hid Hm Hf Hrel.
  destruct (finger_loop_complete (fingers m) fd (select_rules d)
              (effective_config d) (select_nailSizes d) d four_reads Hf Hrel)
    as (sz & ft & Hsz & Hloop).
  exists sz. unfold run_recommend.
  remember (recommend_post (Json (Some id)) d []) as res eqn:Hres.
  unfold recommend_post in Hres.
  destruct id as [|c id']; [congruence|]. step_handler Hres.
  rewrite Hm in Hres. step_handler Hres.
  destruct (Hrel thumb) as (r & Hr & _).
  destruct (select_rules d) as [|r0 rules0] eqn:Er; [contradiction|].
  cbn [List.length Nat.eqb] in Hres. step_handler Hres.
  unfold bind at 1 in Hres. fold (effective_config d) in Hres.
  cbn [app] in Hres. unfold four_reads in Hloop. rewrite Hloop in Hres.
  step_handler Hres. rewrite sizeProfile_of in Hres. step_handler Hres.
  rewrite matchingSets_ranked in Hres. step_handler Hres.
  rewrite sizesJson_of in Hres. step_handler Hres.
  subst res. do 3 eexists. split; [intros n; eexists; apply Hsz|].
  reflexivity.
Qed.


(* ================================================================== *)
(** * Further properties of the matcher *)

Lemma nearest_in (w tol : Q) (l : list SizeRule) (r : SizeRule) :
  nearest_within_tolerance w tol l = Some r ->
  In r l /\ (boundary_diff w r <= tol)%Q.
Proof.
  unfold nearest_within_tolerance. intros H.
  destruct (existsb (fun x => Qle_bool (boundary_diff w x) tol) l) eqn:Hex.
  - apply existsb_exists in Hex as (x & Hx & Hle). apply Qle_bool_iff in Hle.
    destruct (nearest_split w tol l (ex_intro _ x (conj Hx Hle)))
      as (pre & r' & post & -> & Hr & _ & _ & Hfold).
    rewrite Hfold in H. simpl in H. inversion H; subst.
    split; auto. apply in_or_app. right. now left.
  - rewrite nearest_skip in H; [discriminate|].
    intros x Hx. apply Qle_bool_gt.
    destruct (Qle_bool (boundary_diff w x) tol) eqn:E; auto.
    assert (existsb (fun x => Qle_bool (boundary_diff w x) tol) l = true)
      by (apply existsb_exists; eauto).
    congruence.
Qed.

Lemma closest_in (w : Q) (l : list SizeRule) (r : SizeRule) :
  closest_rule w l = Some r -> In r l.
Proof.
  unfold closest_rule. intros H.
  assert (Hne : l <> []) by (intros ->; discriminate).
  destruct (closest_split w l (hd_error l) Hne)
    as (pre & r' & post & Hl & _ & _ & Hfold).
  rewrite Hfold in H. simpl in H.
  assert (r' = r) by congruence. subst r'.
  rewrite Hl. apply in_or_app. right. now left.
Qed.

Lemma sorted_relevant_nil (f : FingerName) (rules : list SizeRule) :
  (forall r, In r rules -> is_relevant f r = false) ->
  sorted_relevant f rules = [].
Proof.
  intros H. unfold sorted_relevant.
  replace (filter (is_relevant f) rules) with (@nil SizeRule); [reflexivity|].
  symmetry. induction rules as [|r rules IH]; simpl; auto.
  rewrite (H r) by now left. apply IH. intros; apply H; now right.
Qed.

(** X1: the matcher throws exactly when no rule of the chart applies to the
    finger; in every other case the size it returns is the mapped size of a
    rule of the chart that applies to the finger. *)
Theorem matcher_result_or_throw (w : Q) (f : FingerName)
  (rules : list SizeRule) (cfg : SizeRulesConfig) :
  (applyRulesToFinger w f rules cfg = Throw TypeError /\
   forall r, In r rules -> is_relevant f r = false) \/
  (exists r fit_,
     In r rules /\ is_relevant f r = true /\
     applyRulesToFinger w f rules cfg = Normal (mappedSize r, fit_)).
Proof.
  destruct (existsb (is_relevant f) rules) eqn:Hex.
  - right. apply existsb_exists in Hex as (r0 & Hin & Hrel).
    assert (Hne : sorted_relevant f rules <> [])
      by (apply sorted_relevant_nonempty; eauto).
    unfold applyRulesToFinger.
    rewrite exact_match_find.
    destruct (find (in_range w) (sorted_relevant f rules)) as [r|] eqn:Hf; simpl.
    + apply find_some in Hf as [Hr _]. apply sorted_relevant_In in Hr as [? ?].
      eauto 6.
    + destruct (nearest_within_tolerance w (toleranceMm cfg)
                  (sorted_relevant f rules)) as [r|] eqn:Hn.
      * apply nearest_in in Hn as [Hr _].
        apply sorted_relevant_In in Hr as [? ?]. eauto 6.
      * destruct (closest_rule w (sorted_relevant f rules)) as [r|] eqn:Hc.
        -- apply closest_in in Hc. apply sorted_relevant_In in Hc as [? ?].
           eauto 6.
        -- exfalso. unfold closest_rule in Hc.
           destruct (closest_split w (sorted_relevant f rules)
                       (hd_error (sorted_relevant f rules)) Hne)
             as (pre & r & post & _ & _ & _ & Hfold).
           rewrite Hfold in Hc. discriminate.
  - left.
    assert (Hnone : forall r, In r rules -> is_relevant f r = false).
    { intros r Hr. destruct (is_relevant f r) eqn:E; auto.
      assert (existsb (is_relevant f) rules = true)
        by (apply existsb_exists; eauto).
      congruence. }
    split; auto. unfold applyRulesToFinger.
    now rewrite (sorted_relevant_nil f rules Hnone).
Qed.

(** X2: a matching rule that outranks every other matching rule wins
    wherever it stands in the chart: the result does not depend on the
    order in which the rules are listed. *)
Theorem dominant_rule_wins (w : Q) (f : FingerName)
  (rules : list SizeRule) (cfg : SizeRulesConfig) (r : SizeRule) :
  In r rules -> is_relevant f r = true -> in_range w r = true ->
  (forall x, In x rules -> is_relevant f x = true -> in_range w x = true ->
             x = r \/ outranks f r x) ->
  applyRulesToFinger w f rules cfg = Normal (mappedSize r, exact_fit w r).
Proof.
  intros Hin Hrel Hrange Hdom.
  destruct (first_best_split rule_key
              (fun x => is_relevant f x && in_range w x) rules)
    as (pre & r' & post & Hsplit & Hr' & Hpre & Hpost & Hbest).
  { exists r. split; auto. now rewrite Hrel, Hrange. }
  apply andb_true_iff in Hr' as [Hr1 Hr2].
  assert (Hr'in : In r' rules)
    by (rewrite Hsplit; apply in_or_app; right; now left).
  assert (Heq : r' = r).
  { destruct (Hdom r' Hr'in Hr1 Hr2) as [E|Hout]; auto.
    apply outranks_key in Hout; auto.
    rewrite Hsplit in Hin. apply in_app_or in Hin as [Hp|[E|Hp]]; auto.
    - assert (rule_key r' < rule_key r)
        by (apply Hpre; auto; now rewrite Hrel, Hrange).
      lia.
    - assert (rule_key r' <= rule_key r)
        by (apply Hpost; auto; now rewrite Hrel, Hrange).
      lia. }
  subst r'. unfold applyRulesToFinger.
  now rewrite exact_match_find, find_sorted_relevant, Hbest.
Qed.

Lemma dominant_rule_wins_witness :
  applyRulesToFinger (11 # 1) thumb [rule_all_10_12; rule_thumb_105_115]
    default_config
  = Normal (mappedSize rule_thumb_105_115,
            exact_fit (11 # 1) rule_thumb_105_115).
Proof.
  apply (dominant_rule_wins (11 # 1) thumb
           [rule_all_10_12; rule_thumb_105_115] default_config
           rule_thumb_105_115).
  - right. left. reflexivity.
  - reflexivity.
  - reflexivity.
  - intros x [<-|[<-|[]]] _ _.
    + right. left. vm_compute. reflexivity.
    + left. reflexivity.
Defined.

(** The earliest element of least distance is unique. *)
Lemma least_split_unique (d : SizeRule -> Q) pre r post pre' r' post' :
  pre ++ r :: post = pre' ++ r' :: post' ->
  (forall x, In x pre -> (d r < d x)%Q) ->
  (forall x, In x post -> (d r <= d x)%Q) ->
  (forall x, In x pre' -> (d r' < d x)%Q) ->
  (forall x, In x post' -> (d r' <= d x)%Q) ->
  r = r'.
Proof.
  revert pre'. induction pre as [|x pre IH]; intros pre' E H1 H2 H3 H4.
  - destruct pre' as [|y pre']; simpl in E; inversion E; subst; auto.
    assert (Ha : (d r' < d y)%Q) by (apply H3; now left).
    assert (Hb : (d y <= d r')%Q)
      by (apply H2; apply in_or_app; right; now left).
    lra.
  - destruct pre' as [|y pre']; simpl in E; inversion E; subst.
    + assert (Ha : (d r < d r')%Q) by (apply H1; now left).
      assert (Hb : (d r' <= d r)%Q)
        by (apply H4; apply in_or_app; right; now left).
      lra.
    + apply (IH pre'); auto.
      * intros z Hz. apply H1. now right.
      * intros z Hz. apply H3. now right.
Qed.

(** The rule the tolerance loop selects is the rule the last loop would
    select. *)
Lemma nearest_is_closest (w tol : Q) (l : list SizeRule) (r : SizeRule) :
  nearest_within_tolerance w tol l = Some r -> closest_rule w l = Some r.
Proof.
  intros H. pose proof (nearest_in w tol l r H) as [Hin Hle].
  unfold nearest_within_tolerance in H.
  destruct (nearest_split w tol l (ex_intro _ r (conj Hin Hle)))
    as (pre & r1 & post & Hl & _ & Hpre & Hpost & Hfold).
  rewrite Hfold in H. simpl in H. assert (r1 = r) by congruence. subst r1.
  assert (Hne : l <> []) by (intros ->; contradiction).
  destruct (closest_split w l (hd_error l) Hne)
    as (pre' & r' & post' & Hl' & Hpre' & Hpost' & Hfold').
  unfold closest_rule. rewrite Hfold'. simpl. f_equal.
  rewrite Hl in Hl'.
  symmetry. eapply (least_split_unique (boundary_diff w)); eauto.
Qed.

(** Outside every range the size is that of the rule of least distance,
    whatever the configuration. *)
Lemma fallback_size (w : Q) (f : FingerName) (rules : list SizeRule)
  (cfg : SizeRulesConfig) :
  exact_match w (sorted_relevant f rules) = None ->
  result_size (applyRulesToFinger w f rules cfg)
  = option_map mappedSize (closest_rule w (sorted_relevant f rules)).
Proof.
  intros He. unfold applyRulesToFinger. rewrite He.
  destruct (nearest_within_tolerance w (toleranceMm cfg)
              (sorted_relevant f rules)) as [r|] eqn:Hn.
  - apply nearest_is_closest in Hn. now rewrite Hn.
  - now destruct (closest_rule w (sorted_relevant f rules)).
Qed.

(** X3: the configuration never changes the size.  Two configurations give
    the same size for every width, finger and chart (or the matcher throws
    under both); the tolerance and the between-sizes policy only decide
    the fit label, and only where no applicable rule contains the width. *)
Theorem size_ignores_config (w : Q) (f : FingerName)
  (rules : list SizeRule) (cfg cfg' : SizeRulesConfig) :
  result_size (applyRulesToFinger w f rules cfg)
  = result_size (applyRulesToFinger w f rules cfg') /\
  (exact_match w (sorted_relevant f rules) <> None ->
   applyRulesToFinger w f rules cfg = applyRulesToFinger w f rules cfg').
Proof.
  split.
  - destruct (exact_match w (sorted_relevant f rules)) as [res|] eqn:He.
    + unfold applyRulesToFinger. now rewrite He.
    + now rewrite !fallback_size.
  - intros He. unfold applyRulesToFinger.
    now destruct (exact_match w (sorted_relevant f rules)).
Qed.

Lemma size_ignores_config_witness :
  result_size (applyRulesToFinger (11 # 1) ring [rule_all_10_12] default_config)
  = result_size (applyRulesToFinger (11 # 1) ring [rule_all_10_12]
                   zero_tolerance_config) /\
  applyRulesToFinger (11 # 1) ring [rule_all_10_12] default_config
  = applyRulesToFinger (11 # 1) ring [rule_all_10_12] zero_tolerance_config.
Proof.
  destruct (size_ignores_config (11 # 1) ring [rule_all_10_12]
              default_config zero_tolerance_config) as [H1 H2].
  split; [exact H1 | apply H2; discriminate].
Defined.

(** X4: a negative tolerance switches the tolerance branch off: whenever no
    applicable rule contains the width, the fit is [standard]. *)
Theorem negative_tolerance_is_last_resort (w : Q) (f : FingerName)
  (rules : list SizeRule) (cfg : SizeRulesConfig) (res : Z * FitLabel) :
  (toleranceMm cfg < 0)%Q ->
  exact_match w (sorted_relevant f rules) = None ->
  applyRulesToFinger w f rules cfg = Normal res ->
  nearest_within_tolerance w (toleranceMm cfg) (sorted_relevant f rules) = None /\
  snd res = standard.
Proof.
  intros Htol He Hres.
  assert (Hn : nearest_within_tolerance w (toleranceMm cfg)
                 (sorted_relevant f rules) = None).
  { unfold nearest_within_tolerance. rewrite nearest_skip; auto.
    intros x _. pose proof (boundary_diff_nonneg w x). lra. }
  split; auto.
  unfold applyRulesToFinger in Hres. rewrite He, Hn in Hres.
  destruct (closest_rule w (sorted_relevant f rules)); [|discriminate].
  now inversion Hres.
Qed.

Lemma negative_tolerance_is_last_resort_witness :
  nearest_within_tolerance (8 # 1) (toleranceMm negative_tolerance_config)
    (sorted_relevant pinky [rule_all_10_12]) = None /\
  snd (9, standard) = standard.
Proof.
  apply (negative_tolerance_is_last_resort (8 # 1) pinky [rule_all_10_12]
           negative_tolerance_config (9, standard));
    reflexivity.
Defined.

Lemma position_thresholds (p q : Q) :
  (p <= q)%Q ->
  fit_rank (if Qltb p (33 # 100) then snug
            else if Qltb (67 # 100) p then loose else standard)
  <= fit_rank (if Qltb q (33 # 100) then snug
               else if Qltb (67 # 100) q then loose else standard).
Proof.
  intros Hpq.
  destruct (Qltb p (33 # 100)) eqn:P1; destruct (Qltb q (33 # 100)) eqn:Q1;
    destruct (Qltb (67 # 100) p) eqn:P2; destruct (Qltb (67 # 100) q) eqn:Q2;
    simpl; try lia; exfalso;
    repeat match goal with
           | H : Qltb _ _ = true |- _ => apply Qltb_lt in H
           | H : Qltb _ _ = false |- _ => apply Qltb_ge in H
           end; lra.
Qed.

(** X5: within one rule the fit never gets tighter as the width grows: for
    [w1 <= w2] the fit of [w1] is at most the fit of [w2] in the order
    snug, standard, loose. *)
Theorem fit_monotone (r : SizeRule) (w1 w2 : Q) :
  (w1 <= w2)%Q -> fit_rank (exact_fit w1 r) <= fit_rank (exact_fit w2 r).
Proof.
  intros Hw. unfold exact_fit. cbv zeta.
  destruct (Qltb 0 (maxWidthMm r - minWidthMm r)) eqn:Hr.
  - apply position_thresholds. apply Qltb_lt in Hr.
    unfold Qdiv. apply Qmult_le_compat_r.
    + lra.
    + apply Qlt_le_weak. now apply Qinv_lt_0_compat.
  - apply position_thresholds. apply Qle_refl.
Qed.

Lemma fit_monotone_witness :
  fit_rank (exact_fit (10 # 1) rule_all_10_12)
  <= fit_rank (exact_fit (12 # 1) rule_all_10_12).
Proof.
  apply (fit_monotone rule_all_10_12 (10 # 1) (12 # 1)).
  vm_compute. discriminate.
Defined.



(** X7: rules of other fingers never influence a finger: inserting, anywhere
    in the chart, rules that do not apply to the finger leaves the result
    unchanged. *)
Theorem other_fingers_rules_ignored (w : Q) (f : FingerName)
  (pre extra post : list SizeRule) (cfg : SizeRulesConfig) :
  (forall x, In x extra -> is_relevant f x = false) ->
  applyRulesToFinger w f (pre ++ extra ++ post) cfg
  = applyRulesToFinger w f (pre ++ post) cfg.
Proof.
  intros H. unfold applyRulesToFinger, sorted_relevant.
  rewrite !filter_app.
  replace (filter (is_relevant f) extra) with (@nil SizeRule); [reflexivity|].
  symmetry. induction extra as [|x extra IH]; simpl; auto.
  rewrite (H x) by now left. apply IH. intros; apply H; now right.
Qed.

Lemma other_fingers_rules_ignored_witness :
  applyRulesToFinger (11 # 1) index
    ([rule_all_10_12] ++ [rule_thumb_105_115] ++ []) default_config
  = applyRulesToFinger (11 # 1) index ([rule_all_10_12] ++ []) default_config.
Proof.
  apply (other_fingers_rules_ignored (11 # 1) index [rule_all_10_12]
           [rule_thumb_105_115] [] default_config).
  intros x [<-|[]]. reflexivity.
Defined.

(* ================================================================== *)
(** * Further properties of the admin preview *)

(** What the per-finger body of the preview computes. *)
Lemma preview_size_find (w : Q) (f : FingerName) (rules : list SizeRule) :
  preview_size w f rules
  = match find (in_range w) (sorted_relevant f rules) with
    | Some r => mappedSize r
    | None => match hd_error (sorted_relevant f rules) with
              | Some r => mappedSize r
              | None => 5
              end
    end.
Proof.
  unfold preview_size. now rewrite preview_relevant_sorted, preview_loop_find.
Qed.

Lemma hd_error_find {A} (l : list A) : hd_error l = find (fun _ => true) l.
Proof. now destruct l. Qed.

(** X8: outside every range the preview does not look for the nearest
    rule: it shows the mapped size of the applicable rule that ranks first
    (highest priority, finger-specific before [all], earliest in the chart),
    however far its range is from the width, and 5 when no rule applies to
    the finger. *)
Theorem preview_fallback (w : Q) (f : FingerName) (rules : list SizeRule) :
  (forall x, In x rules -> is_relevant f x = true -> in_range w x = false) ->
  ((forall x, In x rules -> is_relevant f x = false) ->
   preview_size w f rules = 5) /\
  ((exists r0, In r0 rules /\ is_relevant f r0 = true) ->
   exists pre r post,
     rules = pre ++ r :: post /\ is_relevant f r = true /\
     (forall x, In x pre -> is_relevant f x = true -> outranks f r x) /\
     (forall x, In x post -> is_relevant f x = true -> ~ outranks f x r) /\
     preview_size w f rules = mappedSize r).
Proof.
  intros Hout.
  assert (Hfind : find (in_range w) (sorted_relevant f rules) = None).
  { destruct (find (in_range w) (sorted_relevant f rules)) as [r|] eqn:E; auto.
    apply find_some in E as [Hr Hin].
    apply sorted_relevant_In in Hr as [Hr Hrel].
    rewrite (Hout r Hr Hrel) in Hin. discriminate. }
  rewrite preview_size_find, Hfind. split.
  - intros Hnone. now rewrite (sorted_relevant_nil f rules Hnone).
  - intros (r0 & Hin & Hrel).
    destruct (first_best_split rule_key
                (fun x => is_relevant f x && true) rules)
      as (pre & r & post & Hsplit & Hr & Hpre & Hpost & Hbest).
    { exists r0. split; auto. now rewrite Hrel. }
    rewrite andb_true_r in Hr.
    rewrite hd_error_find, find_sorted_relevant, Hbest.
    exists pre, r, post. repeat split; auto.
    + intros x Hx Hx1. apply outranks_key; auto.
      apply Hpre; auto. now rewrite Hx1.
    + intros x Hx Hx1 Ho. apply outranks_key in Ho; auto.
      assert (rule_key r <= rule_key x) by (apply Hpost; auto; now rewrite Hx1).
      lia.
Qed.

Lemma preview_fallback_witness :
  ((forall x, In x [rule_all_10_12; rule_thumb_105_115] ->
              is_relevant thumb x = false) ->
   preview_size (20 # 1) thumb [rule_all_10_12; rule_thumb_105_115] = 5) /\
  ((exists r0, In r0 [rule_all_10_12; rule_thumb_105_115] /\
               is_relevant thumb r0 = true) ->
   exists pre r post,
     [rule_all_10_12; rule_thumb_105_115] = pre ++ r :: post /\
     is_relevant thumb r = true /\
     (forall x, In x pre -> is_relevant thumb x = true -> outranks thumb r x) /\
     (forall x, In x post -> is_relevant thumb x = true ->
                ~ outranks thumb x r) /\
     preview_size (20 # 1) thumb [rule_all_10_12; rule_thumb_105_115]
     = mappedSize r).
Proof.
  apply (preview_fallback (20 # 1) thumb [rule_all_10_12; rule_thumb_105_115]).
  intros x [<-|[<-|[]]] _; reflexivity.
Defined.

(** The preview and the live matcher outside the ranges: width 20 is nearer
    to [rule_all_10_12] but the preview answers with the higher-priority
    thumb rule. *)
Example preview_differs_outside_ranges :
  preview_size (20 # 1) thumb [rule_all_10_12; rule_thumb_105_115] = 5 /\
  applyRulesToFinger (20 # 1) thumb [rule_all_10_12; rule_thumb_105_115]
    default_config = Normal (9, standard).
Proof. split; reflexivity. Qed.

Lemma preview_size_matches (w : Q) (f : FingerName) (rules : list SizeRule)
  (cfg : SizeRulesConfig) (s : Z) (ft : FitLabel) :
  (exists r, In r rules /\ is_relevant f r = true /\ in_range w r = true) ->
  applyRulesToFinger w f rules cfg = Normal (s, ft) ->
  preview_size w f rules = s.
Proof.
  intros (r0 & Hin & Hrel & Hrange) Happ.
  rewrite preview_size_find. unfold applyRulesToFinger in Happ.
  rewrite exact_match_find in Happ.
  destruct (find (in_range w) (sorted_relevant f rules)) as [r|] eqn:E.
  - simpl in Happ. congruence.
  - exfalso.
    assert (H : In r0 (sorted_relevant f rules)) by now apply sorted_relevant_In.
    pose proof (find_none _ _ E r0 H) as N. simpl in N. congruence.
Qed.

(** X9: when every finger of a measurement has its curve-adjusted width
    inside the range of a rule that applies to it, the preview route, given
    those five widths, and the recommend route, given the measurement,
    answer with the same size profile. *)
Theorem preview_profile_agrees (id : string) (d : Db) m rows
  (fd : FingerName -> FingerData) :
  id <> "" ->
  select_measurement id d = m :: rows ->
  (forall n, fingers m n = Some (fd n)) ->
  (forall n, exists r, In r (select_rules d) /\ is_relevant n r = true /\
                       in_range (curve_adj_width_mm (fd n)) r = true) ->
  exists profile pf ms d' recommended,
    run_recommend (Json (Some id)) d
    = (Normal (JsonOk id profile pf ms), d', recommend_trace) /\
    preview_post
      (PreviewJson (Some (fun n => Some (curve_adj_width_mm (fd n))))) d
    = (PreviewOk recommended profile,
       [Select TsizeRules; Select TsizeRulesConfig; Select TnailSizes]).
Proof.
  intros Hid Hm Hf Hin.
  destruct (composer_profile id d m rows fd Hid Hm Hf)
    as (sz & pf & ms & d' & Hsz & Hrun).
  { intros n. destruct (Hin n) as (r & ? & ? & _). eauto. }
  assert (Hprev : forall n,
            preview_size (curve_adj_width_mm (fd n)) n (select_rules d) = sz n).
  { intros n. destruct (Hsz n) as [ft Happ].
    eapply preview_size_matches; eauto. }
  do 5 eexists. split; [exact Hrun|].
  unfold preview_post, fingerNames, preview_measurement. cbn [filter List.length Nat.ltb Nat.leb map fst snd].
  rewrite !Hprev. reflexivity.
Qed.

Lemma preview_profile_agrees_witness :
  exists profile pf ms d' recommended,
    run_recommend (Json (Some "msr_1")) db_all_rule
    = (Normal (JsonOk "msr_1" profile pf ms), d', recommend_trace) /\
    preview_post
      (PreviewJson (Some (fun n => Some (curve_adj_width_mm finger_11))))
      db_all_rule
    = (PreviewOk recommended profile,
       [Select TsizeRules; Select TsizeRulesConfig; Select TnailSizes]).
Proof.
  apply (preview_profile_agrees "msr_1" db_all_rule full_measurement
           [] (fun _ => finger_11)).
  - discriminate.
  - reflexivity.
  - reflexivity.
  - intros n. exists rule_all_10_12.
    split; [left; reflexivity | split; [now destruct n | reflexivity]].
Defined.

(* ================================================================== *)
(** * Properties of the rate limiter *)

Lemma store_set_same (store : Store) (key : string) (e : RateLimitEntry) :
  store_set store key e key = Some e.
Proof. unfold store_set. now rewrite String.eqb_refl. Qed.

(** Inside a window exactly the remaining quota passes. *)
Lemma run_in_window (maxRequests windowMs : Z) (key : string)
  (times : list Z) :
  forall (store : Store) (e : RateLimitEntry),
    store key = Some e ->
    (forall t, In t times -> t <= resetAt e) ->
    passes (fst (run_limiter maxRequests windowMs key times store))
    = Z.min (Z.of_nat (List.length times)) (Z.max 0 (maxRequests - count e)).
Proof.
  induction times as [|t times IH]; intros store e He Hin.
  - unfold passes. cbn [run_limiter fst filter List.length Z.of_nat]. lia.
  - assert (Ht : t <= resetAt e) by (apply Hin; now left).
    assert (Hrest : forall u, In u times -> u <= resetAt e)
      by (intros; apply Hin; now right).
    cbn [run_limiter]. unfold rateLimiter. rewrite He.
    destruct (Z.gtb_spec t (resetAt e)) as [Hgt|_]; [lia|].
    destruct (Z.geb_spec (count e) maxRequests) as [Hfull|Hfree].
    + specialize (IH store e He Hrest).
      destruct (run_limiter maxRequests windowMs key times store)
        as [more store''].
      unfold passes in *. cbn [fst filter passed] in *.
      rewrite IH. cbn [List.length]. lia.
    + specialize (IH (store_set store key (mkEntry (count e + 1) (resetAt e)))
                     (mkEntry (count e + 1) (resetAt e))
                     (store_set_same _ _ _) Hrest).
      destruct (run_limiter maxRequests windowMs key times
                  (store_set store key (mkEntry (count e + 1) (resetAt e))))
        as [more store''].
      unfold passes in *. cbn [fst filter passed List.length count] in *.
      rewrite Nat2Z.inj_succ, IH. cbn [List.length]. lia.
Qed.

(** X14: from the request that opens a window (no entry for the bucket, or
    an entry whose window is over), of the requests of that bucket that
    arrive until the window ends exactly [max(1, maxRequests)] pass when
    that many arrive, and all of them pass when fewer do: the opening
    request always passes, even with [maxRequests = 0]. *)
Theorem window_quota (maxRequests windowMs : Z) (key : string)
  (t0 : Z) (rest : list Z) (store : Store) :
  (store key = None \/ exists e, store key = Some e /\ resetAt e < t0) ->
  (forall t, In t rest -> t <= t0 + windowMs) ->
  passes (fst (run_limiter maxRequests windowMs key (t0 :: rest) store))
  = Z.min (1 + Z.of_nat (List.length rest)) (Z.max 1 maxRequests).
Proof.
  intros Hopen Hrest. cbn [run_limiter].
  assert (Hfresh : rateLimiter maxRequests windowMs key t0 store
                   = (Next maxRequests (maxRequests - 1),
                      store_set store key (mkEntry 1 (t0 + windowMs)))).
  { unfold rateLimiter. destruct Hopen as [->|(e & -> & He)]; auto.
    destruct (Z.gtb_spec t0 (resetAt e)); [reflexivity | lia]. }
  rewrite Hfresh.
  pose proof (run_in_window maxRequests windowMs key rest
                (store_set store key (mkEntry 1 (t0 + windowMs)))
                (mkEntry 1 (t0 + windowMs)) (store_set_same _ _ _) Hrest) as H.
  destruct (run_limiter maxRequests windowMs key rest
              (store_set store key (mkEntry 1 (t0 + windowMs))))
    as [more store''].
  unfold passes in *. cbn [fst filter passed List.length count] in *.
  rewrite Nat2Z.inj_succ, H. lia.
Qed.

Lemma window_quota_witness :
  passes (fst (run_limiter 2 60000 "1.2.3.4:recommend"
                 [1000; 2000; 3000; 61000] (fun _ => None)))
  = Z.min (1 + Z.of_nat (List.length [2000; 3000; 61000])) (Z.max 1 2).
Proof.
  apply (window_quota 2 60000 "1.2.3.4:recommend" 1000
           [2000; 3000; 61000] (fun _ => None)).
  - left. reflexivity.
  - intros t [<-|[<-|[<-|[]]]]; lia.
Defined.

Lemma ceil_seconds_bounds (ms : Z) :
  ms <= 1000 * ceil_seconds ms < ms + 1000.
Proof.
  unfold ceil_seconds.
  pose proof (Z.div_mod (- ms) 1000 ltac:(lia)) as Hdm.
  pose proof (Z.mod_pos_bound (- ms) 1000 ltac:(lia)) as Hb.
  lia.
Qed.

(** X15: a rejected request leaves the store as it is, and the
    [Retry-After] it is given is the remaining time of the window rounded
    up to whole seconds.  A request of the bucket that comes later than
    that many seconds opens a new window and passes; one that comes after
    exactly that many seconds, when the remaining time was a whole number
    of seconds, is rejected again, with [Retry-After: 0], because the
    window only ends when [now > resetAt]. *)
Theorem retry_after_edge (maxRequests windowMs : Z) (key : string) (now : Z)
  (store : Store) (e : RateLimitEntry) :
  store key = Some e -> now <= resetAt e -> maxRequests <= count e ->
  let ra := ceil_seconds (resetAt e - now) in
  rateLimiter maxRequests windowMs key now store = (TooMany ra, store) /\
  0 <= ra /\ resetAt e - now <= 1000 * ra < resetAt e - now + 1000 /\
  (forall later, now + 1000 * ra < later ->
     fst (rateLimiter maxRequests windowMs key later store)
     = Next maxRequests (maxRequests - 1)) /\
  ((resetAt e - now) mod 1000 = 0 ->
   fst (rateLimiter maxRequests windowMs key (now + 1000 * ra) store)
   = TooMany 0).
Proof.
  intros He Hnow Hfull ra.
  pose proof (ceil_seconds_bounds (resetAt e - now)) as Hb. fold ra in Hb.
  assert (Hfullb : (count e >=? maxRequests) = true)
    by (destruct (Z.geb_spec (count e) maxRequests); [reflexivity | lia]).
  repeat split; try lia.
  - unfold rateLimiter. rewrite He, Hfullb.
    destruct (Z.gtb_spec now (resetAt e)); [lia | reflexivity].
  - intros later Hlater. unfold rateLimiter. rewrite He.
    destruct (Z.gtb_spec later (resetAt e)); [reflexivity | lia].
  - intros Hmod.
    assert (Hexact : 1000 * ra = resetAt e - now).
    { unfold ra, ceil_seconds.
      pose proof (Z.div_mod (- (resetAt e - now)) 1000 ltac:(lia)) as Hdm.
      assert (Hm : (- (resetAt e - now)) mod 1000 = 0).
      { apply Z.mod_divide; [lia|]. apply Z.divide_opp_r.
        apply Z.mod_divide; [lia | exact Hmod]. }
      lia. }
    unfold rateLimiter. rewrite He, Hfullb.
    destruct (Z.gtb_spec (now + 1000 * ra) (resetAt e)); [lia|].
    replace (resetAt e - (now + 1000 * ra)) with 0 by lia. reflexivity.
Qed.

Lemma retry_after_edge_witness :
  rateLimiter 1 60000 "ip:measure" 2000
    (store_set (fun _ => None) "ip:measure" (mkEntry 1 5000))
  = (TooMany (ceil_seconds (resetAt (mkEntry 1 5000) - 2000)),
     store_set (fun _ => None) "ip:measure" (mkEntry 1 5000)) /\
  0 <= ceil_seconds (resetAt (mkEntry 1 5000) - 2000) /\
  resetAt (mkEntry 1 5000) - 2000
  <= 1000 * ceil_seconds (resetAt (mkEntry 1 5000) - 2000)
  < resetAt (mkEntry 1 5000) - 2000 + 1000 /\
  (forall later,
     2000 + 1000 * ceil_seconds (resetAt (mkEntry 1 5000) - 2000) < later ->
     fst (rateLimiter 1 60000 "ip:measure" later
            (store_set (fun _ => None) "ip:measure" (mkEntry 1 5000)))
     = Next 1 (1 - 1)) /\
  ((resetAt (mkEntry 1 5000) - 2000) mod 1000 = 0 ->
   fst (rateLimiter 1 60000 "ip:measure"
          (2000 + 1000 * ceil_seconds (resetAt (mkEntry 1 5000) - 2000))
          (store_set (fun _ => None) "ip:measure" (mkEntry 1 5000)))
   = TooMany 0).
Proof.
  apply (retry_after_edge 1 60000 "ip:measure" 2000
           (store_set (fun _ => None) "ip:measure" (mkEntry 1 5000))
           (mkEntry 1 5000)).
  - reflexivity.
  - simpl. lia.
  - simpl. lia.
Defined.

(** X16: the periodic sweep is invisible: for a request that comes no
    earlier than the sweep, the limiter decides the same and leaves the
    same entry for the bucket whether or not the stale entries were
    evicted. *)
Theorem eviction_is_transparent (maxRequests windowMs : Z) (key : string)
  (sweep now : Z) (store : Store) :
  sweep <= now ->
  fst (rateLimiter maxRequests windowMs key now (evict sweep store))
  = fst (rateLimiter maxRequests windowMs key now store) /\
  snd (rateLimiter maxRequests windowMs key now (evict sweep store)) key
  = snd (rateLimiter maxRequests windowMs key now store) key.
Proof.
  intros Hle.
  assert (Hev : evict sweep store key
                = match store key with
                  | Some e => if sweep >? resetAt e then None else Some e
                  | None => None
                  end) by reflexivity.
  unfold rateLimiter. rewrite Hev.
  destruct (store key) as [e|] eqn:He.
  - destruct (Z.gtb_spec sweep (resetAt e)) as [Hs|Hs].
    + destruct (Z.gtb_spec now (resetAt e)); [|lia].
      cbn [fst snd]. now rewrite !store_set_same.
    + destruct (Z.gtb_spec now (resetAt e)).
      * cbn [fst snd]. now rewrite !store_set_same.
      * destruct (count e >=? maxRequests); cbn [fst snd].
        -- split; auto. now rewrite Hev, He.
        -- now rewrite !store_set_same.
  - cbn [fst snd]. now rewrite !store_set_same.
Qed.

Lemma eviction_is_transparent_witness :
  fst (rateLimiter 10 60000 "ip:validate" 9000
         (evict 8000 (store_set (fun _ => None) "ip:validate" (mkEntry 3 5000))))
  = fst (rateLimiter 10 60000 "ip:validate" 9000
           (store_set (fun _ => None) "ip:validate" (mkEntry 3 5000))) /\
  snd (rateLimiter 10 60000 "ip:validate" 9000
         (evict 8000 (store_set (fun _ => None) "ip:validate" (mkEntry 3 5000))))
    "ip:validate"
  = snd (rateLimiter 10 60000 "ip:validate" 9000
           (store_set (fun _ => None) "ip:validate" (mkEntry 3 5000)))
      "ip:validate".
Proof.
  apply (eviction_is_transparent 10 60000 "ip:validate" 8000 9000
           (store_set (fun _ => None) "ip:validate" (mkEntry 3 5000))).
  lia.
Defined.

(* ================================================================== *)
(** * Further properties of the recommend route *)

(** The finger loop is a function of its arguments alone. *)
Lemma finger_loop_pure names fingers_ rules cfg rows pf :
  exists out, forall d tr,
    finger_loop names fingers_ rules cfg rows pf d tr = (out, d, tr).
Proof.
  revert pf. induction names as [|n names IH]; intros pf; simpl.
  - eexists; reflexivity.
  - destruct (fingers_ n) as [fd|]; [|eexists; reflexivity].
    unfold bind, liftC.
    destruct (applyRulesToFinger (curve_adj_width_mm fd) n rules cfg)
      as [[sz ft]|e]; [apply IH | eexists; reflexivity].
Qed.

Lemma with_recommendations_id (d : Db) :
  with_recommendations d (recommendations d) = d.
Proof. now destruct d. Qed.

(** Queries on a database that differs only in [recommendations]. *)
Ltac forget_history :=
  repeat match goal with
         | |- context [select_measurement ?i (with_recommendations ?d ?t)] =>
             change (select_measurement i (with_recommendations d t))
               with (select_measurement i d)
         | |- context [select_rules (with_recommendations ?d ?t)] =>
             change (select_rules (with_recommendations d t))
               with (select_rules d)
         | |- context [select_config (with_recommendations ?d ?t)] =>
             change (select_config (with_recommendations d t))
               with (select_config d)
         | |- context [select_nailSizes (with_recommendations ?d ?t)] =>
             change (select_nailSizes (with_recommendations d t))
               with (select_nailSizes d)
         | |- context [select_sets (with_recommendations ?d ?t)] =>
             change (select_sets (with_recommendations d t))
               with (select_sets d)
         end.

(** Runs the handler in the goal up to the result of the finger loop. *)
Ltac run_to_loop d Hm Hr Hloop :=
  rewrite bind_ret, bind_select; forget_history;
  rewrite Hm, bind_ret, bind_select; forget_history;
  rewrite Hr; cbn [List.length Nat.eqb];
  rewrite bind_ret, !bind_select; forget_history;
  fold (effective_config d); unfold bind at 1; rewrite Hloop.

(** The handler never reads [recommendations]: on a database that differs
    only in that table it answers the same, issues the same queries and
    appends the same rows. *)
Lemma recommend_post_uniform (body : ReqBody) (d : Db) :
  exists out tr suffix,
    forall t,
      recommend_post body (with_recommendations d t) []
      = (out, with_recommendations d (t ++ suffix), tr).
Proof.
  assert (Hleaf : forall (out : Outcome Response) (tr : list DbOp),
            exists out' tr' suffix,
              forall t,
                (out, with_recommendations d t, tr)
                = (out', with_recommendations d (t ++ suffix), tr')).
  { intros out tr. exists out, tr, []. intros t. now rewrite app_nil_r. }
  unfold recommend_post.
  destruct body as [| |[[|c id]|]]; try apply Hleaf.
  destruct (select_measurement (String c id) d) as [|m rows] eqn:Hm.
  { eexists _, _, []. intros t.
    rewrite bind_ret, bind_select. forget_history.
    rewrite Hm, bind_respond, app_nil_r. reflexivity. }
  destruct (select_rules d) as [|r0 rules0] eqn:Hr.
  { eexists _, _, []. intros t.
    rewrite bind_ret, bind_select. forget_history.
    rewrite Hm, bind_ret, bind_select. forget_history.
    rewrite Hr. cbn [List.length Nat.eqb].
    rewrite bind_respond, app_nil_r. reflexivity. }
  destruct (finger_loop_pure fingerNames (fingers m) (r0 :: rules0)
              (effective_config d) (select_nailSizes d) []) as [out Hloop].
  destruct out as [pf|resp|e];
    [|eexists _, _, []; intros t; run_to_loop d Hm Hr Hloop;
      rewrite app_nil_r; reflexivity ..].
  destruct (sizeProfile pf) as [profile|e] eqn:Hp;
    [|eexists _, _, []; intros t; run_to_loop d Hm Hr Hloop;
      rewrite bind_liftC, Hp, app_nil_r; reflexivity].
  destruct (matchingSets pf (select_sets d)) as [ms|e] eqn:Hms;
    [|eexists _, _, []; intros t; run_to_loop d Hm Hr Hloop;
      rewrite bind_liftC, Hp, bind_select; forget_history;
      rewrite bind_liftC, Hms, app_nil_r; reflexivity].
  destruct (sizesJson pf) as [sizes_|e] eqn:Hs;
    [|eexists _, _, []; intros t; run_to_loop d Hm Hr Hloop;
      rewrite bind_liftC, Hp, bind_select; forget_history;
      rewrite bind_liftC, Hms, bind_liftC, Hs, app_nil_r; reflexivity].
  eexists _, _, [_]. intros t. run_to_loop d Hm Hr Hloop.
  rewrite bind_liftC, Hp, bind_select. forget_history.
  rewrite bind_liftC, Hms, bind_liftC, Hs.
  unfold bind, insert_recommendation, ret. reflexivity.
Qed.

Lemma run_recommend_uniform (body : ReqBody) (d : Db) :
  exists out tr suffix,
    forall t,
      run_recommend body (with_recommendations d t)
      = (out, with_recommendations d (t ++ suffix), tr).
Proof.
  destruct (recommend_post_uniform body d) as (out & tr & suffix & H).
  unfold run_recommend.
  destruct out as [r|r|e];
    [exists (Normal r) | exists (Normal r) | exists (Throw e)];
    exists tr, suffix; intros t; now rewrite H.
Qed.

(** X17: the answer of the recommend route does not depend on the
    recommendations made before: on databases that differ only in the
    [recommendations] table the response and the queries are the same.
    Asking again with nothing else changed therefore gives the same
    response, and a second successful run appends the same row once
    more. *)
Theorem rerun_is_stable (body : ReqBody) (d : Db) (t : list Recommendation) :
  fst (fst (run_recommend body (with_recommendations d t)))
  = fst (fst (run_recommend body d)) /\
  snd (run_recommend body (with_recommendations d t))
  = snd (run_recommend body d) /\
  fst (fst (run_recommend body (snd (fst (run_recommend body d)))))
  = fst (fst (run_recommend body d)) /\
  exists suffix,
    recommendations (snd (fst (run_recommend body d)))
    = recommendations d ++ suffix /\
    recommendations
      (snd (fst (run_recommend body (snd (fst (run_recommend body d))))))
    = recommendations d ++ suffix ++ suffix.
Proof.
  destruct (run_recommend_uniform body d) as (out & tr & suffix & H).
  assert (Hd : run_recommend body d
               = (out, with_recommendations d (recommendations d ++ suffix), tr)).
  { rewrite <- (with_recommendations_id d) at 1. apply H. }
  rewrite Hd, !H. cbn [fst snd].
  rewrite (H (recommendations d ++ suffix)). cbn [fst snd].
  repeat split; auto.
  exists suffix. cbn [recommendations with_recommendations].
  split; [reflexivity | now rewrite app_assoc].
Qed.

(** Once the measurement is found the route answers neither 404 nor the
    missing-id error. *)
Lemma found_responses (id : string) (d : Db) m rows :
  id <> EmptyString ->
  select_measurement id d = m :: rows ->
  fst (fst (run_recommend (Json (Some id)) d)) <> Normal not_found_response /\
  fst (fst (run_recommend (Json (Some id)) d))
  <> Normal (JsonError 400 "validation_error" "measurement_id is required").
Proof.
  intros Hid Hm. unfold run_recommend.
  remember (recommend_post (Json (Some id)) d []) as res eqn:Hres.
  unfold recommend_post in Hres.
  destruct id as [|c id']; [congruence|]. step_handler Hres.
  rewrite Hm in Hres. step_handler Hres.
  destruct (select_rules d) as [|r0 rules0]; cbn [List.length Nat.eqb] in Hres;
    step_handler Hres.
  { subst res. split; discriminate. }
  unfold bind at 1 in Hres.
  match type of Hres with
  | context [finger_loop ?a ?b ?c ?e ?g ?h ?i ?j] =>
      destruct (finger_loop a b c e g h i j) as [[out d'] tr'] eqn:Hloop
  end.
  destruct out as [pf|resp|e].
  - step_handler Hres.
    destruct (sizeProfile pf); step_handler Hres;
      [|subst res; split; discriminate].
    destruct (matchingSets pf (select_sets d')); step_handler Hres;
      [|subst res; split; discriminate].
    destruct (sizesJson pf); step_handler Hres;
      [|subst res; split; discriminate].
    subst res. unfold bind, insert_recommendation, ret.
    split; discriminate.
  - apply finger_loop_respond in Hloop as (n & _ & _ & ->).
    subst res. split; [discriminate | destruct n; discriminate].
  - subst res. split; discriminate.
Qed.

(** The route answers 404 exactly when no measurement has the id. *)
Lemma not_found_iff (id : string) (d : Db) :
  id <> EmptyString ->
  (fst (fst (run_recommend (Json (Some id)) d)) = Normal not_found_response
   <-> select_measurement id d = []).
Proof.
  intros Hid.
  destruct (select_measurement id d) as [|m rows] eqn:Hm.
  - split; auto. intros _. unfold run_recommend, recommend_post.
    destruct id as [|c id']; [congruence|].
    rewrite bind_ret, bind_select, Hm, bind_respond. reflexivity.
  - split; [|discriminate].
    intros H. now destruct (found_responses id d m rows Hid Hm).
Qed.

(** X18: insert and look-up of measurements.  A measurement stored under an
    id that [generateMeasurementId] produced and that no stored row has is
    the one row the recommend route finds for that id, so the route does
    not answer 404 for it (nor reject the id as missing); look-ups of other
    ids are unchanged. *)
Theorem stored_measurement_is_found (d : Db) (row : Measurement)
  (random : string) :
  msr_id row = generateMeasurementId random ->
  (forall m, In m (measurements d) -> msr_id m <> msr_id row) ->
  let d' := with_measurements d (measurements d ++ [row]) in
  select_measurement (msr_id row) d' = [row] /\
  (forall id, id <> msr_id row ->
              select_measurement id d' = select_measurement id d) /\
  fst (fst (run_recommend (Json (Some (msr_id row))) d'))
  <> Normal not_found_response /\
  fst (fst (run_recommend (Json (Some (msr_id row))) d'))
  <> Normal (JsonError 400 "validation_error" "measurement_id is required").
Proof.
  intros Hid Hfresh d'.
  assert (Hsel : select_measurement (msr_id row) d' = [row]).
  { unfold select_measurement, d'. cbn [measurements with_measurements].
    rewrite filter_app. cbn [filter]. rewrite String.eqb_refl.
    replace (filter (fun m => String.eqb (msr_id m) (msr_id row))
               (measurements d)) with (@nil Measurement); [reflexivity|].
    symmetry. clear - Hfresh.
    induction (measurements d) as [|m l IH]; simpl; auto.
    rewrite (proj2 (String.eqb_neq _ _)) by (apply Hfresh; now left).
    apply IH. intros; apply Hfresh; now right. }
  assert (Hne : msr_id row <> EmptyString)
    by (rewrite Hid; discriminate).
  split; [exact Hsel|]. split.
  - intros id Hneq. unfold select_measurement, d'.
    cbn [measurements with_measurements]. rewrite filter_app. cbn [filter].
    rewrite (proj2 (String.eqb_neq _ _)) by congruence.
    now rewrite app_nil_r.
  - exact (found_responses (msr_id row) d' row [] Hne Hsel).
Qed.

Lemma stored_measurement_is_found_witness :
  select_measurement (msr_id (mkMeasurement "msr_abc123def456"
                                (fun _ => Some finger_11)))
    (with_measurements db_all_rule
       (measurements db_all_rule
        ++ [mkMeasurement "msr_abc123def456" (fun _ => Some finger_11)]))
  = [mkMeasurement "msr_abc123def456" (fun _ => Some finger_11)] /\
  (forall id,
     id <> msr_id (mkMeasurement "msr_abc123def456" (fun _ => Some finger_11)) ->
     select_measurement id
       (with_measurements db_all_rule
          (measurements db_all_rule
           ++ [mkMeasurement "msr_abc123def456" (fun _ => Some finger_11)]))
     = select_measurement id db_all_rule) /\
  fst (fst (run_recommend
              (Json (Some (msr_id (mkMeasurement "msr_abc123def456"
                                     (fun _ => Some finger_11)))))
              (with_measurements db_all_rule
                 (measurements db_all_rule
                  ++ [mkMeasurement "msr_abc123def456"
                        (fun _ => Some finger_11)]))))
  <> Normal not_found_response /\
  fst (fst (run_recommend
              (Json (Some (msr_id (mkMeasurement "msr_abc123def456"
                                     (fun _ => Some finger_11)))))
              (with_measurements db_all_rule
                 (measurements db_all_rule
                  ++ [mkMeasurement "msr_abc123def456"
                        (fun _ => Some finger_11)]))))
  <> Normal (JsonError 400 "validation_error" "measurement_id is required").
Proof.
  apply (stored_measurement_is_found db_all_rule
           (mkMeasurement "msr_abc123def456" (fun _ => Some finger_11))
           "abc123def456").
  - reflexivity.
  - intros m [<-|[<-|[]]]; discriminate.
Defined.

(** X19: a request with a non-empty measurement id is answered 404
    [not_found] exactly when no stored measurement has that id, whatever
    the rules, the configuration and the sets are. *)
Theorem not_found_exactly_when_unknown (id : string) (d : Db) :
  id <> EmptyString ->
  (fst (fst (run_recommend (Json (Some id)) d)) = Normal not_found_response
   <-> select_measurement id d = []).
Proof. apply not_found_iff. Qed.

Lemma not_found_exactly_when_unknown_witness :
  fst (fst (run_recommend (Json (Some "msr_9")) db_all_rule))
  = Normal not_found_response
  <-> select_measurement "msr_9" db_all_rule = [].
Proof.
  apply (not_found_exactly_when_unknown "msr_9" db_all_rule). discriminate.
Defined.

(** X20: the whole successful run.  For a stored measurement with all five
    fingers and a chart with a rule for every finger, the response and the
    stored row describe the same result: each finger's size and fit are
    what the matcher returns on its curve-adjusted width, [width_mm] in the
    response is that curve-adjusted width, the label is the one
    [sizeLabel] resolves, the profile joins the five sizes, and the row
    holds the same sizes, labels and fits with the id of the first ranked
    set. *)
Theorem recommend_success (id : string) (d : Db) m rows
  (fd : FingerName -> FingerData) :
  id <> EmptyString ->
  select_measurement id d = m :: rows ->
  (forall n, fingers m n = Some (fd n)) ->
  (forall n, exists r, In r (select_rules d) /\ is_relevant n r = true) ->
  exists (sz : FingerName -> Z) (ft : FingerName -> FitLabel),
    (forall n,
       applyRulesToFinger (curve_adj_width_mm (fd n)) n (select_rules d)
         (effective_config d) = Normal (sz n, ft n)) /\
    let res := fun n =>
      mkFingerResult (sz n) (sizeLabel (select_nailSizes d) (sz n))
        (curve_adj_width_mm (fd n)) (ft n) in
    let ranked :=
      array_sort (fun a b => ms_diff a - ms_diff b)
        (filter (fun s => ms_diff s <=? 2)
           (map (ranked_entry sz) (select_sets d))) in
    let profile :=
      (String_of_Z (sz thumb) ++ "-" ++ String_of_Z (sz index) ++ "-"
       ++ String_of_Z (sz middle) ++ "-" ++ String_of_Z (sz ring) ++ "-"
       ++ String_of_Z (sz pinky))%string in
    run_recommend (Json (Some id)) d
    = (Normal
         (JsonOk id profile
            (perFinger_of (res thumb) (res index) (res middle) (res ring)
               (res pinky))
            (map (fun s => (ms_set_name s, ms_set_id s, ms_exact_match s,
                            ms_diff s)) ranked)),
       with_recommendations d
         (recommendations d
          ++ [mkRecommendation id "default" profile
                (map (fun n => (n, (size (res n), size_label (res n),
                                    fit (res n)))) fingerNames)
                (bestMatchSetId ranked)]),
       recommend_trace).
Proof.
  intros Hid Hm Hf Hrel.
  destruct (finger_loop_complete (fingers m) fd (select_rules d)
              (effective_config d) (select_nailSizes d) d four_reads Hf Hrel)
    as (sz & ft & Hsz & Hloop).
  exists sz, ft. split; [exact Hsz|]. cbv zeta.
  unfold run_recommend.
  remember (recommend_post (Json (Some id)) d []) as res eqn:Hres.
  unfold recommend_post in Hres.
  destruct id as [|c id']; [congruence|]. step_handler Hres.
  rewrite Hm in Hres. step_handler Hres.
  destruct (Hrel thumb) as (r & Hr & _).
  destruct (select_rules d) as [|r0 rules0] eqn:Er; [contradiction|].
  cbn [List.length Nat.eqb] in Hres. step_handler Hres.
  unfold bind at 1 in Hres. fold (effective_config d) in Hres.
  cbn [app] in Hres. unfold four_reads in Hloop. rewrite Hloop in Hres.
  step_handler Hres. rewrite sizeProfile_of in Hres. step_handler Hres.
  rewrite matchingSets_ranked in Hres. step_handler Hres.
  rewrite sizesJson_of in Hres. step_handler Hres.
  subst res. reflexivity.
Qed.

Lemma recommend_success_witness :
  exists (sz : FingerName -> Z) (ft : FingerName -> FitLabel),
    (forall n,
       applyRulesToFinger (curve_adj_width_mm finger_11) n
         (select_rules db_all_rule) (effective_config db_all_rule)
       = Normal (sz n, ft n)) /\
    let res := fun n =>
      mkFingerResult (sz n) (sizeLabel (select_nailSizes db_all_rule) (sz n))
        (curve_adj_width_mm finger_11) (ft n) in
    let ranked :=
      array_sort (fun a b => ms_diff a - ms_diff b)
        (filter (fun s => ms_diff s <=? 2)
           (map (ranked_entry sz) (select_sets db_all_rule))) in
    let profile :=
      (String_of_Z (sz thumb) ++ "-" ++ String_of_Z (sz index) ++ "-"
       ++ String_of_Z (sz middle) ++ "-" ++ String_of_Z (sz ring) ++ "-"
       ++ String_of_Z (sz pinky))%string in
    run_recommend (Json (Some "msr_1")) db_all_rule
    = (Normal
         (JsonOk "msr_1" profile
            (perFinger_of (res thumb) (res index) (res middle) (res ring)
               (res pinky))
            (map (fun s => (ms_set_name s, ms_set_id s, ms_exact_match s,
                            ms_diff s)) ranked)),
       with_recommendations db_all_rule
         (recommendations db_all_rule
          ++ [mkRecommendation "msr_1" "default" profile
                (map (fun n => (n, (size (res n), size_label (res n),
                                    fit (res n)))) fingerNames)
                (bestMatchSetId ranked)]),
       recommend_trace).
Proof.
  apply (recommend_success "msr_1" db_all_rule full_measurement []
           (fun _ => finger_11)).
  - discriminate.
  - reflexivity.
  - reflexivity.
  - intros n. exists rule_all_10_12.
    split; [left; reflexivity | now destruct n].
Defined.

(* ================================================================== *)
(** * Further properties of the set matcher *)

Lemma hamming_nonneg (recommended : FingerName -> Z) (s : SizeSet) :
  0 <= hamming recommended s <= 5.
Proof.
  unfold hamming.
  destruct (recommended thumb =? thumbSize s),
    (recommended index =? indexSize s),
    (recommended middle =? middleSize s),
    (recommended ring =? ringSize s),
    (recommended pinky =? pinkySize s); lia.
Qed.

Lemma find_split {A} (P : A -> bool) (pre : list A) (r : A) (post : list A) :
  (forall x, In x pre -> P x = false) -> P r = true ->
  find P (pre ++ r :: post) = Some r.
Proof.
  intros Hpre Hr. induction pre as [|x pre IH]; simpl.
  - now rewrite Hr.
  - rewrite (Hpre x) by now left. apply IH. intros; apply Hpre; now right.
Qed.

Lemma find_filter_map {A B} (P Q : B -> bool) (f : A -> B) (l : list A) :
  find P (filter Q (map f l))
  = option_map f (find (fun x => Q (f x) && P (f x)) l).
Proof.
  induction l as [|x l IH]; simpl; auto.
  destruct (Q (f x)); simpl; [|exact IH].
  destruct (P (f x)); simpl; [reflexivity | exact IH].
Qed.

Lemma find_ext {A} (P P' : A -> bool) (l : list A) :
  (forall x, P x = P' x) -> find P l = find P' l.
Proof.
  intros H. induction l as [|x l IH]; simpl; auto. now rewrite H, IH.
Qed.

(** X21: an exact bundle is always preferred, and among exact bundles the
    first listed: when some set agrees with the recommended sizes on all
    five fingers, the head of [matching_sets], and with it the recorded
    [matchingSetId], is the first set of the list with [diff = 0]. *)
Theorem exact_bundle_preferred (t i m r p : FingerResult)
  (sets : list SizeSet) (s : SizeSet) :
  In s sets -> hamming (recommended_of t i m r p) s = 0 ->
  exists ms first,
    matchingSets (perFinger_of t i m r p) sets = Normal ms /\
    find (fun x => hamming (recommended_of t i m r p) x =? 0) sets
    = Some first /\
    hd_error ms = Some (ranked_entry (recommended_of t i m r p) first) /\
    bestMatchSetId ms = Some (set_id first).
Proof.
  intros Hin Hzero. rewrite matchingSets_ranked.
  set (rec := recommended_of t i m r p) in *.
  set (entries := filter (fun e => ms_diff e <=? 2) (map (ranked_entry rec) sets)).
  assert (HT : Forall (fun _ : MatchingSet => True) entries)
    by (apply Forall_forall; auto).
  assert (He0 : In (ranked_entry rec s) entries).
  { apply filter_In. split; [now apply in_map|]. simpl. now rewrite Hzero. }
  destruct (first_best_split ms_diff (fun _ => true) entries)
    as (pre & e & post & Hsplit & _ & Hpre & Hpost & Hbest);
    [exists (ranked_entry rec s); auto|].
  assert (Hhd : hd_error (array_sort (fun a b => ms_diff a - ms_diff b) entries)
                = Some e).
  { rewrite hd_error_find.
    rewrite (find_array_sort _ ms_diff (fun _ => True) diff_cmp_key
               (fun _ => true) entries HT).
    exact Hbest. }
  assert (Hein : In e entries)
    by (rewrite Hsplit; apply in_or_app; right; now left).
  assert (Hege : 0 <= ms_diff e).
  { apply filter_In in Hein as [Hein _].
    apply in_map_iff in Hein as (s' & <- & _). simpl.
    apply hamming_nonneg. }
  assert (He : ms_diff e = 0).
  { rewrite Hsplit in He0. apply in_app_or in He0 as [H|[H|H]].
    - specialize (Hpre _ H eq_refl). simpl in Hpre. lia.
    - rewrite H. simpl. exact Hzero.
    - specialize (Hpost _ H eq_refl). simpl in Hpost. lia. }
  assert (Hfind : find (fun x => ms_diff x =? 0) entries = Some e).
  { rewrite Hsplit. apply find_split.
    - intros x Hx. specialize (Hpre x Hx eq_refl). apply Z.eqb_neq. lia.
    - now apply Z.eqb_eq. }
  unfold entries in Hfind. rewrite find_filter_map in Hfind.
  rewrite (find_ext _ (fun x => hamming rec x =? 0)) in Hfind.
  2:{ intros x. simpl. destruct (Z.eqb_spec (hamming rec x) 0) as [E|E].
      - rewrite E. reflexivity.
      - apply andb_false_r. }
  destruct (find (fun x => hamming rec x =? 0) sets) as [first|] eqn:Hf;
    [|discriminate].
  simpl in Hfind. inversion Hfind; subst e.
  eexists _, first. repeat split; auto.
  destruct (array_sort (fun a b => ms_diff a - ms_diff b) entries) as [|h l];
    [discriminate|].
  simpl in Hhd. inversion Hhd; subst h. reflexivity.
Qed.

Lemma exact_bundle_preferred_witness :
  exists ms first,
    matchingSets
      (perFinger_of (mkFingerResult 9 "9" (11 # 1) standard)
         (mkFingerResult 9 "9" (11 # 1) standard)
         (mkFingerResult 9 "9" (11 # 1) standard)
         (mkFingerResult 9 "9" (11 # 1) standard)
         (mkFingerResult 9 "9" (11 # 1) standard))
      (sizeSets db_all_rule) = Normal ms /\
    find (fun x =>
            hamming
              (recommended_of (mkFingerResult 9 "9" (11 # 1) standard)
                 (mkFingerResult 9 "9" (11 # 1) standard)
                 (mkFingerResult 9 "9" (11 # 1) standard)
                 (mkFingerResult 9 "9" (11 # 1) standard)
                 (mkFingerResult 9 "9" (11 # 1) standard)) x =? 0)
      (sizeSets db_all_rule) = Some first /\
    hd_error ms
    = Some (ranked_entry
              (recommended_of (mkFingerResult 9 "9" (11 # 1) standard)
                 (mkFingerResult 9 "9" (11 # 1) standard)
                 (mkFingerResult 9 "9" (11 # 1) standard)
                 (mkFingerResult 9 "9" (11 # 1) standard)
                 (mkFingerResult 9 "9" (11 # 1) standard)) first) /\
    bestMatchSetId ms = Some (set_id first).
Proof.
  apply (exact_bundle_preferred _ _ _ _ _ (sizeSets db_all_rule)
           (mkSizeSet 7 "default" "Nines" 9 9 9 9 9)).
  - left. reflexivity.
  - reflexivity.
Defined.

(* ================================================================== *)
(** * When the recommend route fails with a 500 *)

Lemma matcher_throws_iff (w : Q) (f : FingerName) (rules : list SizeRule)
  (cfg : SizeRulesConfig) (e : JsError) :
  applyRulesToFinger w f rules cfg = Throw e <->
  (forall r, In r rules -> is_relevant f r = false).
Proof.
  split.
  - intros H r Hr. destruct (is_relevant f r) eqn:E; auto.
    destruct (applyRulesToFinger_total w f rules cfg
                (ex_intro _ r (conj Hr E))) as [res Hres].
    congruence.
  - intros H. unfold applyRulesToFinger.
    rewrite (sorted_relevant_nil f rules H). now destruct e.
Qed.

Lemma finger_loop_threw fingers_ rules cfg rows d tr before n after fd :
  (forall x, In x before ->
     fingers_ x <> None /\ exists r, In r rules /\ is_relevant x r = true) ->
  fingers_ n = Some fd ->
  (forall r, In r rules -> is_relevant n r = false) ->
  forall pf,
    finger_loop (before ++ n :: after) fingers_ rules cfg rows pf d tr
    = (Threw TypeError, d, tr).
Proof.
  intros Hbefore Hn Hnone. induction before as [|x before IH]; intros pf; simpl.
  - rewrite Hn. unfold bind, liftC.
    now rewrite (proj2 (matcher_throws_iff _ n rules cfg TypeError) Hnone).
  - destruct (Hbefore x (or_introl eq_refl)) as [Hx Hrel].
    destruct (fingers_ x) as [fdx|]; [|congruence].
    destruct (applyRulesToFinger_total (curve_adj_width_mm fdx) x rules cfg Hrel)
      as [[sz ft] Hres].
    unfold bind, liftC. rewrite Hres.
    apply IH. intros y Hy. apply Hbefore. now right.
Qed.

Lemma finger_loop_threw_inv names fingers_ rules cfg rows :
  forall pf d tr e d' tr',
    finger_loop names fingers_ rules cfg rows pf d tr = (Threw e, d', tr') ->
    exists before n after,
      names = before ++ n :: after /\
      (forall x, In x before ->
         fingers_ x <> None /\ exists r, In r rules /\ is_relevant x r = true) /\
      fingers_ n <> None /\
      (forall r, In r rules -> is_relevant n r = false).
Proof.
  induction names as [|x names IH]; intros pf d tr e d' tr' H; simpl in H.
  - discriminate.
  - destruct (fingers_ x) as [fdx|] eqn:Hx; [|discriminate].
    unfold bind, liftC in H.
    destruct (applyRulesToFinger (curve_adj_width_mm fdx) x rules cfg)
      as [[sz ft]|e0] eqn:Happ.
    + destruct (IH _ _ _ _ _ _ H) as (before & n & after & -> & Hb & Hn & Hnone).
      exists (x :: before), n, after.
      split; [reflexivity|]. split; [|split; assumption].
      intros y [<-|Hy]; [|now apply Hb]. split; [congruence|].
      destruct (existsb (is_relevant x) rules) eqn:Hex.
      * apply existsb_exists in Hex. exact Hex.
      * exfalso.
        assert (Hno : forall r, In r rules -> is_relevant x r = false).
        { intros r Hr. destruct (is_relevant x r) eqn:E; auto.
          assert (existsb (is_relevant x) rules = true)
            by (apply existsb_exists; eauto).
          congruence. }
        apply (matcher_throws_iff (curve_adj_width_mm fdx) x rules cfg
                 TypeError) in Hno.
        congruence.
    + exists [], x, names.
      split; [reflexivity|]. split; [intros y []|]. split; [congruence|].
      now apply (matcher_throws_iff (curve_adj_width_mm fdx) x rules cfg e0).
Qed.

(** X22: the recommend route is answered 500 [internal_error] in exactly
    two situations: the body is the JSON value [null], of which reading
    [measurement_id] throws before any query is made; or the request names
    a stored measurement, the chart has rules, and the finger loop reaches
    a measured finger to which no rule of the chart applies (every finger
    before it being measured and matched).  No other request ever gets a
    500 from this route. *)
Theorem internal_error_exactly (body : ReqBody) (d : Db) :
  app_recommend body d = internal_error_response <->
  body = JsonNull \/
  exists id m rows n,
    body = Json (Some id) /\ id <> EmptyString /\
    select_measurement id d = m :: rows /\
    select_rules d <> [] /\
    unmatched_finger m (select_rules d) n.
Proof.
  unfold app_recommend, run_recommend. split.
  - remember (recommend_post body d []) as res eqn:Hres.
    unfold recommend_post in Hres.
    destruct body as [| |[[|c id]|]]; step_handler Hres;
      try (subst res; discriminate); [now left|].
    destruct (select_measurement (String c id) d) as [|m rows] eqn:Hm;
      step_handler Hres; [subst res; discriminate|].
    destruct (select_rules d) as [|r0 rules0] eqn:Hr;
      cbn [List.length Nat.eqb] in Hres; step_handler Hres;
      [subst res; discriminate|].
    unfold bind at 1 in Hres.
    match type of Hres with
    | context [finger_loop ?a ?b ?c ?e ?g ?h ?i ?j] =>
        destruct (finger_loop a b c e g h i j) as [[out d'] tr'] eqn:Hloop
    end.
    destruct out as [pf|resp|e].
    + destruct (finger_loop_shape _ _ _ _ _ _ _ _ _ Hloop)
        as (t & i & mi & r & p & ->).
      step_handler Hres. rewrite sizeProfile_of in Hres. step_handler Hres.
      rewrite matchingSets_ranked in Hres. step_handler Hres.
      rewrite sizesJson_of in Hres. step_handler Hres.
      subst res. unfold bind, insert_recommendation, ret. discriminate.
    + apply finger_loop_respond in Hloop as (n & _ & _ & ->).
      subst res. discriminate.
    + intros _. apply finger_loop_threw_inv in Hloop
        as (before & n & after & Hnames & Hb & Hn & Hnone).
      right. exists (String c id), m, rows, n.
      repeat split; try discriminate; auto.
      exists before, after. auto.
  - intros [-> | (id & m & rows & n & -> & Hid & Hm & Hrules
                  & before & after & Hnames & Hb & Hn & Hnone)];
      [reflexivity|].
    unfold recommend_post.
    destruct id as [|c id']; [congruence|].
    rewrite bind_ret, bind_select, Hm, bind_ret, bind_select.
    destruct (select_rules d) as [|r0 rules0] eqn:Hr; [congruence|].
    cbn [List.length Nat.eqb]. rewrite bind_ret, !bind_select.
    unfold bind at 1. rewrite Hnames.
    destruct (fingers m n) as [fd|] eqn:Hfd; [|congruence].
    rewrite (finger_loop_threw (fingers m) (r0 :: rules0) _ _ d _
               before n after fd Hb Hfd Hnone).
    reflexivity.
Qed.

(* ================================================================== *)
(** * The measure route, and measuring before recommending *)

Lemma includes_In (l : list string) (s : string) :
  includes l s = true -> In s l.
Proof.
  unfold includes. intros H. apply existsb_exists in H as (x & Hx & E).
  apply String.eqb_eq in E. now subst.
Qed.

(** What [POST /rules] leaves behind: the table as it was, or the table
    with one more row whose range is ordered and whose finger is a valid
    name or the empty string. *)
(** X23: [POST /v1/measure] stores a measurement exactly when it answers
    200: then the image was a JPEG or PNG file of at most 10 MiB, the CV
    service returned a result, the generated id was not stored yet, and
    the one appended row has the id of the answer and the fingers the CV
    service reported.  Every other request (validation error, CV error
    with the status and code of the CV service, exception) leaves the
    database unchanged. *)
Theorem measure_post_writes_on_success (form : option MeasureForm)
  (cv : CVExchange) (id : string) (d : Db) :
  (exists result size_ type_ f,
     form = Some f /\ form_image f = FormFile size_ type_ /\
     size_ <= 10485760 /\ (type_ = "image/jpeg" \/ type_ = "image/png") /\
     cvMeasure cv = CVResult result /\
     select_measurement id d = [] /\
     measure_post form cv id d
     = (MeasureOk id (cv_hand result) (cv_scale_px_per_mm result)
          (cv_fingers result) (cv_overall_confidence result)
          (cv_warnings result),
        with_measurements d
          (measurements d ++ [mkMeasurement id (cv_fingers result)]))) \/
  (snd (measure_post form cv id d) = d /\
   ~ is_measured (fst (measure_post form cv id d))).
Proof.
  assert (Herr : forall s a b, ~ is_measured (MeasureError s a b))
    by (intros s a b (? & ? & ? & ? & ? & ? & H); discriminate).
  assert (Hthr : ~ is_measured MeasureThrows)
    by (intros (? & ? & ? & ? & ? & ? & H); discriminate).
  unfold measure_post.
  destruct form as [f|]; [|right; split; [reflexivity | apply Herr]].
  destruct (form_image f) as [|s|size_ type_] eqn:Himg;
    try (right; split; [reflexivity | apply Herr]).
  destruct (Z.gtb_spec size_ (10 * 1024 * 1024)) as [Hbig|Hsmall];
    [right; split; [reflexivity | apply Herr]|].
  destruct (includes ["image/jpeg"; "image/png"] type_) eqn:Htype;
    cbn [negb]; [|right; split; [reflexivity | apply Herr]].
  destruct (form_truthy (form_hand f)
            && negb (includes ["left"; "right"] (String_of_form (form_hand f))));
    [right; split; [reflexivity | apply Herr]|].
  destruct (cvMeasure cv) as [result|status code message|] eqn:Hcv;
    [|right; split; [reflexivity | apply Herr]
     |right; split; [reflexivity | apply Hthr]].
  destruct (select_measurement id d) as [|m rows] eqn:Hsel;
    [|right; split; [reflexivity | apply Hthr]].
  left. exists result, size_, type_, f.
  split; [reflexivity|]. split; [exact Himg|]. split; [lia|].
  split; [|auto].
  apply includes_In in Htype. destruct Htype as [<-|[<-|[]]]; auto.
Qed.

Lemma measure_post_ok_inv (form : option MeasureForm) (cv : CVExchange)
  (id : string) (d d' : Db) id' hand scale fs conf warn :
  measure_post form cv id d = (MeasureOk id' hand scale fs conf warn, d') ->
  id' = id /\ select_measurement id d = [] /\
  d' = with_measurements d (measurements d ++ [mkMeasurement id fs]).
Proof.
  unfold measure_post.
  destruct form as [f|]; [|discriminate].
  destruct (form_image f) as [|s|size_ type_]; try discriminate.
  destruct (size_ >? 10 * 1024 * 1024); [discriminate|].
  destruct (negb (includes ["image/jpeg"; "image/png"] type_));
    [discriminate|].
  destruct (form_truthy (form_hand f)
            && negb (includes ["left"; "right"] (String_of_form (form_hand f))));
    [discriminate|].
  destruct (cvMeasure cv) as [result|status code message|]; try discriminate.
  destruct (select_measurement id d) as [|m rows]; [|discriminate].
  intros H. inversion H; subst. auto.
Qed.

(** X24: measuring, then recommending.  When [POST /v1/measure] answers 200
    with an id of [generateMeasurementId], the CV service having reported
    all five fingers, and the chart has a rule for every finger, then
    [POST /v1/recommend] with that id on the resulting database finds the
    stored measurement and answers with a recommendation. *)
Theorem measure_then_recommend (form : option MeasureForm) (cv : CVExchange)
  (random : string) (d d' : Db) hand scale fs conf warn
  (fd : FingerName -> FingerData) :
  measure_post form cv (generateMeasurementId random) d
  = (MeasureOk (generateMeasurementId random) hand scale fs conf warn, d') ->
  (forall n, fs n = Some (fd n)) ->
  (forall n, exists r, In r (select_rules d) /\ is_relevant n r = true) ->
  select_measurement (generateMeasurementId random) d'
  = [mkMeasurement (generateMeasurementId random) fs] /\
  exists profile pf ms d'',
    run_recommend (Json (Some (generateMeasurementId random))) d'
    = (Normal (JsonOk (generateMeasurementId random) profile pf ms),
       d'', recommend_trace).
Proof.
  intros Hpost Hfs Hrel.
  apply measure_post_ok_inv in Hpost as (_ & Hsel & ->).
  assert (Hfound : select_measurement (generateMeasurementId random)
                     (with_measurements d
                        (measurements d
                         ++ [mkMeasurement (generateMeasurementId random) fs]))
                   = [mkMeasurement (generateMeasurementId random) fs]).
  { unfold select_measurement in *. cbn [measurements with_measurements].
    rewrite filter_app, Hsel. cbn [filter msr_id app].
    now rewrite String.eqb_refl. }
  split; [exact Hfound|].
  destruct (composer_profile (generateMeasurementId random) _ _ _ fd
              ltac:(discriminate) Hfound Hfs Hrel)
    as (sz & pf & ms & d'' & _ & Hrun).
  eauto.
Qed.

Lemma measure_then_recommend_witness :
  select_measurement (generateMeasurementId "k3x9a7q2m4p8")
    (snd (measure_post (Some png_upload) (CVOk cv_five_fingers)
            (generateMeasurementId "k3x9a7q2m4p8") db_all_rule))
  = [mkMeasurement (generateMeasurementId "k3x9a7q2m4p8")
       (cv_fingers cv_five_fingers)] /\
  exists profile pf ms d'',
    run_recommend (Json (Some (generateMeasurementId "k3x9a7q2m4p8")))
      (snd (measure_post (Some png_upload) (CVOk cv_five_fingers)
              (generateMeasurementId "k3x9a7q2m4p8") db_all_rule))
    = (Normal (JsonOk (generateMeasurementId "k3x9a7q2m4p8") profile pf ms),
       d'', recommend_trace).
Proof.
  apply (measure_then_recommend (Some png_upload) (CVOk cv_five_fingers)
           "k3x9a7q2m4p8" db_all_rule _ "left" (10 # 1)
           (cv_fingers cv_five_fingers) (9 # 10) [] (fun _ => finger_11)).
  - reflexivity.
  - intros n. reflexivity.
  - intros n. exists rule_all_10_12. split.
    + simpl. auto.
    + destruct n; reflexivity.
Defined.
